(** * Firmadyne extractor: a shallow embedding of [extractor.py]

    The development follows
    [src/baseImage/firmadyne/firmadyne/extractor/extractor.py].

    - Python [str] values are [string]s, one character per [ascii]
      (descriptions and file names are taken to be ASCII); Python [int]s
      are [Z] (offsets, sizes) or [nat] (depth, counters).
    - File contents are [list byte].
    - The three external libraries (hashlib, libmagic, binwalk) and the
      names [tempfile] picks are the fields of a record [Libraries]: the
      code only consumes their results.
    - A directory on disk is a finite tree [fsnode] of directories and
      regular files (no symbolic links); [os.listdir] is the list of entries
      of a [Dir] in the order the OS returns them.  An item carries the
      bytes of its file, which nothing rewrites while the item lives.
    - The job object ([Extractor]) is threaded explicitly, together with
      the two output files and a ghost trace of the items built, the
      digests inserted and the scratch directories created.
    - [ExtractionItem.extract] is recursive through its phases; the model
      unrolls it [fuel] times.  A Python exception, and the exhaustion of
      the fuel, are results of their own, and both carry the job state
      reached.  Enough fuel always exists ([extract_terminates]). *)

From Stdlib Require Import ZArith Lia Strings.Byte Ascii String List.
From stdpp Require Import gmap strings list sorting pretty.

Open Scope string_scope.
Set Warnings "-register-all".

(** ** Python string primitives *)

Module Py.

(** [s.startswith(pre)] *)
Definition startswith (pre s : string) : bool := String.prefix pre s.

(** [sub in s] on strings. *)
Fixpoint contains (sub s : string) : bool :=
  String.prefix sub s ||
  match s with
  | EmptyString => false
  | String _ s' => contains sub s'
  end.

(** [s.endswith(suf)] *)
Fixpoint endswith (suf s : string) : bool :=
  String.eqb suf s ||
  match s with
  | EmptyString => false
  | String _ s' => endswith suf s'
  end.

(** [s.split(sep)] for a one-character separator: never empty. *)
Fixpoint split (sep : ascii) (s : string) : list string :=
  match s with
  | EmptyString => [EmptyString]
  | String c s' =>
      if Ascii.eqb c sep then EmptyString :: split sep s'
      else match split sep s' with
           | h :: t => String c h :: t
           | [] => [String c EmptyString]
           end
  end.

(** [x in l] on a list of strings. *)
Definition mem (x : string) (l : list string) : bool :=
  existsb (String.eqb x) l.

(** [any(s in text for s in pats)] *)
Definition any_in (pats : list string) (text : string) : bool :=
  existsb (fun s => contains s text) pats.

(** [c.isdigit()] on ASCII. *)
Definition isdigit (c : ascii) : bool :=
  let n := N_of_ascii c in (48 <=? n)%N && (n <=? 57)%N.

(** The whitespace [int()] strips (ASCII part of [str.isspace]). *)
Definition isspace (c : ascii) : bool :=
  let n := N_of_ascii c in
  ((9 <=? n)%N && (n <=? 13)%N) || ((28 <=? n)%N && (n <=? 32)%N).

Definition hexval (c : ascii) : option Z :=
  let n := N_of_ascii c in
  if (48 <=? n)%N && (n <=? 57)%N then Some (Z.of_N n - 48)%Z
  else if (97 <=? n)%N && (n <=? 102)%N then Some (Z.of_N n - 87)%Z
  else if (65 <=? n)%N && (n <=? 70)%N then Some (Z.of_N n - 55)%Z
  else None.

Fixpoint lstrip (s : string) : string :=
  match s with
  | String c s' => if isspace c then lstrip s' else s
  | EmptyString => EmptyString
  end.

Definition rstrip (s : string) : string :=
  String.rev (lstrip (String.rev s)).

(** Digits of [int(_, base)] after sign and prefix: single underscores
    are allowed between digits only.  [prev] tells whether the previous
    character was an underscore, [seen] whether a digit was read. *)
Fixpoint digits (base : Z) (s : string) (prev seen : bool) (acc : Z)
  : option Z :=
  match s with
  | EmptyString => if prev || negb seen then None else Some acc
  | String c s' =>
      if Ascii.eqb c "_"%char then
        if prev || negb seen then None else digits base s' true seen acc
      else match hexval c with
           | Some d =>
               if (d <? base)%Z then digits base s' false true (acc * base + d)%Z
               else None
           | None => None
           end
  end.

Definition unsigned16 (s : string) : option Z :=
  match s with
  | String "0" (String x s') =>
      if Ascii.eqb x "x"%char || Ascii.eqb x "X"%char then
        match s' with
        | String "_" s'' => digits 16 s'' false false 0
        | _ => digits 16 s' false false 0
        end
      else digits 16 s false false 0
  | _ => digits 16 s false false 0
  end.

(** [int(s, 16)]; [None] is [ValueError]. *)
Definition int16 (s : string) : option Z :=
  match rstrip (lstrip s) with
  | String "-" s' => Z.opp <$> unsigned16 s'
  | String "+" s' => unsigned16 s'
  | s' => unsigned16 s'
  end.

(** [int(''.join(i for i in s if i.isdigit()), 10)]; [None] is the
    [ValueError] of [int('')]. *)
Fixpoint keep_digits (s : string) : string :=
  match s with
  | EmptyString => EmptyString
  | String c s' => if isdigit c then String c (keep_digits s') else keep_digits s'
  end.

Definition int10_of_digits (s : string) : option Z :=
  digits 10 (keep_digits s) false false 0.

(** [l[i]]; [None] is [IndexError]. *)
Definition index {A} (l : list A) (i : nat) : option A := nth_error l i.

(** [l.remove(x)]: drops the first occurrence. *)
Fixpoint remove (x : string) (l : list string) : list string :=
  match l with
  | [] => []
  | y :: l' => if String.eqb x y then l' else y :: remove x l'
  end.

(** [posixpath.join(a, b)] *)
Definition path_join (a b : string) : string :=
  if startswith "/" b then b
  else if String.eqb a EmptyString || endswith "/" a then a ++ b
  else a ++ "/" ++ b.

End Py.

(** ** Directory trees *)

Inductive fsnode : Type :=
| File (data : list byte)
| Dir (entries : list (string * fsnode)).

Definition isdir (n : fsnode) : bool :=
  match n with Dir _ => true | File _ => false end.

(** [os.listdir]; the extractor only lists paths it has tested with
    [os.path.isdir], or directories the scanner produced. *)
Definition listdir (n : fsnode) : list (string * fsnode) :=
  match n with Dir es => es | File _ => [] end.

(** ** Class [Extractor]: constants and [io_find_rootfs] *)

Definition UNIX_DIRS : list string :=
  ["bin"; "etc"; "dev"; "home"; "lib"; "mnt"; "opt"; "root"; "run"; "sbin";
   "tmp"; "usr"; "var"].
Definition UNIX_THRESHOLD : nat := 4.

(** The [while] loop of [io_find_rootfs]: follow single directory chains. *)
Fixpoint single_chain (path : string) (n : fsnode) : string * fsnode :=
  match n with
  | Dir [(name, (Dir _ as child))] => single_chain (Py.path_join path name) child
  | _ => (path, n)
  end.

(** The counting loop: [count += 1] for every UNIX-like subdirectory. *)
Definition count_unix_dirs (es : list (string * fsnode)) : nat :=
  fold_left (fun count e => if Py.mem e.1 UNIX_DIRS && isdir e.2 then S count else count)
            es 0.

(** The [for subdir in os.listdir(path)] loop of the [recurse] branch. *)
Fixpoint first_rootfs (self : string -> fsnode -> bool * string)
    (path : string) (es : list (string * fsnode)) : option (bool * string) :=
  match es with
  | [] => None
  | (subdir, child) :: es' =>
      if isdir child then
        let res := self (Py.path_join path subdir) child in
        if res.1 then Some res else first_rootfs self path es'
      else first_rootfs self path es'
  end.

Definition io_find_rootfs_body (self : string -> fsnode -> bool * string)
    (start : string) (n : fsnode) (recurse : bool) : bool * string :=
  let '(path, d) := single_chain start n in
  let count := count_unix_dirs (listdir d) in
  if (UNIX_THRESHOLD <=? count)%nat then (true, path)
  else if recurse then
    match first_rootfs self path (listdir d) with
    | Some res => res
    | None => (false, start)
    end
  else (false, start).

(** [io_find_rootfs(start, recurse)]: the only recursive call passes
    [recurse=False], so the recursion is two levels deep. *)
Definition io_find_rootfs (start : string) (n : fsnode) (recurse : bool)
  : bool * string :=
  io_find_rootfs_body
    (fun s m => io_find_rootfs_body (fun s' _ => (false, s')) s m false)
    start n recurse.

(** ** Sorting, as [list.sort] does it

    Python's sort is stable, and the stable sorted arrangement of a list is
    unique; a stable insertion sort computes it. *)

Section Sort.
Context {A : Type} (le : A -> A -> bool).

Fixpoint insert_sorted (x : A) (l : list A) : list A :=
  match l with
  | [] => [x]
  | y :: l' => if le x y then x :: y :: l' else y :: insert_sorted x l'
  end.

Fixpoint sort_by (l : list A) : list A :=
  match l with
  | [] => []
  | x :: l' => insert_sorted x (sort_by l')
  end.
End Sort.

(** [a <= b] on [str], and on [len] for [sort(key=len)]. *)
Definition str_le (a b : string) : bool := String.leb a b.
Definition len_le (a b : string) : bool :=
  (String.length a <=? String.length b)%nat.

(** ** The external libraries *)

Inductive category : Type := Header | Kernel | Filesystem | Archive | Compressed.

(** A binwalk result: [entry.description], [entry.offset]. *)
Record Entry : Type := { description : string; offset : Z }.

(** A binwalk module: [module.results] and [module.extractor.directory]
    together with the tree the extraction left there. *)
Record ScanModule : Type :=
  { results : list Entry; directory : option (string * fsnode) }.

Record Libraries : Type :=
  { (** [hashlib.md5(...).hexdigest()] of a file's bytes *)
    md5 : list byte -> string;
    (** [Extractor.magic(path, mime)] *)
    magic : string -> list byte -> bool -> string;
    (** [binwalk.scan(path, "-y", category, ...)] run in directory [cwd];
        the categories [Filesystem], [Archive], [Compressed] are the ones
        scanned with ["-e", "-r"]. *)
    binwalk_scan : string -> string -> list byte -> category -> list ScanModule;
    (** the name [tempfile] picks for its [n]-th request *)
    tmpname : nat -> string }.

(** ** Job and item state *)

Inductive origin : Type := Seed | Carved | Walked.

(** Ghost trace of the run. *)
Inductive event : Type :=
| EvNew (o : origin) (path : string) (depth : nat)  (* ExtractionItem(...) *)
| EvVisit (checksum : string)                       (* visited.add *)
| EvScratch (dir : string) (depth : nat).           (* tempfile.mkdtemp *)

(** The [Extractor] object and the part of the disk it owns: the two output
    files [<output>.kernel] and [<output>.tar.gz]. *)
Record Extractor : Type :=
  { output_dir : option string;
    do_kernel : bool;
    do_rootfs : bool;
    visited : gset string;
    kernel_file : option (list byte);
    rootfs_file : option string;
    tmp_count : nat;
    trace : list event }.

Definition set_do_kernel (b : bool) (ex : Extractor) : Extractor :=
  {| output_dir := output_dir ex; do_kernel := b; do_rootfs := do_rootfs ex;
     visited := visited ex; kernel_file := kernel_file ex;
     rootfs_file := rootfs_file ex; tmp_count := tmp_count ex;
     trace := trace ex |}.

Definition set_do_rootfs (b : bool) (ex : Extractor) : Extractor :=
  {| output_dir := output_dir ex; do_kernel := do_kernel ex; do_rootfs := b;
     visited := visited ex; kernel_file := kernel_file ex;
     rootfs_file := rootfs_file ex; tmp_count := tmp_count ex;
     trace := trace ex |}.

Definition visited_add (c : string) (ex : Extractor) : Extractor :=
  {| output_dir := output_dir ex; do_kernel := do_kernel ex;
     do_rootfs := do_rootfs ex; visited := {[ c ]} ∪ visited ex;
     kernel_file := kernel_file ex; rootfs_file := rootfs_file ex;
     tmp_count := tmp_count ex; trace := EvVisit c :: trace ex |}.

Definition write_kernel (d : list byte) (ex : Extractor) : Extractor :=
  {| output_dir := output_dir ex; do_kernel := do_kernel ex;
     do_rootfs := do_rootfs ex; visited := visited ex;
     kernel_file := Some d; rootfs_file := rootfs_file ex;
     tmp_count := tmp_count ex; trace := trace ex |}.

Definition write_rootfs (root : string) (ex : Extractor) : Extractor :=
  {| output_dir := output_dir ex; do_kernel := do_kernel ex;
     do_rootfs := do_rootfs ex; visited := visited ex;
     kernel_file := kernel_file ex; rootfs_file := Some root;
     tmp_count := tmp_count ex; trace := trace ex |}.

Definition bump_tmp (ex : Extractor) : Extractor :=
  {| output_dir := output_dir ex; do_kernel := do_kernel ex;
     do_rootfs := do_rootfs ex; visited := visited ex;
     kernel_file := kernel_file ex; rootfs_file := rootfs_file ex;
     tmp_count := S (tmp_count ex); trace := trace ex |}.

Definition log (e : event) (ex : Extractor) : Extractor :=
  {| output_dir := output_dir ex; do_kernel := do_kernel ex;
     do_rootfs := do_rootfs ex; visited := visited ex;
     kernel_file := kernel_file ex; rootfs_file := rootfs_file ex;
     tmp_count := tmp_count ex; trace := e :: trace ex |}.

(** [Extractor(indir, outdir, rootfs, kernel)] on a disk whose output files
    are [kfile] and [rfile]. *)
Definition Extractor_init (outdir : option string) (rootfs kernel : bool)
    (kfile : option (list byte)) (rfile : option string) : Extractor :=
  {| output_dir := outdir; do_kernel := kernel; do_rootfs := rootfs;
     visited := ∅; kernel_file := kfile; rootfs_file := rfile;
     tmp_count := 0; trace := [] |}.

(** One [ExtractionItem]; [data] is the content of the file at [item]. *)
Record ExtractionItem : Type :=
  { temp : option string;
    depth : nat;
    item : string;
    data : list byte;
    checksum : string;
    terminate : bool;
    status : bool * bool }.

Definition set_temp (t : option string) (self : ExtractionItem) : ExtractionItem :=
  {| temp := t; depth := depth self; item := item self; data := data self;
     checksum := checksum self; terminate := terminate self;
     status := status self |}.

Definition set_terminate (b : bool) (self : ExtractionItem) : ExtractionItem :=
  {| temp := temp self; depth := depth self; item := item self;
     data := data self; checksum := checksum self; terminate := b;
     status := status self |}.

Definition set_status (s : bool * bool) (self : ExtractionItem) : ExtractionItem :=
  {| temp := temp self; depth := depth self; item := item self;
     data := data self; checksum := checksum self;
     terminate := terminate self; status := s |}.

(** What a call leaves behind: a value, a Python exception on its way to the
    nearest [except], or the recursion fuel of the model used up.  Every
    case carries the job state reached. *)
Inductive result (A : Type) : Type :=
| Ok (a : A) (ex : Extractor)
| Exn (ex : Extractor)
| OutOfFuel (ex : Extractor).
Arguments Ok {A} a ex.
Arguments Exn {A} ex.
Arguments OutOfFuel {A} ex.

Definition final {A} (r : result A) : Extractor :=
  match r with Ok _ ex | Exn ex | OutOfFuel ex => ex end.

(** [==] on [bytes]. *)
Fixpoint bytes_eqb (a b : list byte) : bool :=
  match a, b with
  | [], [] => true
  | x :: a', y :: b' => Byte.eqb x y && bytes_eqb a' b'
  | _, _ => false
  end.

Definition RECURSION_BREADTH : nat := 5.
Definition RECURSION_DEPTH : nat := 3.
Definition tag : string := "1".

(** ** Class [ExtractionItem] *)

Section Engine.
Variable L : Libraries.

(** [self.output], the same for every item of a job. *)
Definition output (ex : Extractor) : option string :=
  (fun d => Py.path_join d tag) <$> output_dir ex.

Definition get_kernel_path (ex : Extractor) : option string :=
  (fun o => o ++ ".kernel") <$> output ex.

Definition get_rootfs_path (ex : Extractor) : option string :=
  (fun o => o ++ ".tar.gz") <$> output ex.

Definition get_kernel_status (self : ExtractionItem) : bool := (status self).1.
Definition get_rootfs_status (self : ExtractionItem) : bool := (status self).2.

Definition get_status (self : ExtractionItem) : bool :=
  terminate self || (get_kernel_status self && get_rootfs_status self).

Definition isfile {A} (f : option A) : bool :=
  match f with Some _ => true | None => false end.

Definition update_status (ex : Extractor) (self : ExtractionItem)
  : ExtractionItem :=
  let kernel_done :=
    if do_kernel ex && isfile (output ex) then isfile (kernel_file ex)
    else negb (do_kernel ex) in
  let rootfs_done :=
    if do_rootfs ex && isfile (output ex) then isfile (rootfs_file ex)
    else negb (do_rootfs ex) in
  set_status (kernel_done, rootfs_done) self.

(** [ExtractionItem(extractor, path, depth)] for a file holding [d]. *)
Definition new_item (ex : Extractor) (path : string) (d : list byte)
    (dep : nat) : ExtractionItem :=
  update_status ex
    {| temp := None; depth := dep; item := path; data := d;
       checksum := md5 L d; terminate := false; status := (false, false) |}.

Definition MIME_BLACKLIST : list string :=
  ["application/x-executable"; "application/x-dosexec";
   "application/x-object"; "application/pdf"; "application/msword";
   "image/"; "text/"; "video/"].

Definition TYPE_BLACKLIST : list string :=
  ["executable"; "universal binary"; "relocatable"; "bytecode"; "applet"].

Definition _check_blacklist (self : ExtractionItem) : bool :=
  if Py.any_in MIME_BLACKLIST (magic L (item self) (data self) true) then true
  else if Py.any_in TYPE_BLACKLIST (magic L (item self) (data self) false) then true
  else if Py.endswith ".dmg" (item self) then true
  else false.

Definition gettempdir : string := "/tmp".

(** [tempfile.mkdtemp()] *)
Definition mkdtemp (ex : Extractor) : string * Extractor :=
  (Py.path_join gettempdir (tmpname L (tmp_count ex)), bump_tmp ex).

(** [tempfile.mkstemp(dir=d)], closed at once: a new empty file. *)
Definition mkstemp (d : option string) (ex : Extractor) : string * Extractor :=
  (Py.path_join (default gettempdir d) (tmpname L (tmp_count ex)), bump_tmp ex).

Definition getsize (self : ExtractionItem) : Z := Z.of_nat (length (data self)).

(** [Extractor.io_dd]: the bytes that end up in the output file, which
    [mkstemp] created empty.  [None]: [seek] or [read] raised.  The model
    is that of offsets below 2^63 and of sizes a read buffer can hold, which
    is all the callers pass behind their bound checks; beyond them [seek]
    and [read] raise as well. *)
Definition io_dd (indata : list byte) (off size : Z) : option (list byte) :=
  if (size =? 0)%Z then Some []
  else if (off <? 0)%Z then None
  else if (size <? -1)%Z then None
  else if (size =? -1)%Z then Some (drop (Z.to_nat off) indata)
  else Some (take (Z.to_nat size) (drop (Z.to_nat off) indata)).

(** *** Phase 2: [_check_encryption] *)

Definition SHRS : list byte := [x53; x48; x52; x53].

(** The decrypted copy lands in the scratch directory, which nothing
    reads afterwards. *)
Definition _check_encryption (self : ExtractionItem) (ex : Extractor)
  : result (bool * ExtractionItem) :=
  if bytes_eqb (take 4 (data self)) SHRS then Ok (true, self) ex
  else Ok (false, self) ex.

(** *** Phase 4: [_check_kernel] *)

Fixpoint kernel_entries (self : ExtractionItem) (ex : Extractor)
    (es : list Entry) : result (bool * ExtractionItem) :=
  match es with
  | [] => Ok (false, self) ex
  | entry :: es' =>
      if Py.contains "kernel version" (description entry) then
        if Py.contains "Linux" (description entry) then
          match get_kernel_path ex with
          | Some _ => Ok (true, self) (write_kernel (data self) ex)
          | None => Ok (true, self) (set_do_kernel false ex)
          end
        else Ok (false, self) ex
      else kernel_entries self ex es'
  end.

Definition _check_kernel (self : ExtractionItem) (ex : Extractor)
  : result (bool * ExtractionItem) :=
  if negb (get_kernel_status self) then
    match binwalk_scan L (default EmptyString (temp self)) (item self) (data self) Kernel with
    | [] => Ok (false, self) ex
    | module :: _ => kernel_entries self ex (results module)
    end
  else Ok (false, self) ex.

(** *** Phase 5: [_check_rootfs] *)

(** [shutil.make_archive(self.output, ...)] or, without an output
    directory, giving up on the root filesystem. *)
Definition archive_rootfs (root : string) (ex : Extractor) : Extractor :=
  match output ex with
  | Some _ => write_rootfs root ex
  | None => set_do_rootfs false ex
  end.

Fixpoint rootfs_modules (self : ExtractionItem) (ex : Extractor)
    (ms : list ScanModule) : result (bool * ExtractionItem) :=
  match ms with
  | [] => Ok (false, self) ex
  | module :: ms' =>
      match directory module with
      | Some (dir, tree) =>
          let unix := io_find_rootfs dir tree true in
          if negb unix.1 then Ok (false, self) ex
          else Ok (true, self) (archive_rootfs unix.2 ex)
      | None => rootfs_modules self ex ms'
      end
  end.

Definition _check_rootfs (self : ExtractionItem) (ex : Extractor)
  : result (bool * ExtractionItem) :=
  if negb (get_rootfs_status self) then
    rootfs_modules self ex
      (binwalk_scan L (default EmptyString (temp self)) (item self) (data self) Filesystem)
  else Ok (false, self) ex.

(** Sequencing: exceptions and fuel exhaustion propagate. *)
Definition rbind {A B} (r : result A) (k : A -> Extractor -> result B)
  : result B :=
  match r with
  | Ok a ex => k a ex
  | Exn ex => Exn ex
  | OutOfFuel ex => OutOfFuel ex
  end.

(** [rec] stands for [ExtractionItem.extract] of a freshly built item. *)
Section Phases.
Variable rec : ExtractionItem -> Extractor -> result bool.

(** *** Phase 3: [_check_firmware] *)

(** [io_dd] into a new temporary file of the scratch directory, then
    [ExtractionItem(self.extractor, tmp_path, self.depth).extract()]. *)
Definition carve (self : ExtractionItem) (ex : Extractor) (off size : Z)
  : result bool :=
  let '(tmp_path, ex1) := mkstemp (temp self) ex in
  match io_dd (data self) off size with
  | None => Exn ex1
  | Some bytes =>
      rec (new_item ex1 tmp_path bytes (depth self))
          (log (EvNew Carved tmp_path (depth self)) ex1)
  end.

(** The [for stmt in entry.description.split(',')] loop of the uImage
    branch; [None] is the [ValueError] of [int]. *)
Fixpoint uimage_size (stmts : list string) (kernel_size : Z) : option Z :=
  match stmts with
  | [] => Some kernel_size
  | stmt :: rest =>
      if Py.contains "image size:" stmt then
        match Py.int10_of_digits stmt with
        | Some n => uimage_size rest n
        | None => None
        end
      else uimage_size rest kernel_size
  end.

(** [int(stmt.split(':')[1], 16)] *)
Definition hex_field (stmt : string) : option Z :=
  Py.index (Py.split ":" stmt) 1 ≫= Py.int16.

(** The four locals of the TP-Link/TRX branch. *)
Record trx : Type :=
  { kernel_offset : Z; kernel_size : Z; rootfs_offset : Z; rootfs_size : Z }.

Fixpoint trx_fields (stmts : list string) (t : trx) : option trx :=
  match stmts with
  | [] => Some t
  | stmt :: rest =>
      if Py.contains "kernel offset:" stmt then
        v ← hex_field stmt;
        trx_fields rest {| kernel_offset := v; kernel_size := kernel_size t;
                           rootfs_offset := rootfs_offset t;
                           rootfs_size := rootfs_size t |}
      else if Py.contains "kernel length:" stmt then
        v ← hex_field stmt;
        trx_fields rest {| kernel_offset := kernel_offset t; kernel_size := v;
                           rootfs_offset := rootfs_offset t;
                           rootfs_size := rootfs_size t |}
      else if Py.contains "rootfs offset:" stmt then
        v ← hex_field stmt;
        trx_fields rest {| kernel_offset := kernel_offset t;
                           kernel_size := kernel_size t;
                           rootfs_offset := v; rootfs_size := rootfs_size t |}
      else if Py.contains "rootfs length:" stmt then
        v ← hex_field stmt;
        trx_fields rest {| kernel_offset := kernel_offset t;
                           kernel_size := kernel_size t;
                           rootfs_offset := rootfs_offset t; rootfs_size := v |}
      else trx_fields rest t
  end.

(** "compute sizes if only offsets provided" *)
Definition trx_sizes (filesize : Z) (t : trx) : trx :=
  if negb (kernel_offset t =? rootfs_size t)%Z && (kernel_size t =? 0)%Z
     && (rootfs_size t =? 0)%Z
  then {| kernel_offset := kernel_offset t;
          kernel_size := rootfs_offset t - kernel_offset t;
          rootfs_offset := rootfs_offset t;
          rootfs_size := filesize - rootfs_offset t |}
  else t.

(** "ensure that computed values are sensible" *)
Definition trx_sensible (filesize : Z) (t : trx) : bool :=
  ((0 <? kernel_size t)%Z && (kernel_offset t + kernel_size t <=? filesize)%Z)
  && (negb (rootfs_size t =? 0)%Z
      && (rootfs_offset t + rootfs_size t <=? filesize)%Z).

(** Body of [for entry in module.results]; [Some b] is [return b],
    [None] goes on with the next entry. *)
Definition firmware_entry (self : ExtractionItem) (ex : Extractor)
    (entry : Entry) : result (option bool * ExtractionItem) :=
  let desc := description entry in
  if Py.contains "uImage header" desc then
    if negb (get_kernel_status self) && Py.contains "OS Kernel Image" desc then
      let koff := (offset entry + 64)%Z in
      match uimage_size (Py.split "," desc) 0 with
      | None => Exn ex
      | Some ksize =>
          if negb (ksize =? 0)%Z && (koff + ksize <=? getsize self)%Z then
            rbind (carve self ex koff ksize)
                  (fun b ex' => Ok (Some b, self) ex')
          else Ok (None, self) ex
      end
    else Ok (None, self) ex
  else if negb (get_kernel_status self) && negb (get_rootfs_status self)
          && Py.contains "rootfs offset: " desc
          && Py.contains "kernel offset: " desc then
    match trx_fields (Py.split "," desc)
            {| kernel_offset := 0; kernel_size := 0;
               rootfs_offset := 0; rootfs_size := 0 |} with
    | None => Exn ex
    | Some parsed =>
        let t := trx_sizes (getsize self) parsed in
        if trx_sensible (getsize self) t then
          rbind (carve self ex (kernel_offset t) (kernel_size t)) (fun _ ex1 =>
          rbind (carve self ex1 (rootfs_offset t) (rootfs_size t)) (fun _ ex2 =>
            let self' := update_status ex2 self in
            Ok (Some (get_status self'), self') ex2))
        else Ok (None, self) ex
    end
  else Ok (None, self) ex.

Fixpoint firmware_entries (self : ExtractionItem) (ex : Extractor)
    (es : list Entry) : result (option bool * ExtractionItem) :=
  match es with
  | [] => Ok (None, self) ex
  | entry :: es' =>
      rbind (firmware_entry self ex entry) (fun r ex' =>
        match r.1 with
        | Some b => Ok (Some b, r.2) ex'
        | None => firmware_entries r.2 ex' es'
        end)
  end.

Fixpoint firmware_modules (self : ExtractionItem) (ex : Extractor)
    (ms : list ScanModule) : result (option bool * ExtractionItem) :=
  match ms with
  | [] => Ok (None, self) ex
  | module :: ms' =>
      rbind (firmware_entries self ex (results module)) (fun r ex' =>
        match r.1 with
        | Some b => Ok (Some b, r.2) ex'
        | None => firmware_modules r.2 ex' ms'
        end)
  end.

Definition _check_firmware (self : ExtractionItem) (ex : Extractor)
  : result (bool * ExtractionItem) :=
  rbind (firmware_modules self ex
           (binwalk_scan L (default EmptyString (temp self)) (item self) (data self) Header))
        (fun r ex' => Ok (default false r.1, r.2) ex').

(** *** Phases 1 and 6: [_check_recursive] *)

(** The regular files of a directory, as [os.walk] lists them. *)
Fixpoint files_of (es : list (string * fsnode)) : list (string * list byte) :=
  match es with
  | [] => []
  | (name, File d) :: es' => (name, d) :: files_of es'
  | (_, Dir _) :: es' => files_of es'
  end.

(** [os.walk(top)], top-down: each directory with its files. *)
Fixpoint os_walk (root : string) (n : fsnode)
  : list (string * list (string * list byte)) :=
  match n with
  | File _ => []
  | Dir es =>
      (root, files_of es) ::
      (fix subdirs (l : list (string * fsnode)) :=
         match l with
         | [] => []
         | (name, child) :: l' =>
             (os_walk (Py.path_join root name) child ++ subdirs l')%list
         end) es
  end.

Definition ORIGINAL_NAME : string := "original file name:".

(** The [for stmt in desc.split(',')] loop; [None] is the [IndexError]
    of taking field 1 of [stmt] split at the double quote. *)
Fixpoint original_name (stmts : list string) (orig : option string)
  : option (option string) :=
  match stmts with
  | [] => Some orig
  | stmt :: rest =>
      if Py.contains ORIGINAL_NAME stmt then
        match Py.index (Py.split "034"%char stmt) 1 with
        | Some x => original_name rest (Some x)
        | None => None
        end
      else original_name rest orig
  end.

(** The child queue of one walked directory: both sorts, then the
    restored original name first. *)
Definition order_files (desc : option string) (files : list string)
  : option (list string) :=
  let files := sort_by len_le (sort_by str_le files) in
  match desc with
  | Some d =>
      if negb (String.eqb d EmptyString) && Py.contains ORIGINAL_NAME d then
        orig ← original_name (Py.split "," d) None;
        match orig with
        | Some o =>
            if negb (String.eqb o EmptyString) && Py.mem o files
            then Some (o :: Py.remove o files)
            else Some files
        | None => Some files
        end
      else Some files
  | None => Some files
  end.

(** [open(os.path.join(root, filename))] while hashing the new item. *)
Fixpoint read_file (fdata : list (string * list byte)) (name : string)
  : option (list byte) :=
  match fdata with
  | [] => None
  | (n, d) :: rest => if String.eqb n name then Some d else read_file rest name
  end.

(** [for filename in files]: the result is [Some b] for [return b], or
    [None] with the counter when the loop ran to its end. *)
Fixpoint walk_files (self : ExtractionItem) (ex : Extractor) (root : string)
    (fdata : list (string * list byte)) (files : list string) (count : nat)
  : result (option bool * nat * ExtractionItem) :=
  match files with
  | [] => Ok (None, count, self) ex
  | filename :: rest =>
      if (RECURSION_BREADTH <? count)%nat then
        Ok (Some true, count, set_terminate true self) ex
      else
        match read_file fdata filename with
        | None => Exn ex
        | Some d =>
            let path := Py.path_join root filename in
            rbind (rec (new_item ex path d (S (depth self)))
                       (log (EvNew Walked path (S (depth self))) ex))
              (fun done ex' =>
                 if done then
                   let self' := update_status ex' self in
                   if get_status self' then Ok (Some true, count, self') ex'
                   else walk_files self' ex' root fdata rest (S count)
                 else walk_files self ex' root fdata rest (S count))
        end
  end.

(** [for root, _, files in os.walk(...)] *)
Fixpoint walk_dirs (self : ExtractionItem) (ex : Extractor)
    (desc : option string)
    (dirs : list (string * list (string * list byte))) (count : nat)
  : result (option bool * nat * ExtractionItem) :=
  match dirs with
  | [] => Ok (None, count, self) ex
  | (root, fdata) :: dirs' =>
      match order_files desc (map fst fdata) with
      | None => Exn ex
      | Some files =>
          rbind (walk_files self ex root fdata files count) (fun r ex' =>
            match r.1.1 with
            | Some b => Ok r ex'
            | None => walk_dirs r.2 ex' desc dirs' r.1.2
            end)
      end
  end.

(** [for entry in module.results: desc = entry.description; break] *)
Definition first_description (desc : option string) (es : list Entry)
  : option string :=
  match es with
  | entry :: _ => Some (description entry)
  | [] => desc
  end.

(** [for module in binwalk.scan(...)]; [desc] survives from one module
    to the next. *)
Fixpoint recursive_modules (self : ExtractionItem) (ex : Extractor)
    (desc : option string) (ms : list ScanModule)
  : result (bool * ExtractionItem) :=
  match ms with
  | [] => Ok (false, self) ex
  | module :: ms' =>
      let desc' := first_description desc (results module) in
      match directory module with
      | Some (dir, tree) =>
          let unix := io_find_rootfs dir tree true in
          if unix.1 then Ok (true, self) (archive_rootfs unix.2 ex)
          else
            rbind (walk_dirs self ex desc' (os_walk dir tree) 0) (fun r ex' =>
              match r.1.1 with
              | Some b => Ok (b, r.2) ex'
              | None => recursive_modules r.2 ex' desc' ms'
              end)
      | None => recursive_modules self ex desc' ms'
      end
  end.

Definition _check_recursive (fmt : category) (self : ExtractionItem)
    (ex : Extractor) : result (bool * ExtractionItem) :=
  recursive_modules self ex None
    (binwalk_scan L (default EmptyString (temp self)) (item self) (data self) fmt).

Definition _check_archive := _check_recursive Archive.
Definition _check_compressed := _check_recursive Compressed.

(** *** [ExtractionItem.extract] *)

Definition analyses
  : list (ExtractionItem -> Extractor -> result (bool * ExtractionItem)) :=
  [_check_archive; _check_encryption; _check_firmware;
   _check_kernel; _check_rootfs; _check_compressed].

(** The [for analysis in [...]] loop inside [try]; [except Exception]
    falls through to the final [return False]. *)
Fixpoint cascade
    (phases : list (ExtractionItem -> Extractor -> result (bool * ExtractionItem)))
    (self : ExtractionItem) (ex : Extractor) : result bool :=
  match phases with
  | [] => Ok false ex
  | analysis :: rest =>
      match analysis self ex with
      | Ok (true, self') ex' =>
          let self'' := update_status ex' self' in
          if get_status self'' then Ok true ex' else cascade rest self'' ex'
      | Ok (false, self') ex' => cascade rest self' ex'
      | Exn ex' => Ok false ex'
      | OutOfFuel ex' => OutOfFuel ex'
      end
  end.

Definition extract_body (self : ExtractionItem) (ex : Extractor)
  : result bool :=
  if get_status self then Ok true ex
  else if (RECURSION_DEPTH <? depth self)%nat then Ok (get_status self) ex
  else if bool_decide (checksum self ∈ visited ex) then Ok (get_status self) ex
  else
    let ex1 := visited_add (checksum self) ex in
    if _check_blacklist self then Ok (get_status self) ex1
    else
      let '(tmp, ex2) := mkdtemp ex1 in
      cascade analyses (set_temp (Some tmp) self)
              (log (EvScratch tmp (depth self)) ex2).

End Phases.

(** [extract] with its recursion unrolled [fuel] times. *)
Fixpoint extract (fuel : nat) (self : ExtractionItem) (ex : Extractor)
  : result bool :=
  match fuel with
  | O => OutOfFuel ex
  | S fuel' => extract_body (extract fuel') self ex
  end.

(** *** [Extractor.extract] *)

(** [for item in self._list: ExtractionItem(self, item, 0).extract()] *)
Fixpoint extract_items (fuel : nat) (seeds : list (string * list byte))
    (ex : Extractor) : result unit :=
  match seeds with
  | [] => Ok tt ex
  | (path, d) :: rest =>
      rbind (extract fuel (new_item ex path d 0) (log (EvNew Seed path 0) ex))
            (fun _ ex' => extract_items fuel rest ex')
  end.

(** The work list: every file below an input directory, or the one input
    file; [None] is a path that cannot be read. *)
Definition input_list (input : string) (n : option fsnode)
  : list (string * list byte) :=
  match n with
  | Some (Dir es) =>
      flat_map (fun rf => map (fun f => (Py.path_join rf.1 f.1, f.2)) rf.2)
               (os_walk input (Dir es))
  | Some (File d) => [(input, d)]
  | None => []
  end.

Definition Extractor_extract (fuel : nat) (input : string)
    (n : option fsnode) (ex : Extractor) : result unit :=
  extract_items fuel (input_list input n) ex.

End Engine.

(** ** Vocabulary of the specification *)

(** The immediate subdirectories of a directory, by name. *)
Definition subdirs (es : list (string * fsnode)) : list string :=
  map fst (filter (fun e => isdir e.2) es).

(** The immediate subdirectories that carry a UNIX name. *)
Definition unix_subdirs (es : list (string * fsnode)) : list (string * fsnode) :=
  filter (fun e => Py.mem e.1 UNIX_DIRS && isdir e.2) es.

(** A UNIX root: at least [UNIX_THRESHOLD] such subdirectories. *)
Definition unix_root (es : list (string * fsnode)) : Prop :=
  UNIX_THRESHOLD <= length (unix_subdirs es).

(** A chain [a/b/.../n] of directories with one entry each. *)
Fixpoint wrap (chain : list string) (n : fsnode) : fsnode :=
  match chain with
  | [] => n
  | a :: chain' => Dir [(a, wrap chain' n)]
  end.

(** Shorter names first, names of one length in lexicographic order. *)
Definition len_lex (a b : string) : Prop :=
  String.length a < String.length b
  \/ (String.length a = String.length b /\ str_le a b = true).

(** The double quote character, and a quoted name as binwalk prints it. *)
Definition dquote : string := String "034"%char EmptyString.
Definition quoted (x : string) : string := dquote ++ x ++ dquote.

(** The claim on the restored original name, in the words of the
    specification: whenever a finding of the module mentions
    [original file name: "X"] and [X] is a child, [X] heads the queue. *)
Definition original_name_first (es : list Entry)
    (files : list string) : Prop :=
  forall X e queue,
    e ∈ es ->
    Py.contains ("original file name: " ++ quoted X) (description e) = true ->
    X ∈ files ->
    order_files (first_description None es) files = Some queue ->
    head queue = Some X.

(** Two gzip findings as binwalk words them. *)
Definition gzip_named (x : string) : Entry :=
  {| description := "gzip compressed data, has original file name: "
                    ++ quoted x ++ ", from Unix";
     offset := 0 |}.

(** The characters of a string. *)
Fixpoint chars (s : string) : list ascii :=
  match s with
  | EmptyString => []
  | String c s' => c :: chars s'
  end.

(** The media types the MIME patterns of the blacklist start with. *)
Definition BLACKLISTED_MEDIA : list string :=
  ["application"; "image"; "text"; "video"].

(** A MIME type as libmagic answers it under [MAGIC_MIME_TYPE]: a media
    type and a subtype around the one slash.  The media types libmagic
    knows ([application], [audio], [image], [inode], [text], [video], ...)
    are words of their own: none is a longer word that ends in one of
    [BLACKLISTED_MEDIA]. *)
Definition mime_type (m : string) : Prop :=
  exists ty sub,
    m = ty ++ "/" ++ sub
    /\ ("/"%char ∉ chars ty) /\ ("/"%char ∉ chars sub)
    /\ forall T, T ∈ BLACKLISTED_MEDIA -> Py.endswith T ty = true -> ty = T.

(** Media types: those of the IANA registry, and some that libmagic adds
    for file system objects and a few formats. *)
Definition MEDIA_TYPES : list string :=
  ["application"; "audio"; "example"; "font"; "haptics"; "image"; "message";
   "model"; "multipart"; "text"; "video"; "inode"; "chemical"; "x-epoc"].

(** The blacklist as the specification words it: the MIME type is tested
    for a prefix. *)
Definition blacklist_by_prefix (mime ftype path : string) : bool :=
  existsb (fun s => Py.startswith s mime) MIME_BLACKLIST
  || Py.any_in TYPE_BLACKLIST ftype
  || Py.endswith ".dmg" path.

(** ** Libraries for concrete runs *)

Definition bytes (s : string) : list byte := list_byte_of_string s.

(** A stand-in for the digest that keeps distinct files apart. *)
Definition plain_digest (d : list byte) : string := string_of_list_byte d.

Definition tmp_names (n : nat) : string := "tmp" ++ pretty n.

(** libmagic answering [mime] and [ftype] for every file, binwalk
    answering [scan]. *)
Definition fixed_libs (mime ftype : string)
    (scan : string -> list byte -> category -> list ScanModule) : Libraries :=
  {| md5 := plain_digest;
     magic := fun _ _ m => if m then mime else ftype;
     binwalk_scan := fun cwd _ d c => scan cwd d c;
     tmpname := tmp_names |}.

Definition no_findings (cwd : string) (d : list byte) (c : category)
  : list ScanModule := [].

Definition octet_libs := fixed_libs "application/octet-stream" "data".

(** A job with output directory [/out], nothing extracted so far. *)
Definition fresh_job : Extractor :=
  Extractor_init (Some "/out") true true None None.

(** The scratch directory of an item under analysis. *)
Definition in_scratch (scratch : string) (self : ExtractionItem) : ExtractionItem :=
  set_temp (Some scratch) self.

(** A TRX finding with both offsets and no lengths, kernel at offset 0. *)
Definition trx_offsets_only : Entry :=
  {| description := "TRX firmware header, kernel offset: 0x0, rootfs offset: 0x100";
     offset := 0 |}.

(** The child the uImage branch is to build for a payload of [N] bytes: the
    slice at [offset + 64], in a new file of the scratch directory, at the
    depth of its parent; and the job state it is handed. *)
Definition uimage_child (L : Libraries) (self : ExtractionItem) (ex : Extractor)
    (e : Entry) (N : Z) : ExtractionItem * Extractor :=
  let tmp_path :=
    Py.path_join (default gettempdir (temp self)) (tmpname L (tmp_count ex)) in
  (new_item L (bump_tmp ex) tmp_path
     (take (Z.to_nat N) (drop (Z.to_nat (offset e + 64)) (data self)))
     (depth self),
   log (EvNew Carved tmp_path (depth self)) (bump_tmp ex)).

(** "carve, wrap as a child at the same depth, recurse, return the child's
    completion status". *)
Definition uimage_carved (L : Libraries) (self : ExtractionItem) (ex : Extractor)
    (e : Entry) (N : Z) : Prop :=
  forall rec : ExtractionItem -> Extractor -> result bool,
    firmware_entry L rec self ex e
    = rbind (rec (uimage_child L self ex e N).1 (uimage_child L self ex e N).2)
            (fun b ex' => Ok (Some b, self) ex').

(** A finding that declares its image size to be [N]. *)
Definition declares_size (e : Entry) (N : Z) : Prop :=
  (exists stmt, stmt ∈ Py.split "," (description e)
                /\ Py.contains "image size:" stmt = true)
  /\ uimage_size (Py.split "," (description e)) 0 = Some N.

(** The uImage claim in the words of the specification, for every declared
    size. *)
Definition uimage_claim (L : Libraries) : Prop :=
  forall (self : ExtractionItem) (ex : Extractor) (e : Entry) (N : Z),
    Py.contains "uImage header" (description e) = true ->
    Py.contains "OS Kernel Image" (description e) = true ->
    declares_size e N ->
    get_kernel_status self = false ->
    (0 <= offset e)%Z ->
    (offset e + 64 + N <= getsize self)%Z ->
    uimage_carved L self ex e N.

Definition uimage_entry (size : string) : Entry :=
  {| description := "uImage header, header size: 64 bytes, image size: " ++ size
                    ++ " bytes, OS: Linux, image type: OS Kernel Image";
     offset := 0 |}.

(** binwalk reporting one module with the findings [es] for the category
    [c], and nothing for the others. *)
Definition findings_for (c : category) (es : list Entry)
    (cwd : string) (d : list byte) (c' : category) : list ScanModule :=
  match c, c' with
  | Header, Header | Kernel, Kernel | Filesystem, Filesystem
  | Archive, Archive | Compressed, Compressed =>
      [{| results := es; directory := None |}]
  | _, _ => []
  end.

Definition linux_version : Entry :=
  {| description := "Linux kernel version 2.6.36"; offset := 1024 |}.
Definition vxworks_version : Entry :=
  {| description := "VxWorks WIND kernel version 2.6"; offset := 2048 |}.
Definition lzma_data : Entry :=
  {| description := "LZMA compressed data, dictionary size: 8388608 bytes";
     offset := 64 |}.

(** The kernel claim in the words of the specification, for every
    [kernel version] finding of the scan that mentions [Linux]: with an
    output directory the file of the node is copied. *)
Definition kernel_claim (L : Libraries) : Prop :=
  forall (self : ExtractionItem) (ex : Extractor) (out : string)
         (m : ScanModule) (e : Entry),
    get_kernel_status self = false ->
    output_dir ex = Some out ->
    m ∈ binwalk_scan L (default EmptyString (temp self)) (item self) (data self)
          Kernel ->
    e ∈ results m ->
    Py.contains "kernel version" (description e) = true ->
    Py.contains "Linux" (description e) = true ->
    _check_kernel L self ex = Ok (true, self) (write_kernel (data self) ex).

(** What the cascade does with the result of the phase it runs next. *)
Definition cascade_next
    (next : ExtractionItem -> Extractor -> result (bool * ExtractionItem))
    (rest : list (ExtractionItem -> Extractor -> result (bool * ExtractionItem)))
    (self : ExtractionItem) (ex : Extractor) : result bool :=
  match next self ex with
  | Ok (true, self') ex' =>
      if get_status (update_status ex' self') then Ok true ex'
      else cascade rest (update_status ex' self') ex'
  | Ok (false, self') ex' => cascade rest self' ex'
  | Exn ex' => Ok false ex'
  | OutOfFuel ex' => OutOfFuel ex'
  end.

(** ** Atomic effects on the job

    Every change [extract] makes to the job is one of these, made by an
    item of depth [d]. *)
Inductive prim (d : nat) : Extractor -> Extractor -> Prop :=
| prim_visit (c : string) (ex : Extractor) :
    c ∉ visited ex -> prim d ex (visited_add c ex)
| prim_tmp (ex : Extractor) :
    prim d ex (bump_tmp ex)
| prim_scratch (p : string) (ex : Extractor) :
    prim d ex (log (EvScratch p d) ex)
| prim_carved (p : string) (ex : Extractor) :
    prim d ex (log (EvNew Carved p d) ex)
| prim_walked (p : string) (ex : Extractor) :
    prim d ex (log (EvNew Walked p (S d)) ex)
| prim_kernel (bs : list byte) (ex : Extractor) :
    prim d ex (write_kernel bs ex)
| prim_no_kernel (ex : Extractor) :
    prim d ex (set_do_kernel false ex)
| prim_rootfs (root : string) (ex : Extractor) :
    prim d ex (archive_rootfs root ex).

(** An effect of an item at depth [d] or below it in the recursion; items
    deeper than [RECURSION_DEPTH] have none. *)
Definition step (d : nat) (a b : Extractor) : Prop :=
  exists d', d <= d' /\ d' <= RECURSION_DEPTH /\ prim d' a b.

Definition reach (d : nat) : Extractor -> Extractor -> Prop :=
  rtc (step d).

(** What the trace may gain while an item of depth [d] is extracted. *)
Definition event_below (d : nat) (e : event) : Prop :=
  match e with
  | EvNew Seed _ _ => False
  | EvNew Carved _ d' => d <= d' /\ d' <= RECURSION_DEPTH
  | EvNew Walked _ d' => d < d' /\ d' <= S RECURSION_DEPTH
  | EvVisit _ => True
  | EvScratch _ d' => d <= d' /\ d' <= RECURSION_DEPTH
  end.

(** The children a container at depth [d] built itself while walking. *)
Definition is_walked_at (d : nat) (e : event) : bool :=
  match e with
  | EvNew Walked _ d' => (d' =? S d)%nat
  | _ => false
  end.

Definition children_walked (d : nat) (new : list event) : nat :=
  length (filter (fun e => is_walked_at d e) new).

(** The digests inserted into the visited set, latest first. *)
Fixpoint visits (tr : list event) : list string :=
  match tr with
  | [] => []
  | EvVisit c :: tr' => c :: visits tr'
  | _ :: tr' => visits tr'
  end.

(** The visited set agrees with the trace, and no digest went in twice. *)
Definition visited_consistent (ex : Extractor) : Prop :=
  NoDup (visits (trace ex)) /\ forall c, c ∈ visits (trace ex) -> c ∈ visited ex.

(** The breadth claim with the bound read as [RECURSION_BREADTH] itself:
    no container has more than 5 of its files turned into items. *)
Definition breadth_claim (L : Libraries) : Prop :=
  forall (fuel : nat) (self : ExtractionItem) (ex : Extractor)
         (desc : option string) (dir : string) (tree : fsnode) (new : list event),
    trace (final (walk_dirs L (extract L fuel) self ex desc (os_walk dir tree) 0))
    = (new ++ trace ex)%list ->
    children_walked (depth self) new <= RECURSION_BREADTH.

(** A container with eight unrelated small files. *)
Definition eight_files : fsnode :=
  Dir [("g", File (bytes "6")); ("a", File (bytes "0")); ("bb", File (bytes "1"));
       ("c", File (bytes "2")); ("d", File (bytes "3")); ("e", File (bytes "4"));
       ("f", File (bytes "5")); ("h", File (bytes "7"))].

(** binwalk unpacking the archive [TAR] into [eight_files]. *)
Definition tar_scan (cwd : string) (d : list byte) (c : category)
  : list ScanModule :=
  match c with
  | Archive =>
      if bytes_eqb d (bytes "TAR") then
        [{| results := [{| description := "POSIX tar archive"; offset := 0 |}];
            directory := Some (Py.path_join cwd "_fw.tar.extracted", eight_files) |}]
      else []
  | _ => []
  end.

(** The same file under analysis: a phase may change the status flags and
    [terminate] of an item, and nothing else. *)
Definition same_file (a b : ExtractionItem) : Prop :=
  depth b = depth a /\ item b = item a /\ data b = data a
  /\ checksum b = checksum a /\ temp b = temp a.

(** A phase result is fine when the state it leaves was reached by effects
    at the depth of the item, and the item it hands on is the same file. *)
Definition phase_ok {B} (self : ExtractionItem) (ex : Extractor)
    (r : result (B * ExtractionItem)) : Prop :=
  reach (depth self) ex (final r) /\
  match r with Ok (_, self') _ => same_file self self' | _ => True end.

(** The file loop entered with [count] children behind it: what it adds
    to the trace holds at most [6 - count] children of this container,
    the counter it hands on counts them, and the item keeps its depth. *)
Definition loop_counted (self : ExtractionItem) (ex : Extractor) (count : nat)
    (r : result (option bool * nat * ExtractionItem)) : Prop :=
  exists new,
    trace (final r) = (new ++ trace ex)%list
    /\ children_walked (depth self) new <= S RECURSION_BREADTH - count
    /\ match r with
       | Ok (None, count', self') _ =>
           count' = count + children_walked (depth self) new
           /\ depth self' = depth self
       | Ok (Some _, _, self') _ => depth self' = depth self
       | _ => True
       end.

(** The same loop and the [terminate] flag: the loop hands the flag on as
    it got it, except when it returns having met a file with the counter
    above [RECURSION_BREADTH]. *)
Definition loop_exact (self : ExtractionItem) (ex : Extractor) (count : nat)
    (r : result (option bool * nat * ExtractionItem)) : Prop :=
  exists new,
    trace (final r) = (new ++ trace ex)%list
    /\ match r with
       | Ok (None, count', self') _ =>
           count' = count + children_walked (depth self) new
           /\ depth self' = depth self
           /\ terminate self' = terminate self
       | Ok (Some _, _, self') _ =>
           depth self' = depth self
           /\ (terminate self' = terminate self
               \/ RECURSION_BREADTH < count + children_walked (depth self) new)
       | _ => True
       end.

(** Scratch directories belong to items within the depth limit. *)
Definition scratch_depth_ok (e : event) : Prop :=
  match e with EvScratch _ d => d <= RECURSION_DEPTH | _ => True end.

(** ** Items and libraries of the concrete runs *)

Definition demo_libs : Libraries := octet_libs no_findings.

(** A uImage: 64 header bytes, then an 8-byte payload; binwalk reports an
    LZMA stream and then the uImage header. *)
Definition uimage_libs : Libraries :=
  octet_libs (findings_for Header [lzma_data; uimage_entry "8"]).
Definition uimage_firmware : ExtractionItem :=
  in_scratch "/tmp/tmp0"
    (new_item uimage_libs fresh_job "/in/fw.bin"
       (repeat x00 64 ++ bytes "KERNEL!!") 0).

(** A uImage header alone that declares an empty payload. *)
Definition empty_uimage : ExtractionItem :=
  in_scratch "/tmp/tmp0" (new_item demo_libs fresh_job "/in/fw.bin" (repeat x00 64) 0).

(** A TRX image of 512 bytes. *)
Definition trx_firmware : ExtractionItem :=
  in_scratch "/tmp/tmp0" (new_item demo_libs fresh_job "/in/fw.trx" (repeat x00 512) 0).

(** A kernel image under analysis, and two answers of the kernel scan. *)
Definition vmlinux : ExtractionItem :=
  in_scratch "/tmp/tmp0" (new_item demo_libs fresh_job "/in/vmlinux" (bytes "LINUX") 0).
Definition linux_libs : Libraries :=
  octet_libs (findings_for Kernel [lzma_data; linux_version]).
Definition vxworks_libs : Libraries :=
  octet_libs (findings_for Kernel [lzma_data; vxworks_version; linux_version]).
Definition job_without_output : Extractor :=
  Extractor_init None true true None None.

(** The archive of [eight_files] under analysis. *)
Definition tar_libs : Libraries := octet_libs tar_scan.
Definition tar_firmware : ExtractionItem :=
  in_scratch "/tmp/tmp0" (new_item tar_libs fresh_job "/in/fw.tar" (bytes "TAR") 0).

(** The paths of the children a walk built, in the order it built them
    (the trace has the latest event first). *)
Definition walked_paths (tr : list event) : list string :=
  rev (omap (fun e => match e with
                      | EvNew Walked p _ => Some p
                      | _ => None
                      end) tr).

(** binwalk unpacking the gzip member [GZ], whose header restores the file
    name [a,b], into a directory with that file and the file [zz]. *)
Definition comma_scan (cwd : string) (d : list byte) (c : category)
  : list ScanModule :=
  match c with
  | Compressed =>
      if bytes_eqb d (bytes "GZ") then
        [{| results := [gzip_named "a,b"];
            directory := Some (Py.path_join cwd "_fw.gz.extracted",
                               Dir [("a,b", File (bytes "1"));
                                    ("zz", File (bytes "2"))]) |}]
      else []
  | _ => []
  end.
Definition comma_libs : Libraries := octet_libs comma_scan.
Definition gz_firmware : ExtractionItem :=
  in_scratch "/tmp/tmp0" (new_item comma_libs fresh_job "/in/fw.gz" (bytes "GZ") 0).

(** A disk image skipped for its suffix, and the job after it. *)
Definition disk_image : ExtractionItem :=
  new_item demo_libs fresh_job "/in/disk.dmg" (bytes "FW") 0.
Definition job_after_disk_image : Extractor :=
  final (extract demo_libs 1 disk_image fresh_job).

(** ** Fuel *)

(** A result other than the exhaustion of the fuel. *)
Definition returned {A} (r : result A) : Prop :=
  match r with OutOfFuel _ => False | _ => True end.

(** [rec'] answers as [rec] wherever [rec] returned: it has more fuel. *)
Definition refines (rec rec' : ExtractionItem -> Extractor -> result bool) : Prop :=
  forall it ex, returned (rec it ex) -> rec' it ex = rec it ex.

(** A computation whose result, once it returned, no longer depends on the
    fuel of the calls it makes. *)
Definition steady {A}
    (c : (ExtractionItem -> Extractor -> result bool) -> result A) : Prop :=
  forall rec rec', refines rec rec' -> returned (c rec) -> c rec' = c rec.

(** A computation that returns when [extract] is given enough fuel. *)
Definition halts {A} (L : Libraries)
    (c : (ExtractionItem -> Extractor -> result bool) -> result A) : Prop :=
  exists fuel, returned (c (extract L fuel)).

(** The six analyses, each as a function of the recursive call. *)
Definition analyses_of (L : Libraries)
  : list ((ExtractionItem -> Extractor -> result bool) ->
          ExtractionItem -> Extractor -> result (bool * ExtractionItem)) :=
  [fun rec => _check_archive L rec; fun _ => _check_encryption;
   fun rec => _check_firmware L rec; fun _ => _check_kernel L;
   fun _ => _check_rootfs L; fun rec => _check_compressed L rec].

(** An item under analysis: the same file as [self0], whose digest is in
    the visited set. *)
Definition under_analysis (self0 s : ExtractionItem) (ex : Extractor) : Prop :=
  same_file self0 s /\ checksum self0 ∈ visited ex.

(** ** More of the source: [io_md5], [str.join] *)

Definition MD5_BLOCKSIZE : nat := Z.to_nat 65536.

(** The read loop of [Extractor.io_md5]: [rest] is the part of the file
    beyond the read position, [hashed] the bytes fed to [hasher.update] so
    far.  Every round but the last consumes a byte, so [fuel] above the
    length of the file is never used up. *)
Fixpoint io_md5_loop (fuel blocksize : nat) (rest hashed : list byte)
  : option (list byte) :=
  match fuel with
  | O => None
  | S fuel' =>
      match take blocksize rest with
      | [] => Some hashed
      | buf => io_md5_loop fuel' blocksize (drop blocksize rest) (hashed ++ buf)
      end
  end.

(** [Extractor.io_md5(target)] for a file holding [d]: the digest of the
    bytes the loop fed to the hasher. *)
Definition io_md5 (L : Libraries) (d : list byte) : option string :=
  md5 L <$> io_md5_loop (S (length d)) MD5_BLOCKSIZE d [].

(** [sep.join(l)] *)
Fixpoint py_join (sep : string) (l : list string) : string :=
  match l with
  | [] => EmptyString
  | [x] => x
  | x :: l' => x ++ sep ++ py_join sep l'
  end.

(** The contents of the regular files below a node, depth first. *)
Fixpoint leaves (n : fsnode) : list (list byte) :=
  match n with
  | File d => [d]
  | Dir es =>
      (fix go (l : list (string * fsnode)) : list (list byte) :=
         match l with
         | [] => []
         | (_, child) :: l' => (leaves child ++ go l')%list
         end) es
  end.

(** The field of a description where reading the restored name raises
    [IndexError]: it has the marker and no double quote. *)
Definition unquoted_name_field (stmt : string) : Prop :=
  Py.contains ORIGINAL_NAME stmt = true /\ "034"%char ∉ chars stmt.

(** The contents of the files a walk lists. *)
Definition walk_data (w : list (string * list (string * list byte)))
  : list (list byte) :=
  flat_map (fun rf => map snd rf.2) w.

(** The seeds among the events. *)
Definition is_seed (e : event) : bool :=
  match e with EvNew Seed _ _ => true | _ => false end.

(** Nothing the job has achieved is undone on the way from [a] to [b]: the
    output directory is the same, a flag that is off stays off, an output
    file that exists stays, and a status that [update_status] computes as
    done is computed as done afterwards. *)
Definition never_undone (a b : Extractor) : Prop :=
  output_dir b = output_dir a
  /\ (do_kernel a = false -> do_kernel b = false)
  /\ (do_rootfs a = false -> do_rootfs b = false)
  /\ (isfile (kernel_file a) = true -> isfile (kernel_file b) = true)
  /\ (isfile (rootfs_file a) = true -> isfile (rootfs_file b) = true)
  /\ (forall it it', get_kernel_status (update_status a it) = true ->
                     get_kernel_status (update_status b it') = true)
  /\ (forall it it', get_rootfs_status (update_status a it) = true ->
                     get_rootfs_status (update_status b it') = true).

(** Between [ex] and [ex'] at least [RECURSION_BREADTH + 1] files of
    containers of [self] were built as its children. *)
Definition breadth_reached (self : ExtractionItem) (ex ex' : Extractor) : Prop :=
  exists new,
    trace ex' = (new ++ trace ex)%list
    /\ RECURSION_BREADTH < children_walked (depth self) new.

(** A phase hands the [terminate] flag on as it got it, unless the breadth
    limit was reached. *)
Definition flag_kept {B} (self : ExtractionItem) (ex : Extractor)
    (r : result (B * ExtractionItem)) : Prop :=
  match r with
  | Ok (_, self') ex' =>
      terminate self' = terminate self \/ breadth_reached self ex ex'
  | _ => True
  end.



(** A field [image size:] without a digit, on which [int] raises. *)
Definition sizeless_field (stmt : string) : Prop :=
  Py.contains "image size:" stmt = true /\ Py.keep_digits stmt = EmptyString.


(** binwalk extracting a UNIX root from a file, for one category. *)
Definition rootfs_tree : fsnode :=
  Dir [("bin", Dir []); ("etc", Dir []); ("lib", Dir []); ("usr", Dir [])].
Definition root_scan (c : category) (cwd : string) (d : list byte)
    (c' : category) : list ScanModule :=
  match c, c' with
  | Filesystem, Filesystem | Archive, Archive | Compressed, Compressed =>
      [{| results := []; directory := None |};
       {| results := [{| description := "Squashfs filesystem"; offset := 0 |}];
          directory := Some (Py.path_join cwd "_fw.extracted", rootfs_tree) |}]
  | _, _ => []
  end.
Definition squashfs : ExtractionItem :=
  in_scratch "/tmp/tmp0" (new_item demo_libs fresh_job "/in/fw.sqfs" (bytes "hsqs") 0).

(** ** A finer account of the effects *)

(** An item the kernel phase accepts: its kernel status is not done and the
    first module of its kernel scan has a finding with [kernel version] and
    [Linux]. *)
Definition linux_kernel (L : Libraries) (self : ExtractionItem) : Prop :=
  get_kernel_status self = false
  /\ exists m ms e,
       binwalk_scan L (default EmptyString (temp self)) (item self) (data self)
         Kernel = m :: ms
       /\ e ∈ results m
       /\ Py.contains "kernel version" (description e) = true
       /\ Py.contains "Linux" (description e) = true.

(** A directory [root] that [io_find_rootfs] found in what a scan of some
    item extracted. *)
Definition extracted_root (L : Libraries) (root : string) : Prop :=
  exists self fmt m dir tree,
    m ∈ binwalk_scan L (default EmptyString (temp self)) (item self) (data self) fmt
    /\ directory m = Some (dir, tree)
    /\ io_find_rootfs dir tree true = (true, root).

(** The effects of [extract] on the job, each with the condition the code
    puts on it: a digest enters the visited set when it is not in it, alone
    (the file is blacklisted) or together with the scratch directory of its
    cascade; an output is written only with an output directory, a flag is
    cleared only without one. *)
Inductive effect (L : Libraries) : Extractor -> Extractor -> Prop :=
| effect_skip (c : string) (ex : Extractor) :
    c ∉ visited ex -> effect L ex (visited_add c ex)
| effect_open (c p : string) (d : nat) (ex : Extractor) :
    c ∉ visited ex ->
    effect L ex (log (EvScratch p d) (bump_tmp (visited_add c ex)))
| effect_tmp (ex : Extractor) :
    effect L ex (bump_tmp ex)
| effect_new (o : origin) (p : string) (d : nat) (ex : Extractor) :
    effect L ex (log (EvNew o p d) ex)
| effect_kernel (self : ExtractionItem) (ex : Extractor) :
    isfile (output_dir ex) = true -> linux_kernel L self ->
    effect L ex (write_kernel (data self) ex)
| effect_no_kernel (ex : Extractor) :
    output_dir ex = None -> effect L ex (set_do_kernel false ex)
| effect_rootfs (root : string) (ex : Extractor) :
    isfile (output_dir ex) = true -> extracted_root L root ->
    effect L ex (write_rootfs root ex)
| effect_no_rootfs (ex : Extractor) :
    output_dir ex = None -> effect L ex (set_do_rootfs false ex).

Definition run (L : Libraries) : Extractor -> Extractor -> Prop :=
  rtc (effect L).

(** Between [a] and [b] the outputs follow the output directory: it does
    not change; without one no output file changes; with one no flag
    changes. *)
Definition outputs_follow_dir (a b : Extractor) : Prop :=
  output_dir b = output_dir a
  /\ (output_dir a = None ->
      kernel_file b = kernel_file a /\ rootfs_file b = rootfs_file a)
  /\ (isfile (output_dir a) = true ->
      do_kernel b = do_kernel a /\ do_rootfs b = do_rootfs a).

(** The kernel file of [b] is the one of [a] or the file of an accepted
    item. *)
Definition kernel_origin (L : Libraries) (a b : Extractor) : Prop :=
  kernel_file b = kernel_file a
  \/ exists self, linux_kernel L self /\ kernel_file b = Some (data self).

(** The archived root of [b] is the one of [a] or an extracted root. *)
Definition rootfs_origin (L : Libraries) (a b : Extractor) : Prop :=
  rootfs_file b = rootfs_file a
  \/ exists root, extracted_root L root /\ rootfs_file b = Some root.

(** The scratch directories made. *)
Fixpoint scratches (tr : list event) : nat :=
  match tr with
  | [] => 0
  | EvScratch _ _ :: tr' => S (scratches tr')
  | _ :: tr' => scratches tr'
  end.

(** From [a] to [b] every digest was inserted once, was new, and there are
    at most as many scratch directories as inserted digests. *)
Definition once_per_digest (a b : Extractor) : Prop :=
  exists new,
    trace b = (new ++ trace a)%list
    /\ NoDup (visits new)
    /\ (forall c, c ∈ visits new -> c ∉ visited a)
    /\ visited b = list_to_set (visits new) ∪ visited a
    /\ scratches new <= length (visits new).

(** ** Items and libraries of further concrete runs *)

(** binwalk reporting a uImage header whose size field has no digit. *)
Definition sizeless_libs : Libraries :=
  octet_libs (findings_for Header [lzma_data; uimage_entry "unknown"]).

(** The job with every seed of the work list logged and nothing else
    done. *)
Definition seeds_logged (seeds : list (string * list byte)) (ex : Extractor)
  : Extractor :=
  fold_left (fun e seed => log (EvNew Seed seed.1 0) e) seeds ex.

(** A job whose output directory already holds a kernel and an archived
    root filesystem. *)
Definition finished_job : Extractor :=
  Extractor_init (Some "/out") true true (Some (bytes "LINUX")) (Some "/tmp/root").

(** The job after the file [/in/a] with content [FW] was extracted. *)
Definition job_after_first : Extractor :=
  final (extract demo_libs 1 (new_item demo_libs fresh_job "/in/a" (bytes "FW") 0)
           (log (EvNew Seed "/in/a" 0) fresh_job)).

(** * Properties *)

(** ** Python primitives *)

Lemma mem_true (x : string) (l : list string) : Py.mem x l = true <-> x ∈ l.
Proof.
  unfold Py.mem. rewrite existsb_exists. split.
  - intros (y & Hy & Heq). apply String.eqb_eq in Heq. subst.
    by apply list_elem_of_In.
  - intros Hin. exists x. split; [by apply list_elem_of_In|apply String.eqb_refl].
Qed.

(** ** The root detector *)

Lemma fold_count_filter {A} (q : A -> bool) (l : list A) (k : nat) :
  fold_left (fun count e => if q e then S count else count) l k
  = k + length (filter (fun e => q e) l).
Proof.
  revert k. induction l as [|e l IH]; intros k; cbn [fold_left]; [simpl; lia|].
  rewrite IH, filter_cons.
  case_decide as Hd; destruct (q e); try done; cbn [length]; lia.
Qed.

Lemma count_unix_dirs_length (es : list (string * fsnode)) :
  count_unix_dirs es = length (unix_subdirs es).
Proof.
  unfold count_unix_dirs, unix_subdirs.
  apply (fold_count_filter (fun e => Py.mem e.1 UNIX_DIRS && isdir e.2) es 0).
Qed.

(** A call with [recurse=False] never reaches the recursive call. *)
Lemma io_find_rootfs_body_flat self self' start n :
  io_find_rootfs_body self start n false = io_find_rootfs_body self' start n false.
Proof. unfold io_find_rootfs_body. by destruct (single_chain start n). Qed.

(** [io_find_rootfs] satisfies the recursive equation of the source. *)
Lemma io_find_rootfs_eq start n recurse :
  io_find_rootfs start n recurse =
  io_find_rootfs_body (fun s m => io_find_rootfs s m false) start n recurse.
Proof.
  unfold io_find_rootfs at 1. f_equal.
Qed.

Lemma single_chain_wrap start chain es :
  length es <> 1 ->
  single_chain start (wrap chain (Dir es)) = (foldl Py.path_join start chain, Dir es).
Proof.
  intros Hlen. revert start. induction chain as [|a chain IH]; intros start; simpl.
  - destruct es as [|[x [d|sub]] [|e es]]; simpl in *; try done.
  - rewrite <- IH. destruct (wrap chain (Dir es)) eqn:Hw; [|done].
    destruct chain; simpl in Hw; discriminate.
Qed.

Lemma unix_names_root (names : list string) (es : list (string * fsnode)) :
  NoDup names -> names ⊆ UNIX_DIRS -> names ⊆ subdirs es ->
  length names <= length (unix_subdirs es).
Proof.
  intros Hnd Hunix Hsub.
  rewrite <- (length_fmap fst (unix_subdirs es)).
  apply submseteq_length, NoDup_submseteq; [done|].
  intros x Hx. specialize (Hunix x Hx). specialize (Hsub x Hx).
  unfold subdirs in Hsub. apply list_elem_of_fmap in Hsub as ([y c] & -> & Hin).
  apply list_elem_of_filter in Hin as [Hdir Hin]. cbn [fst snd] in *.
  apply list_elem_of_fmap. exists (y, c). split; [done|].
  unfold unix_subdirs. apply list_elem_of_filter. split; [|done]. cbn [fst snd].
  apply Is_true_true. apply andb_true_iff. split; [by apply mem_true|].
  by apply Is_true_true.
Qed.

Lemma unix_root_found start chain es recurse :
  unix_root es ->
  io_find_rootfs start (wrap chain (Dir es)) recurse
  = (true, foldl Py.path_join start chain).
Proof.
  intros Hroot. unfold io_find_rootfs, io_find_rootfs_body.
  rewrite single_chain_wrap.
  - simpl listdir. rewrite count_unix_dirs_length.
    unfold unix_root in Hroot. apply Nat.leb_le in Hroot. by rewrite Hroot.
  - unfold unix_root, UNIX_THRESHOLD in Hroot.
    pose proof (length_filter (fun e => Py.mem e.1 UNIX_DIRS && isdir e.2) es) as Hle.
    unfold unix_subdirs in Hroot. lia.
Qed.

Lemma first_rootfs_none self path es :
  (forall name child, (name, child) ∈ es -> isdir child = true ->
     (self (Py.path_join path name) child).1 = false) ->
  first_rootfs self path es = None.
Proof.
  induction es as [|[name child] es IH]; intros Hall; simpl; [done|].
  destruct (isdir child) eqn:Hd.
  - rewrite (Hall name child); [|left|done]. apply IH.
    intros n c Hin. apply Hall. by right.
  - apply IH. intros n c Hin. apply Hall. by right.
Qed.

(** C4. The root detector returns [(true, D)] for a directory [D] with at
    least four distinct immediate subdirectories named in [UNIX_DIRS];
    it returns [(true, D/a/b/C)] when [D], [a], [b] are single-entry
    directories and [C] is such a directory; and it returns
    [(false, start)], with the path it was called on, when the directory
    reached after unwrapping is no UNIX root and, under [recurse=True], no
    immediate subdirectory of it is accepted by a call with
    [recurse=False]. *)
Theorem io_find_rootfs_detects (start : string) (names chain : list string)
    (es : list (string * fsnode)) (n : fsnode) (recurse : bool) :
  (NoDup names -> 4 <= length names -> names ⊆ UNIX_DIRS -> names ⊆ subdirs es ->
     io_find_rootfs start (Dir es) recurse = (true, start) /\
     io_find_rootfs start (wrap chain (Dir es)) recurse
     = (true, foldl Py.path_join start chain))
  /\
  (~ unix_root (listdir (single_chain start n).2) ->
   (recurse = true ->
    forall name child, (name, child) ∈ listdir (single_chain start n).2 ->
      isdir child = true ->
      (io_find_rootfs (Py.path_join (single_chain start n).1 name) child false).1
      = false) ->
   io_find_rootfs start n recurse = (false, start)).
Proof.
  split.
  - intros Hnd Hlen Hunix Hsub.
    assert (unix_root es) as Hroot.
    { unfold unix_root, UNIX_THRESHOLD.
      pose proof (unix_names_root names es Hnd Hunix Hsub). lia. }
    split.
    + apply (unix_root_found start [] es recurse Hroot).
    + by apply unix_root_found.
  - intros Hno Hsubs. rewrite io_find_rootfs_eq. unfold io_find_rootfs_body.
    destruct (single_chain start n) as [path d] eqn:Hsc. cbn [fst snd] in *.
    rewrite count_unix_dirs_length.
    unfold unix_root in Hno. apply Nat.nle_gt in Hno.
    destruct (UNIX_THRESHOLD <=? length (unix_subdirs (listdir d)))%nat eqn:Hc.
    { apply Nat.leb_le in Hc. lia. }
    destruct recurse; [|done].
    rewrite first_rootfs_none; [done|]. by apply Hsubs.
Qed.

Lemma io_find_rootfs_detects_witness :
  io_find_rootfs "/D" (Dir [("bin", Dir []); ("etc", Dir []); ("lib", Dir []);
                            ("usr", Dir []); ("README", File [])]) true
  = (true, "/D")
  /\ io_find_rootfs "/D"
       (wrap ["a"; "b"; "C"]
          (Dir [("bin", Dir []); ("etc", Dir []); ("lib", Dir []);
                ("usr", Dir []); ("README", File [])])) true
     = (true, "/D/a/b/C")
  /\ io_find_rootfs "/D" (Dir [("only", Dir [("bin", Dir []); ("x", File [])])]) true
     = (false, "/D").
Proof.
  pose (es := [("bin", Dir []); ("etc", Dir []); ("lib", Dir []);
               ("usr", Dir []); ("README", File [])] : list (string * fsnode)).
  destruct (io_find_rootfs_detects "/D" ["bin"; "etc"; "lib"; "usr"]
              ["a"; "b"; "C"] es (Dir []) true) as [Hyes _].
  destruct Hyes as [H1 H2].
  { compute_done. }
  { simpl. lia. }
  { compute_done. }
  { compute_done. }
  destruct (io_find_rootfs_detects "/D" [] [] []
              (Dir [("only", Dir [("bin", Dir []); ("x", File [])])]) true)
    as [_ Hno].
  split; [exact H1|]. split; [exact H2|].
  apply Hno.
  - unfold unix_root. vm_compute. lia.
  - intros _ name child Hin _. vm_compute in Hin.
    apply list_elem_of_In in Hin. destruct Hin as [Heq|[Heq|[]]];
      inversion Heq; subst; reflexivity.
Defined.

(** ** The child queue of a walked directory *)

Section SortFacts.
Context {A : Type} (le : A -> A -> bool).

Lemma insert_sorted_perm (x : A) (l : list A) :
  Permutation (insert_sorted le x l) (x :: l).
Proof.
  induction l as [|y l IH]; simpl; [done|].
  destruct (le x y); [done|]. rewrite IH. apply perm_swap.
Qed.

Lemma sort_by_perm (l : list A) : Permutation (sort_by le l) l.
Proof.
  induction l as [|x l IH]; simpl; [done|].
  rewrite insert_sorted_perm. by constructor.
Qed.

Hypothesis le_total : forall a b, le a b = true \/ le b a = true.
Hypothesis le_trans : forall a b c, le a b = true -> le b c = true -> le a c = true.

Lemma insert_sorted_sorted (x : A) (l : list A) :
  StronglySorted (fun a b => le a b = true) l ->
  StronglySorted (fun a b => le a b = true) (insert_sorted le x l).
Proof.
  induction 1 as [|y l Hs IH Hy]; simpl.
  - repeat constructor.
  - destruct (le x y) eqn:Hxy.
    + constructor; [by constructor|]. constructor; [done|].
      eapply Forall_impl; [exact Hy|]. intros z Hz. by eapply le_trans.
    + constructor; [done|].
      rewrite insert_sorted_perm. constructor; [|done].
      destruct (le_total x y); congruence.
Qed.

Lemma sort_by_sorted (l : list A) :
  StronglySorted (fun a b => le a b = true) (sort_by le l).
Proof.
  induction l as [|x l IH]; simpl; [constructor|].
  by apply insert_sorted_sorted.
Qed.
End SortFacts.

Lemma str_le_total (a b : string) : str_le a b = true \/ str_le b a = true.
Proof. apply String.leb_total. Qed.

Lemma str_le_trans (a b c : string) :
  str_le a b = true -> str_le b c = true -> str_le a c = true.
Proof.
  unfold str_le. intros Hab Hbc. apply Is_true_true.
  apply Is_true_true in Hab, Hbc.
  exact (PreOrder_Transitive (R := String.le) a b c Hab Hbc).
Qed.

(** Inserting by length into a queue that is already in (length, name)
    order keeps that order when the new name precedes all others. *)
Lemma insert_len_lex (x : string) (l : list string) :
  StronglySorted len_lex l ->
  Forall (fun y => str_le x y = true) l ->
  StronglySorted len_lex (insert_sorted len_le x l).
Proof.
  induction 1 as [|y l Hs IH Hy]; intros Hx; simpl.
  - repeat constructor.
  - apply Forall_cons in Hx as [Hxy Hx].
    unfold len_le at 1. destruct (String.length x <=? String.length y)%nat eqn:Hlen.
    + apply Nat.leb_le in Hlen. constructor; [by constructor|].
      constructor.
      * unfold len_lex. destruct (decide (String.length x = String.length y)); [by right|left; lia].
      * rewrite Forall_forall in Hy, Hx. apply Forall_forall. intros z Hz.
        specialize (Hy z Hz). specialize (Hx z Hz).
        unfold len_lex in *.
        destruct (decide (String.length x = String.length z)); [by right|left; lia].
    + apply Nat.leb_gt in Hlen. constructor; [by apply IH|].
      rewrite insert_sorted_perm. constructor; [|done].
      left. lia.
Qed.

(** [files.sort(); files.sort(key=len)]: a stable sort by length of a list
    sorted by name is sorted by (length, name). *)
Lemma sort_len_after_name (l : list string) :
  StronglySorted (fun a b => str_le a b = true) l ->
  StronglySorted len_lex (sort_by len_le l).
Proof.
  induction 1 as [|x l Hs IH Hx]; simpl; [constructor|].
  apply insert_len_lex; [done|]. by rewrite sort_by_perm.
Qed.

Lemma remove_perm (x : string) (l : list string) :
  x ∈ l -> Permutation (x :: Py.remove x l) l.
Proof.
  induction l as [|y l IH]; intros Hin; [by apply elem_of_nil in Hin|].
  simpl. destruct (String.eqb x y) eqn:Heq.
  - apply String.eqb_eq in Heq. by subst.
  - apply String.eqb_neq in Heq. apply elem_of_cons in Hin as [->|Hin]; [done|].
    rewrite perm_swap. constructor. by apply IH.
Qed.

(** The loop over the fields keeps the name of the last field that carries
    the marker. *)
Lemma original_name_last (pre post : list string) (stmt X : string)
    (orig : option string) :
  Forall (fun s => Py.contains ORIGINAL_NAME s = true ->
                   is_Some (Py.index (Py.split "034"%char s) 1)) pre ->
  Py.contains ORIGINAL_NAME stmt = true ->
  Py.index (Py.split "034"%char stmt) 1 = Some X ->
  Forall (fun s => Py.contains ORIGINAL_NAME s = false) post ->
  original_name (pre ++ stmt :: post) orig = Some (Some X).
Proof.
  intros Hpre Hstmt HX Hpost. revert orig.
  induction Hpre as [|s pre Hs Hpre IH]; intros orig; cbn [app original_name].
  - rewrite Hstmt, HX. clear Hstmt HX.
    induction Hpost as [|s post Hs Hpost IH]; cbn [original_name]; [done|].
    by rewrite Hs.
  - destruct (Py.contains ORIGINAL_NAME s) eqn:Hc; [|apply IH].
    destruct (Hs eq_refl) as [y ->]. apply IH.
Qed.

(** The children of a walked directory are queued sorted
    by name and then stably by length, which is the (length, name) order;
    and when the description kept from the scan (that of the first finding)
    contains [original file name:], the name [X] read from it -- the text
    between the first two double quotes of the last comma-separated field
    with that marker -- is moved to the front if it is not empty and is
    among the children. *)
Lemma order_files_queue (desc : option string) (files : list string) :
  let sorted := sort_by len_le (sort_by str_le files) in
  Permutation sorted files /\
  StronglySorted len_lex sorted /\
  (match desc with
   | Some d => Py.contains ORIGINAL_NAME d = false
   | None => True
   end -> order_files desc files = Some sorted) /\
  (forall (d : string) (pre : list string) (stmt : string) (post : list string)
          (X : string),
     desc = Some d ->
     Py.contains ORIGINAL_NAME d = true ->
     Py.split "," d = (pre ++ stmt :: post)%list ->
     Forall (fun s => Py.contains ORIGINAL_NAME s = true ->
                      is_Some (Py.index (Py.split "034"%char s) 1)) pre ->
     Py.contains ORIGINAL_NAME stmt = true ->
     Py.index (Py.split "034"%char stmt) 1 = Some X ->
     Forall (fun s => Py.contains ORIGINAL_NAME s = false) post ->
     order_files desc files
     = Some (if negb (String.eqb X EmptyString) && Py.mem X sorted
             then X :: Py.remove X sorted else sorted)
     /\ (X ∈ files -> Permutation (X :: Py.remove X sorted) files)).
Proof.
  intros sorted.
  assert (Permutation sorted files) as Hperm.
  { unfold sorted. by rewrite !sort_by_perm. }
  split; [done|]. split.
  { apply sort_len_after_name, sort_by_sorted; [apply str_le_total|apply str_le_trans]. }
  split.
  - intros Hd. unfold order_files. fold sorted. destruct desc as [d|]; [|done].
    rewrite Hd. by rewrite andb_false_r.
  - intros d pre stmt post X -> Hd Hsplit Hpre Hstmt HX Hpost. split.
    + unfold order_files. fold sorted. rewrite Hd, Hsplit.
      assert (String.eqb d EmptyString = false) as ->.
      { destruct d; [discriminate Hd|done]. }
      cbn [negb andb].
      rewrite (original_name_last pre post stmt X None Hpre Hstmt HX Hpost).
      cbn [mbind option_bind]. by destruct (negb (String.eqb X EmptyString) && Py.mem X sorted).
    + intros Hin. rewrite remove_perm; [done|]. by rewrite Hperm.
Qed.

Lemma order_files_queue_witness :
  order_files (Some (description (gzip_named "fw.bin"))) ["rootfs"; "fw.bin"; "a"; "b"]
  = Some ["fw.bin"; "a"; "b"; "rootfs"].
Proof.
  destruct (order_files_queue (Some (description (gzip_named "fw.bin")))
              ["rootfs"; "fw.bin"; "a"; "b"]) as (_ & _ & _ & H).
  destruct (H (description (gzip_named "fw.bin"))
              ["gzip compressed data"]
              (" has original file name: " ++ quoted "fw.bin")
              [" from Unix"] "fw.bin") as [Heq _].
  - reflexivity.
  - vm_compute. reflexivity.
  - vm_compute. reflexivity.
  - repeat constructor. intros Hc. vm_compute in Hc. discriminate Hc.
  - vm_compute. reflexivity.
  - vm_compute. reflexivity.
  - repeat constructor.
  - rewrite Heq. vm_compute. reflexivity.
Defined.

(** The restored name is not always first: for a name with a comma the
    field is cut at the comma and the name found is not a child. *)
Lemma original_name_first_fails :
  ~ original_name_first [gzip_named "a,b"] ["c"; "a,b"].
Proof.
  intros H.
  specialize (H "a,b" (gzip_named "a,b") ["c"; "a,b"]).
  assert (head ["c"; "a,b"] = Some "a,b") as Hhead; [|discriminate Hhead].
  apply H.
  - by left.
  - vm_compute. reflexivity.
  - by right; left.
  - vm_compute. reflexivity.
Qed.

(** C8. The code means to put the restored original name at the front of
    the queue and misses it for a name with a comma.  binwalk reports
    [gzip compressed data, has original file name: "a,b", from Unix] and
    extracts the files [a,b] and [zz]: the description is split at commas
    before the name is read between the double quotes, so the name read is
    [a], which is no child; the queue stays in (length, name) order and the
    compressed phase builds and extracts [zz] first and [a,b] second. *)
Theorem restored_name_cut_at_comma :
  first_description None [gzip_named "a,b"]
  = Some ("gzip compressed data, has original file name: " ++ quoted "a,b"
          ++ ", from Unix")
  /\ original_name (Py.split "," (description (gzip_named "a,b"))) None
     = Some (Some "a")
  /\ order_files (first_description None [gzip_named "a,b"]) ["a,b"; "zz"]
     = Some ["zz"; "a,b"]
  /\ walked_paths
       (trace (final (_check_compressed comma_libs (extract comma_libs 1)
                        gz_firmware fresh_job)))
     = ["/tmp/tmp0/_fw.gz.extracted/zz"; "/tmp/tmp0/_fw.gz.extracted/a,b"].
Proof. repeat split; vm_compute; reflexivity. Qed.

(** ** The blacklist and the preflight checks *)

Lemma any_in_true (pats : list string) (text : string) :
  Py.any_in pats text = true <-> exists s, s ∈ pats /\ Py.contains s text = true.
Proof.
  unfold Py.any_in. rewrite existsb_exists.
  split; intros (s & Hs & Hc); exists s; (split; [by apply list_elem_of_In|done]).
Qed.

Lemma _check_blacklist_true (L : Libraries) (self : ExtractionItem) :
  _check_blacklist L self = true <->
  (exists s, s ∈ MIME_BLACKLIST /\
             Py.contains s (magic L (item self) (data self) true) = true)
  \/ (exists s, s ∈ TYPE_BLACKLIST /\
                Py.contains s (magic L (item self) (data self) false) = true)
  \/ Py.endswith ".dmg" (item self) = true.
Proof.
  unfold _check_blacklist. rewrite <- !any_in_true.
  destruct (Py.any_in MIME_BLACKLIST _), (Py.any_in TYPE_BLACKLIST _),
    (Py.endswith ".dmg" _); intuition congruence.
Qed.

(** *** A MIME pattern matches a MIME type at its start only *)

Lemma string_app_assoc (a b c : string) : (a ++ b) ++ c = a ++ (b ++ c).
Proof.
  induction a as [|x a IH]; [done|].
  change (String x ((a ++ b) ++ c) = String x (a ++ (b ++ c))). by f_equal.
Qed.

Lemma prefix_app (p s : string) :
  String.prefix p s = true <-> exists t, s = p ++ t.
Proof.
  revert s. induction p as [|a p IH]; intros s.
  - destruct s; cbn; (split; [by eexists|done]).
  - destruct s as [|b s]; cbn.
    + split; [done|]. by intros (t & ?).
    + destruct (ascii_dec a b) as [->|Hne].
      * rewrite IH. split; intros (t & Ht); exists t; [by rewrite Ht|].
        by inversion Ht.
      * split; [done|]. intros (t & Ht). inversion Ht. by subst.
Qed.

Lemma contains_app (p s : string) :
  Py.contains p s = true -> exists pre post, s = pre ++ p ++ post.
Proof.
  induction s as [|c s IH]; cbn [Py.contains]; intros H;
    apply orb_true_iff in H as [H|H].
  - apply prefix_app in H as (t & ->). by exists EmptyString, t.
  - done.
  - apply prefix_app in H as (t & ->). by exists EmptyString, t.
  - destruct (IH H) as (pre & post & ->). by exists (String c pre), post.
Qed.

Lemma startswith_contains (p s : string) :
  Py.startswith p s = true -> Py.contains p s = true.
Proof.
  unfold Py.startswith. intros H. destruct s; cbn [Py.contains]; by rewrite H.
Qed.

Lemma chars_app (a b : string) : chars (a ++ b) = (chars a ++ chars b)%list.
Proof.
  induction a as [|x a IH]; [done|].
  change (chars (String x a ++ b)) with (x :: chars (a ++ b)). by rewrite IH.
Qed.

Lemma string_app_cons (x : ascii) (a b : string) :
  String x a ++ b = String x (a ++ b).
Proof. done. Qed.

Lemma slash_aligned (a b ty sub : string) :
  a ++ "/" ++ b = ty ++ "/" ++ sub ->
  "/"%char ∉ chars ty -> "/"%char ∉ chars sub ->
  a = ty /\ b = sub.
Proof.
  revert ty. induction a as [|x a IH]; intros ty Heq Hty Hsub.
  - change (EmptyString ++ "/" ++ b) with (String "/" b) in Heq.
    destruct ty as [|y ty].
    + change (EmptyString ++ "/" ++ sub) with (String "/" sub) in Heq.
      by inversion Heq.
    + rewrite string_app_cons in Heq. inversion Heq; subst.
      exfalso. apply Hty. by left.
  - rewrite string_app_cons in Heq. destruct ty as [|y ty].
    + change (EmptyString ++ "/" ++ sub) with (String "/" sub) in Heq.
      inversion Heq as [[Hx Hrest]]. exfalso. apply Hsub. rewrite <- Hrest.
      rewrite chars_app. apply elem_of_app. right. by left.
    + rewrite string_app_cons in Heq. inversion Heq as [[Hx Hrest]].
      destruct (IH ty Hrest) as [-> ->]; [|done|done].
      intros Hin. apply Hty. by right.
Qed.

Lemma endswith_app (pre T : string) : Py.endswith T (pre ++ T) = true.
Proof.
  induction pre as [|c pre IH].
  - change (EmptyString ++ T) with T.
    destruct T; cbn [Py.endswith]; by rewrite String.eqb_refl.
  - rewrite string_app_cons. cbn [Py.endswith]. rewrite IH. apply orb_true_r.
Qed.

(** On a MIME type, a pattern [T/S] of the blacklist occurs only at its
    start. *)
Lemma mime_pattern_at_start (T S m : string) :
  T ∈ BLACKLISTED_MEDIA -> mime_type m ->
  Py.contains (T ++ "/" ++ S) m = true <-> Py.startswith (T ++ "/" ++ S) m = true.
Proof.
  intros HT (ty & sub & -> & Hty & Hsub & Hown).
  split; [|apply startswith_contains].
  intros (pre & post & Heq)%contains_app.
  rewrite !string_app_assoc in Heq. rewrite <- (string_app_assoc pre T) in Heq.
  symmetry in Heq. apply slash_aligned in Heq as [Hpre Hpost]; [|done..].
  assert (ty = T) as ->.
  { apply Hown; [done|]. rewrite <- Hpre. apply endswith_app. }
  subst sub. unfold Py.startswith. apply prefix_app. exists post.
  by rewrite !string_app_assoc.
Qed.

Lemma blacklist_patterns :
  Forall (fun s => exists T S, T ∈ BLACKLISTED_MEDIA /\ s = T ++ "/" ++ S)
         MIME_BLACKLIST.
Proof.
  unfold MIME_BLACKLIST, BLACKLISTED_MEDIA.
  repeat (apply List.Forall_cons; [|]); [..|apply List.Forall_nil].
  - exists "application", "x-executable". split; [set_solver|done].
  - exists "application", "x-dosexec". split; [set_solver|done].
  - exists "application", "x-object". split; [set_solver|done].
  - exists "application", "pdf". split; [set_solver|done].
  - exists "application", "msword". split; [set_solver|done].
  - exists "image", EmptyString. split; [set_solver|done].
  - exists "text", EmptyString. split; [set_solver|done].
  - exists "video", EmptyString. split; [set_solver|done].
Qed.

Lemma blacklist_mime_prefix (m : string) :
  mime_type m ->
  (exists s, s ∈ MIME_BLACKLIST /\ Py.contains s m = true)
  <-> (exists s, s ∈ MIME_BLACKLIST /\ Py.startswith s m = true).
Proof.
  intros Hm. pose proof blacklist_patterns as Hpat.
  rewrite Forall_forall in Hpat.
  split; intros (s & Hs & H); exists s; (split; [done|]);
    destruct (Hpat s Hs) as (T & S & HT & ->);
    by apply (mime_pattern_at_start T S m).
Qed.

Ltac no_such_char :=
  let H := fresh in
  intros H; vm_compute in H;
  repeat (apply elem_of_cons in H as [H|H]; [discriminate H|]);
  by apply elem_of_nil in H.

(** An answer with one of the usual media types is a MIME type in this
    sense. *)
Lemma media_type_mime (ty sub : string) :
  ty ∈ MEDIA_TYPES -> "/"%char ∉ chars sub -> mime_type (ty ++ "/" ++ sub).
Proof.
  intros Hty Hsub. exists ty, sub. split; [done|].
  unfold MEDIA_TYPES in Hty.
  repeat (apply elem_of_cons in Hty as [->|Hty];
          [split; [no_such_char|split; [done|]];
           intros T HT He; unfold BLACKLISTED_MEDIA in HT;
           repeat (apply elem_of_cons in HT as [->|HT];
                   [first [reflexivity|vm_compute in He; discriminate He]|]);
           by apply elem_of_nil in HT|]).
  by apply elem_of_nil in Hty.
Qed.

(** C3. A node that reaches the blacklist check (not complete, depth at most
    3, digest not visited), and for which libmagic answers a MIME type, is
    skipped -- [extract] returns its completion status, having recorded the
    digest and created no scratch directory -- exactly when its MIME type
    starts with one of the eight MIME patterns, or its type string contains
    one of the five words, or its path ends with [.dmg]; otherwise the
    scratch directory is created and the cascade runs.  The code tests the
    MIME type with [in]; on a MIME type that is the prefix test. *)
Theorem blacklist_skips (L : Libraries) (fuel : nat) (self : ExtractionItem)
    (ex : Extractor) :
  mime_type (magic L (item self) (data self) true) ->
  get_status self = false ->
  depth self <= RECURSION_DEPTH ->
  checksum self ∉ visited ex ->
  let skipped :=
    (exists s, s ∈ MIME_BLACKLIST /\
               Py.startswith s (magic L (item self) (data self) true) = true)
    \/ (exists s, s ∈ TYPE_BLACKLIST /\
                  Py.contains s (magic L (item self) (data self) false) = true)
    \/ Py.endswith ".dmg" (item self) = true in
  _check_blacklist L self
  = blacklist_by_prefix (magic L (item self) (data self) true)
      (magic L (item self) (data self) false) (item self)
  /\ (skipped ->
      extract L (S fuel) self ex
      = Ok (get_status self) (visited_add (checksum self) ex))
  /\ (~ skipped ->
      extract L (S fuel) self ex
      = cascade (analyses L (extract L fuel))
          (set_temp (Some (mkdtemp L (visited_add (checksum self) ex)).1) self)
          (log (EvScratch (mkdtemp L (visited_add (checksum self) ex)).1 (depth self))
               (mkdtemp L (visited_add (checksum self) ex)).2)).
Proof.
  intros Hmime Hst Hdepth Hvis skipped.
  assert (extract L (S fuel) self ex
          = if _check_blacklist L self
            then Ok (get_status self) (visited_add (checksum self) ex)
            else cascade (analyses L (extract L fuel))
                   (set_temp (Some (mkdtemp L (visited_add (checksum self) ex)).1) self)
                   (log (EvScratch (mkdtemp L (visited_add (checksum self) ex)).1
                                   (depth self))
                        (mkdtemp L (visited_add (checksum self) ex)).2)) as Heq.
  { cbn [extract]. unfold extract_body. rewrite Hst.
    apply Nat.ltb_ge in Hdepth. rewrite Hdepth.
    rewrite bool_decide_eq_false_2 by done.
    by destruct (_check_blacklist L self). }
  assert (_check_blacklist L self = true <-> skipped) as Hiff.
  { rewrite _check_blacklist_true. unfold skipped.
    by rewrite (blacklist_mime_prefix _ Hmime). }
  split; [|split].
  - apply eq_true_iff_eq. rewrite Hiff. unfold skipped, blacklist_by_prefix.
    rewrite !orb_true_iff, <- any_in_true, existsb_exists.
    split.
    + intros [(s & Hs & H)|[H|H]]; [left; left|left; right|right]; try done.
      exists s. split; [by apply list_elem_of_In|done].
    + intros [[(s & Hs & H)|H]|H]; [left|right; left|right; right]; try done.
      exists s. split; [by apply list_elem_of_In|done].
  - intros Hs. rewrite Heq. apply Hiff in Hs. by rewrite Hs.
  - intros Hs. rewrite Heq. destruct (_check_blacklist L self); [|done].
    exfalso. by apply Hs, Hiff.
Qed.

Lemma blacklist_skips_witness :
  extract (fixed_libs "image/png" "PNG image data" no_findings) 1
    (new_item (fixed_libs "image/png" "PNG image data" no_findings)
       fresh_job "/in/logo.png" (bytes "PNG") 0) fresh_job
  = Ok false (visited_add "PNG" fresh_job)
  /\ extract demo_libs 1
       (new_item demo_libs fresh_job "/in/fw.bin" (bytes "FW") 0)
       fresh_job
     = Ok false
         (log (EvScratch "/tmp/tmp0" 0) (bump_tmp (visited_add "FW" fresh_job))).
Proof.
  split.
  - destruct (blacklist_skips (fixed_libs "image/png" "PNG image data" no_findings) 0
             (new_item (fixed_libs "image/png" "PNG image data" no_findings)
                fresh_job "/in/logo.png" (bytes "PNG") 0) fresh_job)
      as (_ & H & _).
    + apply (media_type_mime "image" "png"); [compute_done|no_such_char].
    + reflexivity.
    + vm_compute. lia.
    + vm_compute. set_solver.
    + apply H. left. exists "image/". split; [compute_done|reflexivity].
  - destruct (blacklist_skips demo_libs 0
             (new_item demo_libs fresh_job "/in/fw.bin" (bytes "FW") 0)
             fresh_job) as (_ & _ & H).
    + apply (media_type_mime "application" "octet-stream");
        [compute_done|no_such_char].
    + reflexivity.
    + vm_compute. lia.
    + vm_compute. set_solver.
    + rewrite H; [reflexivity|].
      intros [(s & Hs & Hp)|[(s & Hs & Hp)|Hp]].
      * unfold MIME_BLACKLIST in Hs.
        repeat (apply elem_of_cons in Hs as [->|Hs];
                [vm_compute in Hp; discriminate Hp|]).
        by apply elem_of_nil in Hs.
      * unfold TYPE_BLACKLIST in Hs.
        repeat (apply elem_of_cons in Hs as [->|Hs];
                [vm_compute in Hp; discriminate Hp|]).
        by apply elem_of_nil in Hs.
      * vm_compute in Hp. discriminate Hp.
Defined.

(** The hypothesis is needed: on an answer that is not a MIME type the
    test of the code and the prefix test differ. *)
Lemma mime_type_needed :
  ~ (forall (L : Libraries) (self : ExtractionItem),
       _check_blacklist L self
       = blacklist_by_prefix (magic L (item self) (data self) true)
           (magic L (item self) (data self) false) (item self)).
Proof.
  intros H.
  specialize (H (fixed_libs "application/x-image/raw" "data" no_findings)
                (new_item (fixed_libs "application/x-image/raw" "data" no_findings)
                   fresh_job "/in/fw.bin" (bytes "FW") 0)).
  vm_compute in H. discriminate H.
Qed.

(** ** Firmware carving *)

Lemma hexval_nonneg (c : ascii) (d : Z) : Py.hexval c = Some d -> (0 <= d)%Z.
Proof.
  unfold Py.hexval. intros H.
  repeat match type of H with
         | (if ?b then _ else _) = _ => destruct b eqn:?
         end; inversion H; subst; clear H;
    repeat match goal with
           | Hb : (_ && _) = true |- _ => apply andb_true_iff in Hb as [? ?]
           | Hb : (_ <=? _)%N = true |- _ => apply N.leb_le in Hb
           end; lia.
Qed.

Lemma digits_nonneg (base : Z) (s : string) (prev seen : bool) (acc n : Z) :
  (0 <= base)%Z -> (0 <= acc)%Z ->
  Py.digits base s prev seen acc = Some n -> (0 <= n)%Z.
Proof.
  intros Hb. revert prev seen acc.
  induction s as [|c s IH]; intros prev seen acc Hacc; cbn [Py.digits].
  - destruct (prev || negb seen); [done|]. intros [= <-]. done.
  - destruct (Ascii.eqb c "_").
    + destruct (prev || negb seen); [done|]. by apply IH.
    + destruct (Py.hexval c) as [d|] eqn:Hd; [|done].
      destruct (d <? base)%Z; [|done].
      apply IH. apply hexval_nonneg in Hd. nia.
Qed.

Lemma uimage_size_nonneg (stmts : list string) (k n : Z) :
  (0 <= k)%Z -> uimage_size stmts k = Some n -> (0 <= n)%Z.
Proof.
  revert k. induction stmts as [|stmt stmts IH]; intros k Hk; cbn [uimage_size].
  - by intros [= <-].
  - destruct (Py.contains "image size:" stmt); [|by apply IH].
    destruct (Py.int10_of_digits stmt) as [m|] eqn:Hm; [|done].
    apply IH. unfold Py.int10_of_digits in Hm.
    by apply digits_nonneg in Hm.
Qed.

(** [io_dd] inside a file copies exactly the requested slice. *)
Lemma io_dd_slice (indata : list byte) (off size : Z) :
  (0 <= off)%Z -> (0 < size)%Z -> (off + size <= Z.of_nat (length indata))%Z ->
  io_dd indata off size = Some (take (Z.to_nat size) (drop (Z.to_nat off) indata))
  /\ length (take (Z.to_nat size) (drop (Z.to_nat off) indata)) = Z.to_nat size.
Proof.
  intros Hoff Hsize Hfit. split.
  - unfold io_dd.
    destruct (Z.eqb_spec size 0); [lia|].
    destruct (Z.ltb_spec off 0); [lia|].
    destruct (Z.ltb_spec size (-1)); [lia|].
    destruct (Z.eqb_spec size (-1)); [lia|]. done.
  - rewrite length_take, length_drop. lia.
Qed.


(** C2 (the code at the failing input). A TRX finding that gives
    [kernel offset: 0x0] and [rootfs offset: 0x100] and no lengths, in a
    file of 512 bytes: the fields are read as offsets 0 and 256, no length
    is inferred, the bound check rejects the zero kernel length, and
    nothing is carved. *)
Lemma trx_kernel_at_zero_not_inferred
    (rec : ExtractionItem -> Extractor -> result bool) :
  trx_fields (Py.split "," (description trx_offsets_only))
    {| kernel_offset := 0; kernel_size := 0; rootfs_offset := 0; rootfs_size := 0 |}
  = Some {| kernel_offset := 0; kernel_size := 0;
            rootfs_offset := 256; rootfs_size := 0 |}
  /\ getsize trx_firmware = 512%Z
  /\ trx_sizes 512 {| kernel_offset := 0; kernel_size := 0;
                      rootfs_offset := 256; rootfs_size := 0 |}
     = {| kernel_offset := 0; kernel_size := 0;
          rootfs_offset := 256; rootfs_size := 0 |}
  /\ trx_sensible 512 {| kernel_offset := 0; kernel_size := 0;
                         rootfs_offset := 256; rootfs_size := 0 |} = false
  /\ firmware_entry demo_libs rec trx_firmware fresh_job trx_offsets_only
     = Ok (None, trx_firmware) fresh_job.
Proof. repeat split; vm_compute; reflexivity. Qed.

Lemma firmware_entries_skip (L : Libraries)
    (rec : ExtractionItem -> Extractor -> result bool)
    (self : ExtractionItem) (ex : Extractor) (pre es : list Entry) :
  Forall (fun e' => firmware_entry L rec self ex e' = Ok (None, self) ex) pre ->
  firmware_entries L rec self ex (pre ++ es) = firmware_entries L rec self ex es.
Proof.
  induction 1 as [|e' pre He _ IH]; [done|].
  cbn [app firmware_entries]. by rewrite He.
Qed.

Lemma firmware_modules_skip (L : Libraries)
    (rec : ExtractionItem -> Extractor -> result bool)
    (self : ExtractionItem) (ex : Extractor) (before ms : list ScanModule) :
  Forall (fun m => Forall (fun e' => firmware_entry L rec self ex e' = Ok (None, self) ex)
                          (results m)) before ->
  firmware_modules L rec self ex (before ++ ms) = firmware_modules L rec self ex ms.
Proof.
  induction 1 as [|m before Hm _ IH]; [done|].
  cbn [app firmware_modules].
  pose proof (firmware_entries_skip L rec self ex (results m) [] Hm) as Hskip.
  rewrite app_nil_r in Hskip. rewrite Hskip. cbn [firmware_entries rbind fst snd].
  exact IH.
Qed.

(** C5 (as amended). For a uImage finding with ["OS Kernel Image"] that
    declares a nonzero image size [N], with the kernel not done and
    [offset + 64 + N] within the file: the branch carves exactly the [N]
    bytes at [offset + 64] into a new file of the scratch directory, builds
    the child at the depth of its parent, runs it and returns what it
    returns; and that is the result of the phase when the loop reaches the
    finding, every finding before it having been passed over. *)
Theorem uimage_carving (L : Libraries)
    (rec : ExtractionItem -> Extractor -> result bool)
    (self : ExtractionItem) (ex : Extractor) (e : Entry) (N : Z)
    (before after : list ScanModule) (pre post : list Entry)
    (dir : option (string * fsnode)) :
  Py.contains "uImage header" (description e) = true ->
  Py.contains "OS Kernel Image" (description e) = true ->
  declares_size e N ->
  N <> 0%Z ->
  get_kernel_status self = false ->
  (0 <= offset e)%Z ->
  (offset e + 64 + N <= getsize self)%Z ->
  let child := (uimage_child L self ex e N).1 in
  let ex1 := (uimage_child L self ex e N).2 in
  uimage_carved L self ex e N
  /\ (binwalk_scan L (default EmptyString (temp self)) (item self) (data self) Header
      = (before ++ {| results := pre ++ e :: post; directory := dir |} :: after)%list ->
      Forall (fun m => Forall (fun e' => firmware_entry L rec self ex e'
                                         = Ok (None, self) ex) (results m)) before ->
      Forall (fun e' => firmware_entry L rec self ex e' = Ok (None, self) ex) pre ->
      _check_firmware L rec self ex
      = rbind (rec child ex1) (fun b ex' => Ok (b, self) ex'))
  /\ data child = take (Z.to_nat N) (drop (Z.to_nat (offset e + 64)) (data self))
  /\ length (data child) = Z.to_nat N
  /\ depth child = depth self
  /\ item child = Py.path_join (default gettempdir (temp self))
                    (tmpname L (tmp_count ex)).
Proof.
  intros Hu Hos [_ Hsize] HN Hk Hoff Hfit child ex1.
  assert (0 < N)%Z as Hpos.
  { apply uimage_size_nonneg in Hsize; lia. }
  destruct (io_dd_slice (data self) (offset e + 64) N) as [Hdd Hlen];
    [lia|done|unfold getsize in Hfit; lia|].
  assert (uimage_carved L self ex e N) as Hcarved.
  { intros rec'. unfold firmware_entry. rewrite Hu, Hk, Hos, Hsize. cbn [negb andb].
    destruct (Z.eqb_spec N 0); [done|]. cbn [negb andb].
    destruct (Z.leb_spec (offset e + 64 + N) (getsize self)); [|lia].
    unfold carve, mkstemp. by rewrite Hdd. }
  split; [done|]. split; [|done].
  intros Hscan Hbefore Hpre. unfold _check_firmware. rewrite Hscan.
  rewrite firmware_modules_skip by done.
  cbn [firmware_modules results]. rewrite firmware_entries_skip by done.
  cbn [firmware_entries]. rewrite (Hcarved rec).
  fold child ex1. by destruct (rec child ex1).
Qed.

Lemma uimage_carving_witness :
  _check_firmware uimage_libs (fun _ ex => Ok true ex) uimage_firmware
    (bump_tmp fresh_job)
  = Ok (true, uimage_firmware)
       (log (EvNew Carved "/tmp/tmp0/tmp1" 0) (bump_tmp (bump_tmp fresh_job)))
  /\ data (uimage_child uimage_libs uimage_firmware (bump_tmp fresh_job)
             (uimage_entry "8") 8).1
     = bytes "KERNEL!!".
Proof.
  destruct (uimage_carving uimage_libs (fun _ ex => Ok true ex) uimage_firmware
              (bump_tmp fresh_job) (uimage_entry "8") 8 [] [] [lzma_data] [] None)
    as (_ & H1 & H2 & _).
  - vm_compute. reflexivity.
  - vm_compute. reflexivity.
  - split; [|vm_compute; reflexivity].
    exists " image size: 8 bytes". split; [|vm_compute; reflexivity].
    vm_compute. set_solver.
  - lia.
  - vm_compute. reflexivity.
  - vm_compute. discriminate.
  - vm_compute. discriminate.
  - split; [|rewrite H2; vm_compute; reflexivity].
    rewrite H1; [vm_compute; reflexivity|reflexivity|constructor|].
    repeat constructor.
Defined.

(** For a declared size of 0 the claim fails: the guard
    [kernel_size != 0] skips the finding and no child is built. *)
Lemma uimage_claim_fails : ~ uimage_claim demo_libs.
Proof.
  intros H.
  specialize (H empty_uimage fresh_job (uimage_entry "0") 0%Z).
  assert (uimage_carved demo_libs empty_uimage fresh_job (uimage_entry "0") 0) as Hc.
  { apply H.
    - vm_compute. reflexivity.
    - vm_compute. reflexivity.
    - split; [|vm_compute; reflexivity].
      exists " image size: 0 bytes". split; [|vm_compute; reflexivity].
      vm_compute. set_solver.
    - vm_compute. reflexivity.
    - vm_compute. discriminate.
    - vm_compute. discriminate. }
  specialize (Hc (fun _ ex => Ok true ex)). vm_compute in Hc. discriminate Hc.
Qed.

(** ** The kernel phase *)

Lemma kernel_entries_skip (L : Libraries) (self : ExtractionItem)
    (ex : Extractor) (pre es : list Entry) :
  Forall (fun x => Py.contains "kernel version" (description x) = false) pre ->
  kernel_entries self ex (pre ++ es) = kernel_entries self ex es.
Proof.
  induction 1 as [|x pre Hx _ IH]; [done|].
  cbn [app kernel_entries]. by rewrite Hx.
Qed.

(** C9 (as amended). In phase 4, with the kernel not done, the loop looks
    at one finding only: the first ["kernel version"] finding among the
    findings of the first module.  If it mentions ["Linux"] and the job has
    an output directory, the whole file of the node is copied to
    [O/1.kernel] and the phase reports a change; if it mentions ["Linux"]
    and there is no output directory, [do_kernel] is cleared and the phase
    reports a change; in both cases the cascade recomputes the status and
    stops with [True] or goes on.  Otherwise the finding is rejected, the
    job is left as it was, the phase reports no change and the cascade runs
    the next phase on the same item and job.  The findings after it and the
    later modules play no part. *)
Theorem kernel_version_finding (L : Libraries) (self : ExtractionItem)
    (ex : Extractor) (m : ScanModule) (ms : list ScanModule)
    (pre post : list Entry) (e : Entry)
    (rest : list (ExtractionItem -> Extractor -> result (bool * ExtractionItem))) :
  get_kernel_status self = false ->
  binwalk_scan L (default EmptyString (temp self)) (item self) (data self) Kernel = m :: ms ->
  results m = (pre ++ e :: post)%list ->
  Forall (fun x => Py.contains "kernel version" (description x) = false) pre ->
  Py.contains "kernel version" (description e) = true ->
  (Py.contains "Linux" (description e) = true ->
     (forall out, output_dir ex = Some out ->
        _check_kernel L self ex = Ok (true, self) (write_kernel (data self) ex)
        /\ get_kernel_path ex = Some (Py.path_join out "1" ++ ".kernel")
        /\ kernel_file (write_kernel (data self) ex) = Some (data self)
        /\ cascade (_check_kernel L :: rest) self ex
           = if get_status (update_status (write_kernel (data self) ex) self)
             then Ok true (write_kernel (data self) ex)
             else cascade rest (update_status (write_kernel (data self) ex) self)
                    (write_kernel (data self) ex))
     /\ (output_dir ex = None ->
         _check_kernel L self ex = Ok (true, self) (set_do_kernel false ex)
         /\ do_kernel (set_do_kernel false ex) = false
         /\ cascade (_check_kernel L :: rest) self ex
            = if get_status (update_status (set_do_kernel false ex) self)
              then Ok true (set_do_kernel false ex)
              else cascade rest (update_status (set_do_kernel false ex) self)
                     (set_do_kernel false ex)))
  /\ (Py.contains "Linux" (description e) = false ->
      _check_kernel L self ex = Ok (false, self) ex
      /\ cascade (_check_kernel L :: rest) self ex = cascade rest self ex
      /\ forall next rest',
           cascade (_check_kernel L :: next :: rest') self ex
           = cascade_next next rest' self ex).
Proof.
  intros Hk Hscan Hres Hpre He.
  assert (_check_kernel L self ex
          = if Py.contains "Linux" (description e)
            then match get_kernel_path ex with
                 | Some _ => Ok (true, self) (write_kernel (data self) ex)
                 | None => Ok (true, self) (set_do_kernel false ex)
                 end
            else Ok (false, self) ex) as Heq.
  { unfold _check_kernel. rewrite Hk, Hscan, Hres. cbn [negb].
    rewrite kernel_entries_skip by done. cbn [kernel_entries]. by rewrite He. }
  split.
  - intros Hlinux. rewrite Hlinux in Heq. split.
    + intros out Hout.
      assert (_check_kernel L self ex
              = Ok (true, self) (write_kernel (data self) ex)) as Hphase.
      { rewrite Heq. unfold get_kernel_path, output. by rewrite Hout. }
      split; [done|]. split; [unfold get_kernel_path, output; by rewrite Hout|].
      split; [done|]. cbn [cascade]. by rewrite Hphase.
    + intros Hout.
      assert (_check_kernel L self ex
              = Ok (true, self) (set_do_kernel false ex)) as Hphase.
      { rewrite Heq. unfold get_kernel_path, output. by rewrite Hout. }
      split; [done|]. split; [done|]. cbn [cascade]. by rewrite Hphase.
  - intros Hlinux. rewrite Hlinux in Heq. split; [done|].
    split; [cbn [cascade]; by rewrite Heq|].
    intros next rest'. cbn [cascade]. by rewrite Heq.
Qed.

Lemma kernel_version_finding_witness :
  _check_kernel linux_libs vmlinux fresh_job
  = Ok (true, vmlinux) (write_kernel (bytes "LINUX") fresh_job)
  /\ get_kernel_path fresh_job = Some "/out/1.kernel"
  /\ _check_kernel linux_libs vmlinux job_without_output
     = Ok (true, vmlinux) (set_do_kernel false job_without_output)
  /\ _check_kernel vxworks_libs vmlinux fresh_job = Ok (false, vmlinux) fresh_job.
Proof.
  assert (Forall (fun x => Py.contains "kernel version" (description x) = false)
            [lzma_data]) as Hpre.
  { repeat constructor. }
  destruct (kernel_version_finding linux_libs vmlinux fresh_job
              {| results := [lzma_data; linux_version]; directory := None |} []
              [lzma_data] [] linux_version [] eq_refl eq_refl eq_refl Hpre eq_refl)
    as (Hlinux & _).
  destruct (Hlinux eq_refl) as [Hout _].
  destruct (Hout "/out" eq_refl) as (H1 & H2 & _).
  destruct (kernel_version_finding linux_libs vmlinux job_without_output
              {| results := [lzma_data; linux_version]; directory := None |} []
              [lzma_data] [] linux_version [] eq_refl eq_refl eq_refl Hpre eq_refl)
    as (Hlinux' & _).
  destruct (Hlinux' eq_refl) as [_ Hnone].
  destruct (Hnone eq_refl) as [H3 _].
  destruct (kernel_version_finding vxworks_libs vmlinux fresh_job
              {| results := [lzma_data; vxworks_version; linux_version];
                 directory := None |} []
              [lzma_data] [linux_version] vxworks_version [] eq_refl eq_refl eq_refl
              Hpre eq_refl)
    as (_ & Hother).
  destruct (Hother eq_refl) as [H4 _].
  repeat split; assumption.
Defined.

(** Read for every ["kernel version"] finding the claim fails: a Linux
    finding that comes after a VxWorks one is never looked at, and the file
    is not copied. *)
Lemma kernel_claim_fails : ~ kernel_claim vxworks_libs.
Proof.
  intros H.
  specialize (H vmlinux fresh_job "/out"
                {| results := [lzma_data; vxworks_version; linux_version];
                   directory := None |} linux_version).
  assert (_check_kernel vxworks_libs vmlinux fresh_job
          = Ok (true, vmlinux) (write_kernel (data vmlinux) fresh_job)) as Habs.
  { apply H; try reflexivity.
    - apply list_elem_of_singleton. reflexivity.
    - cbn. do 2 right. left. }
  vm_compute in Habs. discriminate Habs.
Qed.

(** ** Every run is a sequence of atomic effects *)

Lemma reach_mono (d d' : nat) (a b : Extractor) :
  d <= d' -> reach d' a b -> reach d a b.
Proof.
  intros Hle. induction 1 as [|x y z (k & Hk1 & Hk2 & Hp) _ IH]; [apply rtc_refl|].
  eapply rtc_l; [|exact IH]. exists k. repeat split; [lia|done|done].
Qed.

Lemma reach_prim (d : nat) (a b : Extractor) :
  d <= RECURSION_DEPTH -> prim d a b -> reach d a b.
Proof. intros Hd Hp. apply rtc_once. exists d. by repeat split. Qed.

Lemma reach_trans (d : nat) (a b c : Extractor) :
  reach d a b -> reach d b c -> reach d a c.
Proof. apply rtc_trans. Qed.

Lemma same_file_refl (a : ExtractionItem) : same_file a a.
Proof. by repeat split. Qed.

Lemma same_file_trans (a b c : ExtractionItem) :
  same_file a b -> same_file b c -> same_file a c.
Proof.
  intros (H1 & H2 & H3 & H4 & H5) (G1 & G2 & G3 & G4 & G5).
  repeat split; congruence.
Qed.

Lemma same_file_status (ex : Extractor) (a : ExtractionItem) :
  same_file a (update_status ex a).
Proof. by repeat split. Qed.

Lemma same_file_terminate (b : bool) (a : ExtractionItem) :
  same_file a (set_terminate b a).
Proof. by repeat split. Qed.

Lemma phase_ok_same {B} (b : B) (self s : ExtractionItem) (ex : Extractor) :
  same_file self s -> phase_ok self ex (Ok (b, s) ex).
Proof. intros Hs. split; [apply rtc_refl|done]. Qed.

Lemma phase_ok_refl {B} (b : B) (self : ExtractionItem) (ex : Extractor) :
  phase_ok self ex (Ok (b, self) ex).
Proof. apply phase_ok_same, same_file_refl. Qed.

Lemma phase_ok_exn {B} (self : ExtractionItem) (ex : Extractor) :
  phase_ok (B := B) self ex (Exn ex).
Proof. split; [apply rtc_refl|done]. Qed.

(** A loop goes on with the item and the state its first round left. *)
Lemma phase_ok_step {B} (self s : ExtractionItem) (ex ex' : Extractor)
    (r : result (B * ExtractionItem)) :
  reach (depth self) ex ex' -> same_file self s ->
  phase_ok s ex' r -> phase_ok self ex r.
Proof.
  intros Hr Hs [H1 H2]. destruct Hs as (Hd & Hrest). rewrite Hd in H1. split.
  - by eapply reach_trans.
  - destruct r as [[b s'] e|e|e]; [|done..].
    eapply same_file_trans; [|exact H2]. by split.
Qed.

Lemma rbind_phase_ok {A B} (self : ExtractionItem) (ex : Extractor)
    (r : result A) (k : A -> Extractor -> result (B * ExtractionItem)) :
  reach (depth self) ex (final r) ->
  (forall a ex', r = Ok a ex' -> phase_ok self ex' (k a ex')) ->
  phase_ok self ex (rbind r k).
Proof.
  intros Hr Hk. destruct r as [a ex'|ex'|ex']; cbn [rbind final] in *;
    [|by split..].
  destruct (Hk a ex' eq_refl) as [H1 H2]. split; [|done].
  by eapply reach_trans.
Qed.

Section Reach.
Variable L : Libraries.
Variable rec : ExtractionItem -> Extractor -> result bool.
Hypothesis rec_reach :
  forall it ex, reach (depth it) ex (final (rec it ex)).

Lemma carve_reach (self : ExtractionItem) (ex : Extractor) (off size : Z) :
  depth self <= RECURSION_DEPTH ->
  reach (depth self) ex (final (carve L rec self ex off size)).
Proof.
  intros Hd. unfold carve, mkstemp.
  eapply reach_trans; [apply reach_prim; [done|apply prim_tmp]|].
  destruct (io_dd (data self) off size) as [bs|]; [|apply rtc_refl].
  eapply reach_trans; [apply reach_prim; [done|apply prim_carved]|].
  apply (rec_reach (new_item L (bump_tmp ex) _ bs (depth self))).
Qed.

Lemma firmware_entry_ok (self : ExtractionItem) (ex : Extractor) (e : Entry) :
  depth self <= RECURSION_DEPTH ->
  phase_ok self ex (firmware_entry L rec self ex e).
Proof.
  intros Hd. unfold firmware_entry.
  repeat match goal with
         | |- phase_ok _ _ (if ?b then _ else _) => destruct b
         | |- phase_ok _ _ (match ?o with Some _ => _ | None => _ end) =>
             destruct o
         | |- phase_ok _ _ (Ok (_, self) _) => apply phase_ok_refl
         | |- phase_ok _ _ (Exn _) => apply phase_ok_exn
         end.
  - apply rbind_phase_ok; [by apply carve_reach|].
    intros b ex' _. apply phase_ok_refl.
  - apply rbind_phase_ok; [by apply carve_reach|]. intros _ ex1 _.
    apply rbind_phase_ok; [by apply carve_reach|]. intros _ ex2 _.
    apply phase_ok_same, same_file_status.
Qed.

(** A loop whose round either returns or hands the item on. *)
Lemma loop_round_ok {B C} (self : ExtractionItem) (ex : Extractor)
    (r : result (option B * ExtractionItem))
    (stop : B -> ExtractionItem -> C * ExtractionItem)
    (next : ExtractionItem -> Extractor -> result (C * ExtractionItem)) :
  phase_ok self ex r ->
  (forall b s, (stop b s).2 = s) ->
  (forall s ex', same_file self s -> reach (depth self) ex ex' ->
                 phase_ok s ex' (next s ex')) ->
  phase_ok self ex
    (rbind r (fun r ex' => match r.1 with
                           | Some b => Ok (stop b r.2) ex'
                           | None => next r.2 ex'
                           end)).
Proof.
  intros [Hr Hs] Hstop Hnext.
  destruct r as [[[b|] s] ex'|ex'|ex']; cbn [rbind final fst snd] in *;
    [| |by split..].
  - split; [done|]. destruct (stop b s) as [c s'] eqn:Heq.
    specialize (Hstop b s). rewrite Heq in Hstop. cbn in Hstop. by subst.
  - eapply phase_ok_step; [exact Hr|exact Hs|]. by apply Hnext.
Qed.

Lemma firmware_entries_ok (es : list Entry) (self : ExtractionItem)
    (ex : Extractor) :
  depth self <= RECURSION_DEPTH ->
  phase_ok self ex (firmware_entries L rec self ex es).
Proof.
  revert self ex. induction es as [|e es IH]; intros self ex Hd;
    cbn [firmware_entries]; [apply phase_ok_refl|].
  apply (loop_round_ok self ex _ (fun b s => (Some b, s))
           (fun s ex' => firmware_entries L rec s ex' es));
    [by apply firmware_entry_ok|done|].
  intros s ex' (Hs & _) _. apply IH. lia.
Qed.

Lemma firmware_modules_ok (ms : list ScanModule) (self : ExtractionItem)
    (ex : Extractor) :
  depth self <= RECURSION_DEPTH ->
  phase_ok self ex (firmware_modules L rec self ex ms).
Proof.
  revert self ex. induction ms as [|m ms IH]; intros self ex Hd;
    cbn [firmware_modules]; [apply phase_ok_refl|].
  apply (loop_round_ok self ex _ (fun b s => (Some b, s))
           (fun s ex' => firmware_modules L rec s ex' ms));
    [by apply firmware_entries_ok|done|].
  intros s ex' (Hs & _) _. apply IH. lia.
Qed.

Lemma _check_firmware_ok (self : ExtractionItem) (ex : Extractor) :
  depth self <= RECURSION_DEPTH ->
  phase_ok self ex (_check_firmware L rec self ex).
Proof.
  intros Hd. unfold _check_firmware.
  destruct (firmware_modules_ok
              (binwalk_scan L (default EmptyString (temp self)) (item self) (data self) Header)
              self ex Hd) as [Hr Hs].
  destruct (firmware_modules L rec self ex _) as [[r self'] ex'|ex'|ex'];
    cbn [rbind final fst snd] in *; by split.
Qed.

Lemma _check_encryption_ok (self : ExtractionItem) (ex : Extractor) :
  phase_ok self ex (_check_encryption self ex).
Proof.
  unfold _check_encryption. destruct (bytes_eqb _ _); apply phase_ok_refl.
Qed.

Lemma kernel_entries_ok (es : list Entry) (self : ExtractionItem)
    (ex : Extractor) :
  depth self <= RECURSION_DEPTH ->
  phase_ok self ex (kernel_entries self ex es).
Proof.
  intros Hd. induction es as [|e es IH]; cbn [kernel_entries];
    [apply phase_ok_refl|].
  destruct (Py.contains "kernel version" _); [|done].
  destruct (Py.contains "Linux" _); [|apply phase_ok_refl].
  destruct (get_kernel_path ex).
  - split; [|apply same_file_refl]. apply reach_prim; [done|apply prim_kernel].
  - split; [|apply same_file_refl]. apply reach_prim; [done|apply prim_no_kernel].
Qed.

Lemma _check_kernel_ok (self : ExtractionItem) (ex : Extractor) :
  depth self <= RECURSION_DEPTH ->
  phase_ok self ex (_check_kernel L self ex).
Proof.
  intros Hd. unfold _check_kernel.
  destruct (negb _); [|apply phase_ok_refl].
  destruct (binwalk_scan L _ _ _ Kernel) as [|m ms]; [apply phase_ok_refl|].
  by apply kernel_entries_ok.
Qed.

Lemma _check_rootfs_ok (self : ExtractionItem) (ex : Extractor) :
  depth self <= RECURSION_DEPTH ->
  phase_ok self ex (_check_rootfs L self ex).
Proof.
  intros Hd. unfold _check_rootfs.
  destruct (negb _); [|apply phase_ok_refl].
  induction (binwalk_scan L _ _ _ Filesystem) as [|m ms IH];
    cbn [rootfs_modules]; [apply phase_ok_refl|].
  destruct (directory m) as [[dir tree]|]; [|done].
  destruct (negb _); [apply phase_ok_refl|].
  split; [|apply same_file_refl]. apply reach_prim; [done|apply prim_rootfs].
Qed.

Lemma walked_child_reach (self : ExtractionItem) (ex : Extractor)
    (path : string) (d : list byte) :
  depth self <= RECURSION_DEPTH ->
  reach (depth self) ex
    (final (rec (new_item L ex path d (S (depth self)))
                (log (EvNew Walked path (S (depth self))) ex))).
Proof.
  intros Hd.
  eapply reach_trans; [apply reach_prim; [done|apply prim_walked]|].
  apply (reach_mono _ (S (depth self))); [lia|].
  apply (rec_reach (new_item L ex path d (S (depth self)))).
Qed.

Lemma walk_files_ok (root : string) (fdata : list (string * list byte))
    (files : list string) (self : ExtractionItem) (ex : Extractor)
    (count : nat) :
  depth self <= RECURSION_DEPTH ->
  phase_ok self ex (walk_files L rec self ex root fdata files count).
Proof.
  revert self ex count.
  induction files as [|filename files IH]; intros self ex count Hd;
    cbn [walk_files]; [apply phase_ok_refl|].
  destruct (RECURSION_BREADTH <? count)%nat.
  { apply phase_ok_same, same_file_terminate. }
  destruct (read_file fdata filename) as [d|]; [|apply phase_ok_exn].
  apply rbind_phase_ok; [by apply walked_child_reach|].
  intros done ex' _. destruct done.
  - destruct (get_status (update_status ex' self)).
    + apply phase_ok_same, same_file_status.
    + eapply phase_ok_step; [apply rtc_refl|apply (same_file_status ex')|].
      by apply IH.
  - by apply IH.
Qed.

Lemma walk_dirs_ok (desc : option string)
    (dirs : list (string * list (string * list byte)))
    (self : ExtractionItem) (ex : Extractor) (count : nat) :
  depth self <= RECURSION_DEPTH ->
  phase_ok self ex (walk_dirs L rec self ex desc dirs count).
Proof.
  revert self ex count.
  induction dirs as [|[root fdata] dirs IH]; intros self ex count Hd;
    cbn [walk_dirs]; [apply phase_ok_refl|].
  destruct (order_files desc (map fst fdata)) as [files|]; [|apply phase_ok_exn].
  destruct (walk_files_ok root fdata files self ex count Hd) as [Hr Hs].
  destruct (walk_files L rec self ex root fdata files count)
    as [[[r c] self'] ex'|ex'|ex']; cbn [rbind final fst snd] in *; [|by split..].
  destruct r as [b|]; [by split|].
  eapply phase_ok_step; [exact Hr|exact Hs|]. apply IH.
  destruct Hs as [-> _]. done.
Qed.

Lemma recursive_modules_ok (ms : list ScanModule) (desc : option string)
    (self : ExtractionItem) (ex : Extractor) :
  depth self <= RECURSION_DEPTH ->
  phase_ok self ex (recursive_modules L rec self ex desc ms).
Proof.
  revert desc self ex.
  induction ms as [|m ms IH]; intros desc self ex Hd;
    cbn [recursive_modules]; [apply phase_ok_refl|].
  destruct (directory m) as [[dir tree]|]; [|by apply IH].
  destruct (io_find_rootfs dir tree true).1.
  { split; [|apply same_file_refl]. apply reach_prim; [done|apply prim_rootfs]. }
  destruct (walk_dirs_ok (first_description desc (results m)) (os_walk dir tree)
              self ex 0 Hd) as [Hr Hs].
  destruct (walk_dirs L rec self ex _ _ 0)
    as [[[r c] self'] ex'|ex'|ex']; cbn [rbind final fst snd] in *; [|by split..].
  destruct r as [b|]; [by split|].
  eapply phase_ok_step; [exact Hr|exact Hs|]. apply IH.
  destruct Hs as [-> _]. done.
Qed.

Lemma analyses_ok :
  Forall (fun analysis => forall self ex, depth self <= RECURSION_DEPTH ->
            phase_ok self ex (analysis self ex))
         (analyses L rec).
Proof.
  unfold analyses.
  repeat (apply List.Forall_cons; [intros s e Hd|]); [..|apply List.Forall_nil].
  - by apply recursive_modules_ok.
  - apply _check_encryption_ok.
  - by apply _check_firmware_ok.
  - by apply _check_kernel_ok.
  - by apply _check_rootfs_ok.
  - by apply recursive_modules_ok.
Qed.

Lemma cascade_reach
    (phases : list (ExtractionItem -> Extractor -> result (bool * ExtractionItem)))
    (self : ExtractionItem) (ex : Extractor) :
  Forall (fun analysis => forall self ex, depth self <= RECURSION_DEPTH ->
            phase_ok self ex (analysis self ex)) phases ->
  depth self <= RECURSION_DEPTH ->
  reach (depth self) ex (final (cascade phases self ex)).
Proof.
  intros Hall. revert self ex.
  induction Hall as [|analysis phases Ha _ IH]; intros self ex Hd;
    cbn [cascade]; [apply rtc_refl|].
  destruct (Ha self ex Hd) as [Hr Hs].
  destruct (analysis self ex) as [[b self'] ex'|ex'|ex']; cbn [final] in *;
    [|done..].
  destruct Hs as (Hdep & _).
  destruct b.
  - destruct (get_status (update_status ex' self')); [done|].
    eapply reach_trans; [exact Hr|]. rewrite <- Hdep.
    apply (IH (update_status ex' self')). cbn. lia.
  - eapply reach_trans; [exact Hr|]. rewrite <- Hdep. apply IH. lia.
Qed.

Lemma extract_body_reach (self : ExtractionItem) (ex : Extractor) :
  reach (depth self) ex (final (extract_body L rec self ex)).
Proof.
  unfold extract_body.
  destruct (get_status self); [apply rtc_refl|].
  destruct (RECURSION_DEPTH <? depth self)%nat eqn:Hd; [apply rtc_refl|].
  apply Nat.ltb_ge in Hd.
  destruct (bool_decide (checksum self ∈ visited ex)) eqn:Hv; [apply rtc_refl|].
  apply bool_decide_eq_false in Hv.
  eapply reach_trans; [apply reach_prim; [done|by apply prim_visit]|].
  destruct (_check_blacklist L self); [apply rtc_refl|].
  unfold mkdtemp.
  eapply reach_trans; [apply reach_prim; [done|apply prim_tmp]|].
  eapply reach_trans; [apply reach_prim; [done|apply prim_scratch]|].
  apply (cascade_reach _ (set_temp _ self)); [apply analyses_ok|done].
Qed.

End Reach.

(** Whatever the fuel and however the run ends, the job state was reached
    by atomic effects of items at the depth of [self] or deeper. *)
Lemma extract_reach (L : Libraries) (fuel : nat) (self : ExtractionItem)
    (ex : Extractor) :
  reach (depth self) ex (final (extract L fuel self ex)).
Proof.
  revert self ex. induction fuel as [|fuel IH]; intros self ex; cbn [extract].
  - apply rtc_refl.
  - by apply extract_body_reach.
Qed.

(** ** What the effects do to the trace and to the visited set *)

Lemma trace_archive_rootfs (root : string) (ex : Extractor) :
  trace (archive_rootfs root ex) = trace ex
  /\ visited (archive_rootfs root ex) = visited ex.
Proof. unfold archive_rootfs. by destruct (output ex). Qed.

Lemma prim_trace (d : nat) (a b : Extractor) :
  d <= RECURSION_DEPTH -> prim d a b ->
  exists new, trace b = (new ++ trace a)%list /\ Forall (event_below d) new.
Proof.
  intros Hd [c ex Hc|ex|p ex|p ex|p ex|bs ex|ex|root ex]; cbn [trace visited_add log bump_tmp
    write_kernel set_do_kernel].
  - exists [EvVisit c]. split; [done|]. by apply Forall_singleton.
  - by exists [].
  - exists [EvScratch p d]. split; [done|]. apply Forall_singleton. cbn. lia.
  - exists [EvNew Carved p d]. split; [done|]. apply Forall_singleton. cbn. lia.
  - exists [EvNew Walked p (S d)]. split; [done|]. apply Forall_singleton. cbn. lia.
  - by exists [].
  - by exists [].
  - exists []. split; [|done]. by destruct (trace_archive_rootfs root ex) as [-> _].
Qed.

Lemma event_below_mono (d d' : nat) (e : event) :
  d <= d' -> event_below d' e -> event_below d e.
Proof. intros Hle. destruct e as [[] p k|c|p k]; cbn; lia. Qed.

Lemma reach_trace (d : nat) (a b : Extractor) :
  reach d a b ->
  exists new, trace b = (new ++ trace a)%list /\ Forall (event_below d) new.
Proof.
  induction 1 as [x|x y z (k & Hk1 & Hk2 & Hp) _ (new2 & Heq2 & Hall2)].
  - by exists [].
  - destruct (prim_trace k x y Hk2 Hp) as (new1 & Heq1 & Hall1).
    exists (new2 ++ new1)%list. split.
    + by rewrite Heq2, Heq1, app_assoc.
    + apply Forall_app. split; [done|].
      eapply Forall_impl; [exact Hall1|]. intros e. by apply event_below_mono.
Qed.

Lemma prim_visited (d : nat) (a b : Extractor) :
  prim d a b -> visited a ⊆ visited b.
Proof.
  intros [c ex Hc|ex|p ex|p ex|p ex|bs ex|ex|root ex]; cbn [visited visited_add log
    bump_tmp write_kernel set_do_kernel]; try set_solver.
  by destruct (trace_archive_rootfs root ex) as [_ ->].
Qed.

Lemma reach_visited (d : nat) (a b : Extractor) :
  reach d a b -> visited a ⊆ visited b.
Proof.
  induction 1 as [x|x y z (k & _ & _ & Hp) _ IH]; [done|].
  apply prim_visited in Hp. set_solver.
Qed.

Lemma prim_consistent (d : nat) (a b : Extractor) :
  prim d a b -> visited_consistent a -> visited_consistent b.
Proof.
  unfold visited_consistent.
  intros [c ex Hc|ex|p ex|p ex|p ex|bs ex|ex|root ex] [Hnd Hsub];
    cbn [trace visited visited_add log bump_tmp write_kernel set_do_kernel visits];
    try done.
  - split.
    + constructor; [|done]. intros Hin. by apply Hc, Hsub.
    + intros c' Hin. apply elem_of_cons in Hin as [->|Hin]; [set_solver|].
      specialize (Hsub c' Hin). set_solver.
  - by destruct (trace_archive_rootfs root ex) as [-> ->].
Qed.

Lemma reach_consistent (d : nat) (a b : Extractor) :
  reach d a b -> visited_consistent a -> visited_consistent b.
Proof.
  induction 1 as [x|x y z (k & _ & _ & Hp) _ IH]; [done|].
  intros Hx. apply IH. by eapply prim_consistent.
Qed.

(** A seed is logged and extracted; the job goes on whatever it returns. *)
Lemma extract_items_final (L : Libraries) (fuel : nat)
    (seeds : list (string * list byte)) (ex : Extractor)
    (P : Extractor -> Extractor -> Prop) :
  (forall a, P a a) ->
  (forall a b c, P a b -> P b c -> P a c) ->
  (forall a p, P a (log (EvNew Seed p 0) a)) ->
  (forall a b, reach 0 a b -> P a b) ->
  P ex (final (extract_items L fuel seeds ex)).
Proof.
  intros Hrefl Htrans Hseed Hreach. revert ex.
  induction seeds as [|[path d] seeds IH]; intros ex; cbn [extract_items final];
    [done|].
  pose proof (extract_reach L fuel (new_item L ex path d 0) (log (EvNew Seed path 0) ex))
    as Hr. apply Hreach in Hr.
  destruct (extract L fuel (new_item L ex path d 0) (log (EvNew Seed path 0) ex))
    as [b ex'|ex'|ex']; cbn [rbind final] in *.
  - eapply Htrans; [apply Hseed|]. eapply Htrans; [exact Hr|]. apply IH.
  - eapply Htrans; [apply Hseed|]. exact Hr.
  - eapply Htrans; [apply Hseed|]. exact Hr.
Qed.

(** ** The depth bound *)


Lemma event_below_scratch (d : nat) (e : event) :
  event_below d e -> scratch_depth_ok e.
Proof. destruct e as [[] p k|c|p k]; cbn; try done. lia. Qed.

(** C7. A node deeper than [RECURSION_DEPTH] = 3 is not analysed:
    [extract] returns its completion status and leaves the job as it was (no
    scratch directory, no phase).  For every node and every fuel the events
    of a run are those of items at the node's depth or deeper (carved
    children at the depth of their parent, walked children one deeper), and
    every scratch directory -- every cascade -- belongs to a node of depth at
    most 3; so it is in every job. *)
Theorem depth_bound (L : Libraries) (fuel : nat) (self : ExtractionItem)
    (ex : Extractor) (input : string) (n : option fsnode) :
  (RECURSION_DEPTH < depth self ->
   extract L (S fuel) self ex = Ok (get_status self) ex)
  /\ (exists new,
        trace (final (extract L fuel self ex)) = (new ++ trace ex)%list
        /\ Forall (event_below (depth self)) new
        /\ forall p d, EvScratch p d ∈ new -> d <= RECURSION_DEPTH)
  /\ (exists new,
        trace (final (Extractor_extract L fuel input n ex)) = (new ++ trace ex)%list
        /\ forall p d, EvScratch p d ∈ new -> d <= RECURSION_DEPTH).
Proof.
  split; [|split].
  - intros Hd. cbn [extract]. unfold extract_body.
    destruct (get_status self); [done|].
    apply Nat.ltb_lt in Hd. by rewrite Hd.
  - destruct (reach_trace _ _ _ (extract_reach L fuel self ex)) as (new & Heq & Hall).
    exists new. split; [done|]. split; [done|].
    intros p d Hin. rewrite Forall_forall in Hall.
    apply (event_below_scratch _ _ (Hall _ Hin)).
  - unfold Extractor_extract.
    assert (exists new,
              trace (final (extract_items L fuel (input_list input n) ex))
              = (new ++ trace ex)%list /\ Forall scratch_depth_ok new)
      as (new & Heq & Hall).
    { apply (extract_items_final L fuel (input_list input n) ex
               (fun a b => exists new, trace b = (new ++ trace a)%list
                                       /\ Forall scratch_depth_ok new)).
      - intros a. by exists [].
      - intros a b c (n1 & H1 & F1) (n2 & H2 & F2). exists (n2 ++ n1)%list.
        split; [by rewrite H2, H1, app_assoc|]. apply Forall_app. by split.
      - intros a p. exists [EvNew Seed p 0]. split; [done|]. by apply Forall_singleton.
      - intros a b Hr. destruct (reach_trace _ _ _ Hr) as (new & Heq & Hall).
        exists new. split; [done|]. eapply Forall_impl; [exact Hall|].
        intros e. apply event_below_scratch. }
    exists new. split; [done|]. intros p d Hin. rewrite Forall_forall in Hall.
    apply (Hall _ Hin).
Qed.

Lemma depth_bound_witness :
  extract (octet_libs no_findings) 1
    (new_item (octet_libs no_findings) fresh_job "/tmp/tmp3/deep.bin" (bytes "FW") 4)
    fresh_job
  = Ok false fresh_job.
Proof.
  destruct (depth_bound (octet_libs no_findings) 0
              (new_item (octet_libs no_findings) fresh_job "/tmp/tmp3/deep.bin"
                 (bytes "FW") 4)
              fresh_job EmptyString None) as [H _].
  apply H. vm_compute. lia.
Defined.

(** ** The breadth bound *)

Lemma children_walked_app (d : nat) (a b : list event) :
  children_walked d (a ++ b) = children_walked d a + children_walked d b.
Proof. unfold children_walked. by rewrite filter_app, length_app. Qed.

Lemma children_walked_below (d : nat) (new : list event) :
  Forall (event_below (S d)) new -> children_walked d new = 0.
Proof.
  unfold children_walked. induction 1 as [|e new He _ IH]; [done|].
  rewrite filter_cons. case_decide as Hw; [|done]. exfalso.
  destruct e as [[] p k|c|p k]; cbn in *; try done.
  apply Is_true_true, Nat.eqb_eq in Hw. lia.
Qed.

Section Breadth.
Variable L : Libraries.
Variable rec : ExtractionItem -> Extractor -> result bool.
Hypothesis rec_trace :
  forall it ex, exists new,
    trace (final (rec it ex)) = (new ++ trace ex)%list
    /\ Forall (event_below (depth it)) new.


Lemma walk_files_counted (root : string) (fdata : list (string * list byte))
    (files : list string) (self : ExtractionItem) (ex : Extractor)
    (count : nat) :
  loop_counted self ex count (walk_files L rec self ex root fdata files count).
Proof.
  revert self ex count.
  induction files as [|filename files IH]; intros self ex count;
    cbn [walk_files].
  { exists []. cbn. repeat split; lia. }
  destruct (RECURSION_BREADTH <? count)%nat eqn:Hc.
  { exists []. cbn. repeat split; lia. }
  apply Nat.ltb_ge in Hc.
  destruct (read_file fdata filename) as [d|]; [|exists []; cbn; repeat split; lia].
  set (path := Py.path_join root filename).
  set (ev := EvNew Walked path (S (depth self))).
  destruct (rec_trace (new_item L ex path d (S (depth self))) (log ev ex))
    as (new1 & Heq1 & Hall1).
  apply children_walked_below in Hall1.
  assert (children_walked (depth self) [ev] = 1) as Hev.
  { unfold children_walked, ev. rewrite filter_cons. cbn.
    rewrite Nat.eqb_refl. done. }
  assert (forall self' r,
            depth self' = depth self ->
            loop_counted self' (final (rec (new_item L ex path d (S (depth self)))
                                           (log ev ex))) (S count) r ->
            loop_counted self ex count r) as Hnext.
  { intros self' r Hdep (new2 & Heq2 & Hle2 & Hres). rewrite Hdep in *.
    exists (new2 ++ new1 ++ [ev])%list. split.
    - rewrite Heq2, Heq1. cbn. by rewrite <- !app_assoc.
    - rewrite !children_walked_app, Hall1, Hev. split; [lia|].
      destruct r as [[[[b|] c] s] e|e|e]; try done.
      destruct Hres as [-> ->]. split; [lia|done]. }
  assert (forall (r : result (option bool * nat * ExtractionItem)),
            final r = final (rec (new_item L ex path d (S (depth self))) (log ev ex)) ->
            match r with
            | Ok (None, _, _) _ => False
            | Ok (Some _, _, self') _ => depth self' = depth self
            | _ => True
            end ->
            loop_counted self ex count r) as Hstop.
  { intros r Hfin Hres. exists (new1 ++ [ev])%list. split.
    - rewrite Hfin, Heq1. cbn. by rewrite <- app_assoc.
    - rewrite children_walked_app, Hall1, Hev. split; [lia|].
      by destruct r as [[[[b|] c] s] e|e|e]. }
  destruct (rec (new_item L ex path d (S (depth self))) (log ev ex))
    as [done ex'|ex'|ex'] eqn:Hrec; cbn [rbind final] in *.
  - destruct done.
    + destruct (get_status (update_status ex' self)).
      * by apply Hstop.
      * apply (Hnext (update_status ex' self)); [done|]. apply IH.
    + apply (Hnext self); [done|]. apply IH.
  - by apply Hstop.
  - by apply Hstop.
Qed.

Lemma walk_dirs_counted (desc : option string)
    (dirs : list (string * list (string * list byte)))
    (self : ExtractionItem) (ex : Extractor) (count : nat) :
  loop_counted self ex count (walk_dirs L rec self ex desc dirs count).
Proof.
  revert self ex count.
  induction dirs as [|[root fdata] dirs IH]; intros self ex count;
    cbn [walk_dirs].
  { exists []. cbn. repeat split; lia. }
  destruct (order_files desc (map fst fdata)) as [files|];
    [|exists []; cbn; repeat split; lia].
  destruct (walk_files_counted root fdata files self ex count)
    as (new1 & Heq1 & Hle1 & Hres1).
  destruct (walk_files L rec self ex root fdata files count)
    as [[[r c] self'] ex'|ex'|ex']; cbn [rbind final fst snd] in *.
  - destruct r as [b|].
    + exists new1. by repeat split.
    + destruct Hres1 as [-> Hdep].
      destruct (IH self' ex' (count + children_walked (depth self) new1))
        as (new2 & Heq2 & Hle2 & Hres2). rewrite Hdep in *.
      exists (new2 ++ new1)%list. split; [by rewrite Heq2, Heq1, app_assoc|].
      rewrite children_walked_app. split; [lia|].
      destruct (walk_dirs L rec self' ex' desc dirs _)
        as [[[[b|] c'] s] e|e|e]; try done.
      destruct Hres2 as [-> ->]. split; [lia|done].
  - exists new1. by repeat split.
  - exists new1. by repeat split.
Qed.

Lemma walk_files_exact (root : string) (fdata : list (string * list byte))
    (files : list string) (self : ExtractionItem) (ex : Extractor)
    (count : nat) :
  loop_exact self ex count (walk_files L rec self ex root fdata files count).
Proof.
  revert self ex count.
  induction files as [|filename files IH]; intros self ex count;
    cbn [walk_files].
  { exists []. cbn. repeat split; lia. }
  destruct (RECURSION_BREADTH <? count)%nat eqn:Hc.
  { apply Nat.ltb_lt in Hc. exists []. cbn. split; [done|]. split; [done|].
    right. lia. }
  destruct (read_file fdata filename) as [d|]; [|by exists []].
  set (path := Py.path_join root filename).
  set (ev := EvNew Walked path (S (depth self))).
  destruct (rec_trace (new_item L ex path d (S (depth self))) (log ev ex))
    as (new1 & Heq1 & Hall1).
  apply children_walked_below in Hall1.
  assert (children_walked (depth self) [ev] = 1) as Hev.
  { unfold children_walked, ev. rewrite filter_cons. cbn.
    rewrite Nat.eqb_refl. done. }
  assert (forall self' r,
            depth self' = depth self -> terminate self' = terminate self ->
            loop_exact self' (final (rec (new_item L ex path d (S (depth self)))
                                         (log ev ex))) (S count) r ->
            loop_exact self ex count r) as Hnext.
  { intros self' r Hdep Hterm (new2 & Heq2 & Hres). rewrite Hdep, Hterm in *.
    exists (new2 ++ new1 ++ [ev])%list. split.
    - rewrite Heq2, Heq1. cbn. by rewrite <- !app_assoc.
    - rewrite !children_walked_app, Hall1, Hev.
      destruct r as [[[[b|] c] s] e|e|e]; try done.
      + destruct Hres as [Hd [Ht|Ht]]; (split; [done|]); [by left|right; lia].
      + destruct Hres as (-> & Hd & Ht). repeat split; [lia|done|done]. }
  assert (forall b c ex',
            ex' = final (rec (new_item L ex path d (S (depth self))) (log ev ex)) ->
            loop_exact self ex count (Ok (Some b, c, update_status ex' self) ex'))
    as Hstop.
  { intros b c ex' ->. exists (new1 ++ [ev])%list. split.
    - cbn [final]. rewrite Heq1. cbn. by rewrite <- app_assoc.
    - split; [done|]. by left. }
  destruct (rec (new_item L ex path d (S (depth self))) (log ev ex))
    as [done ex'|ex'|ex'] eqn:Hrec; cbn [rbind final] in *.
  - destruct done.
    + destruct (get_status (update_status ex' self)).
      * by apply Hstop.
      * apply (Hnext (update_status ex' self)); [done|done|]. apply IH.
    + apply (Hnext self); [done|done|]. apply IH.
  - exists (new1 ++ [ev])%list. split; [|done].
    cbn [final]. rewrite Heq1. cbn. by rewrite <- app_assoc.
  - exists (new1 ++ [ev])%list. split; [|done].
    cbn [final]. rewrite Heq1. cbn. by rewrite <- app_assoc.
Qed.

Lemma walk_dirs_exact (desc : option string)
    (dirs : list (string * list (string * list byte)))
    (self : ExtractionItem) (ex : Extractor) (count : nat) :
  loop_exact self ex count (walk_dirs L rec self ex desc dirs count).
Proof.
  revert self ex count.
  induction dirs as [|[root fdata] dirs IH]; intros self ex count;
    cbn [walk_dirs].
  { exists []. cbn. repeat split; lia. }
  destruct (order_files desc (map fst fdata)) as [files|]; [|by exists []].
  destruct (walk_files_exact root fdata files self ex count)
    as (new1 & Heq1 & Hres1).
  destruct (walk_files L rec self ex root fdata files count)
    as [[[r c] self'] ex'|ex'|ex']; cbn [rbind final fst snd] in *.
  - destruct r as [b|].
    + exists new1. by split.
    + destruct Hres1 as (-> & Hdep & Hterm).
      destruct (IH self' ex' (count + children_walked (depth self) new1))
        as (new2 & Heq2 & Hres2). rewrite Hdep, Hterm in *.
      exists (new2 ++ new1)%list. split; [by rewrite Heq2, Heq1, app_assoc|].
      rewrite children_walked_app.
      destruct (walk_dirs L rec self' ex' desc dirs _)
        as [[[[b|] c'] s] e|e|e]; try done.
      * destruct Hres2 as [Hd [Ht|Ht]]; (split; [done|]); [by left|right; lia].
      * destruct Hres2 as (-> & Hd & Ht). repeat split; [lia|done|done].
  - exists new1. by split.
  - exists new1. by split.
Qed.
End Breadth.

Lemma extract_trace (L : Libraries) (fuel : nat) (it : ExtractionItem)
    (ex : Extractor) :
  exists new,
    trace (final (extract L fuel it ex)) = (new ++ trace ex)%list
    /\ Forall (event_below (depth it)) new.
Proof. apply reach_trace, extract_reach. Qed.

(** C1 (as amended). Of the files of one extracted container directory, at
    most [RECURSION_BREADTH + 1] = 6 are turned into items and recursed
    into, whatever the fuel and however the walk ends.  A file met with
    the counter at 0, ..., 5 is built as a child one level deeper and
    recursed into, and the loop goes on with the counter one higher; a file
    met with the counter above 5 is not built: the loop sets [terminate]
    and returns [True].  So the walk sets [terminate] only after it built
    six children, when it meets a seventh file. *)
Theorem container_breadth (L : Libraries) (fuel : nat) (self : ExtractionItem)
    (ex : Extractor) (desc : option string) (dir : string) (tree : fsnode) :
  (exists new,
     trace (final (walk_dirs L (extract L fuel) self ex desc (os_walk dir tree) 0))
     = (new ++ trace ex)%list
     /\ children_walked (depth self) new <= S RECURSION_BREADTH
     /\ forall b c self' ex',
          walk_dirs L (extract L fuel) self ex desc (os_walk dir tree) 0
          = Ok (b, c, self') ex' ->
          terminate self' = true ->
          terminate self = true
          \/ children_walked (depth self) new = S RECURSION_BREADTH)
  /\ (forall s e root fdata filename rest count d,
        count <= RECURSION_BREADTH ->
        read_file fdata filename = Some d ->
        walk_files L (extract L fuel) s e root fdata (filename :: rest) count
        = rbind (extract L fuel
                   (new_item L e (Py.path_join root filename) d (S (depth s)))
                   (log (EvNew Walked (Py.path_join root filename) (S (depth s))) e))
            (fun done ex' =>
               if done then
                 if get_status (update_status ex' s)
                 then Ok (Some true, count, update_status ex' s) ex'
                 else walk_files L (extract L fuel) (update_status ex' s) ex'
                        root fdata rest (S count)
               else walk_files L (extract L fuel) s ex' root fdata rest (S count)))
  /\ (forall s e root fdata filename rest count,
        RECURSION_BREADTH < count ->
        walk_files L (extract L fuel) s e root fdata (filename :: rest) count
        = Ok (Some true, count, set_terminate true s) e).
Proof.
  split; [|split].
  - destruct (walk_dirs_counted L (extract L fuel) (extract_trace L fuel) desc
                (os_walk dir tree) self ex 0) as (new & Heq & Hle & _).
    destruct (walk_dirs_exact L (extract L fuel) (extract_trace L fuel) desc
                (os_walk dir tree) self ex 0) as (new' & Heq' & Hres).
    assert (new' = new) as ->.
    { rewrite Heq in Heq'. by apply app_inv_tail in Heq'. }
    exists new. split; [done|]. split; [lia|].
    intros b c self' ex' Hwalk Hterm. rewrite Hwalk in Hres.
    destruct b as [b|].
    + destruct Hres as [_ [Ht|Ht]]; [left; congruence|right].
      unfold RECURSION_BREADTH in *. lia.
    + destruct Hres as (_ & _ & Ht). left. congruence.
  - intros s e root fdata filename rest count d Hc Hread. cbn [walk_files].
    apply Nat.ltb_ge in Hc. by rewrite Hc, Hread.
  - intros s e root fdata filename rest count Hc. cbn [walk_files].
    apply Nat.ltb_lt in Hc. by rewrite Hc.
Qed.

(** With the bound read as 5 the claim fails: of eight unrelated files the
    first six are recursed into. *)
Lemma breadth_claim_fails : ~ breadth_claim tar_libs.
Proof.
  intros H.
  specialize (H 1 tar_firmware fresh_job None "/tmp/tmp0/_fw.tar.extracted"
                eight_files
                (trace (final (walk_dirs tar_libs (extract tar_libs 1) tar_firmware
                                 fresh_job None
                                 (os_walk "/tmp/tmp0/_fw.tar.extracted" eight_files)
                                 0)))).
  assert (6 <= RECURSION_BREADTH) as Habs; [|vm_compute in Habs; lia].
  etrans; [|apply H].
  - vm_compute. lia.
  - by rewrite app_nil_r.
Qed.

(** C6. In the file loop of a container the child met with the counter at
    0, ..., 5 is built and recursed into; a child met with the counter
    above [RECURSION_BREADTH] = 5 is not processed: the loop sets
    [terminate], returns [True] and leaves the job as it was, and the
    phase returns that [True].  So at most 6 children of one container
    are attempted. *)
Theorem breadth_terminate (L : Libraries) (fuel : nat) (self : ExtractionItem)
    (ex : Extractor) (root : string) (fdata : list (string * list byte))
    (filename : string) (rest : list string) (count : nat) (d : list byte) :
  (count <= RECURSION_BREADTH -> read_file fdata filename = Some d ->
   exists new,
     trace (final (walk_files L (extract L fuel) self ex root fdata
                     (filename :: rest) count))
     = (new ++ EvNew Walked (Py.path_join root filename) (S (depth self))
            :: trace ex)%list)
  /\ (RECURSION_BREADTH < count ->
      walk_files L (extract L fuel) self ex root fdata (filename :: rest) count
      = Ok (Some true, count, set_terminate true self) ex
      /\ get_status (set_terminate true self) = true)
  /\ (forall desc dirs, exists new,
        trace (final (walk_dirs L (extract L fuel) self ex desc dirs 0))
        = (new ++ trace ex)%list
        /\ children_walked (depth self) new <= 6)
  /\ (forall desc m ms dir tree c self' ex',
        directory m = Some (dir, tree) ->
        (io_find_rootfs dir tree true).1 = false ->
        walk_dirs L (extract L fuel) self ex (first_description desc (results m))
          (os_walk dir tree) 0
        = Ok (Some true, c, self') ex' ->
        recursive_modules L (extract L fuel) self ex desc (m :: ms)
        = Ok (true, self') ex').
Proof.
  split; [|split; [|split]].
  - intros Hc Hread. cbn [walk_files].
    apply Nat.ltb_ge in Hc. rewrite Hc, Hread.
    set (path := Py.path_join root filename).
    set (ev := EvNew Walked path (S (depth self))).
    destruct (extract_trace L fuel (new_item L ex path d (S (depth self))) (log ev ex))
      as (new1 & Heq1 & _).
    destruct (extract L fuel (new_item L ex path d (S (depth self))) (log ev ex))
      as [done ex'|ex'|ex']; cbn [rbind final] in *; [|by exists new1..].
    assert (forall s, exists new,
              trace (final (walk_files L (extract L fuel) s ex' root fdata rest
                              (S count)))
              = (new ++ ev :: trace ex)%list) as Hrest.
    { intros s.
      destruct (walk_files_counted L (extract L fuel) (extract_trace L fuel)
                  root fdata rest s ex' (S count)) as (new2 & Heq2 & _).
      exists (new2 ++ new1)%list. by rewrite Heq2, Heq1, app_assoc. }
    destruct done; [|apply Hrest].
    destruct (get_status (update_status ex' self)); [by exists new1|apply Hrest].
  - intros Hc. cbn [walk_files]. apply Nat.ltb_lt in Hc. rewrite Hc.
    split; [done|]. unfold get_status. done.
  - intros desc dirs.
    destruct (walk_dirs_counted L (extract L fuel) (extract_trace L fuel) desc
                dirs self ex 0) as (new & Heq & Hle & _).
    exists new. split; [done|]. unfold RECURSION_BREADTH in Hle. lia.
  - intros desc m ms dir tree c self' ex' Hdir Hroot Hwalk.
    cbn [recursive_modules]. by rewrite Hdir, Hroot, Hwalk.
Qed.

Lemma breadth_terminate_witness :
  (exists new,
     trace (final (walk_files tar_libs (extract tar_libs 1) tar_firmware fresh_job
                     "/x" [("a", bytes "0")] ["a"] 0))
     = (new ++ [EvNew Walked "/x/a" 1])%list)
  /\ walk_files tar_libs (extract tar_libs 1) tar_firmware fresh_job "/x"
       [("h", bytes "7")] ["h"] 6
     = Ok (Some true, 6, set_terminate true tar_firmware) fresh_job
  /\ _check_archive tar_libs (extract tar_libs 1) tar_firmware (bump_tmp fresh_job)
     = Ok (true, set_terminate true tar_firmware)
          (final (_check_archive tar_libs (extract tar_libs 1) tar_firmware
                    (bump_tmp fresh_job)))
  /\ children_walked 0
       (trace (final (_check_archive tar_libs (extract tar_libs 1) tar_firmware
                        (bump_tmp fresh_job)))) = 6.
Proof.
  destruct (breadth_terminate tar_libs 1 tar_firmware fresh_job "/x"
              [("a", bytes "0")] "a" [] 0 (bytes "0")) as (Ha & _ & _ & _).
  destruct (breadth_terminate tar_libs 1 tar_firmware fresh_job "/x"
              [("h", bytes "7")] "h" [] 6 (bytes "7")) as (_ & Hb & _ & _).
  split; [|split; [|split]].
  - apply Ha; [vm_compute; lia|reflexivity].
  - apply Hb. vm_compute. lia.
  - vm_compute. reflexivity.
  - vm_compute. reflexivity.
Defined.

(** ** The visited set *)

Lemma extract_visited_mono (L : Libraries) (fuel : nat) (it : ExtractionItem)
    (ex : Extractor) :
  visited ex ⊆ visited (final (extract L fuel it ex)).
Proof. eapply reach_visited, extract_reach. Qed.

Lemma extract_consistent (L : Libraries) (fuel : nat) (it : ExtractionItem)
    (ex : Extractor) :
  visited_consistent ex -> visited_consistent (final (extract L fuel it ex)).
Proof. eapply reach_consistent, extract_reach. Qed.

Lemma job_consistent (L : Libraries) (fuel : nat)
    (seeds : list (string * list byte)) (ex : Extractor) :
  visited_consistent ex ->
  visited_consistent (final (extract_items L fuel seeds ex)).
Proof.
  apply (extract_items_final L fuel seeds ex
           (fun a b => visited_consistent a -> visited_consistent b)).
  - done.
  - intros a b c Hab Hbc Ha. by apply Hbc, Hab.
  - intros a p Ha. exact Ha.
  - intros a b Hr. exact (reach_consistent _ _ _ Hr).
Qed.

Lemma job_visited_mono (L : Libraries) (fuel : nat)
    (seeds : list (string * list byte)) (ex : Extractor) :
  visited ex ⊆ visited (final (extract_items L fuel seeds ex)).
Proof.
  apply (extract_items_final L fuel seeds ex (fun a b => visited a ⊆ visited b)).
  - done.
  - intros a b c Hab Hbc. set_solver.
  - done.
  - intros a b Hr. exact (reach_visited _ _ _ Hr).
Qed.

(** An item whose digest is in the visited set is not examined. *)
Lemma extract_visited (L : Libraries) (fuel : nat) (it : ExtractionItem)
    (ex : Extractor) :
  checksum it ∈ visited ex ->
  extract L (S fuel) it ex = Ok (get_status it) ex.
Proof.
  intros Hin. cbn [extract]. unfold extract_body.
  destruct (get_status it); [done|].
  destruct (RECURSION_DEPTH <? depth it)%nat; [done|].
  by rewrite bool_decide_eq_true_2.
Qed.

(** C10. The digest of a node goes into the visited set before the
    blacklist is consulted: for a node that is not complete, at depth at
    most 3 and not yet visited, the digest is in the set when [extract]
    is over, however it ends, and in particular when the blacklist skips
    the node.  Any item with the same bytes met afterwards, at whatever
    path, is answered from the visited set: its completion status is
    returned and the job is left untouched, blacklisted or not.  The set
    only grows, and no digest is inserted twice, in a run of [extract] as
    in a whole job. *)
Theorem visited_before_blacklist (L : Libraries) (fuel : nat)
    (self : ExtractionItem) (ex : Extractor) :
  checksum self = md5 L (data self) ->
  get_status self = false ->
  depth self <= RECURSION_DEPTH ->
  checksum self ∉ visited ex ->
  let ex1 := final (extract L (S fuel) self ex) in
  checksum self ∈ visited ex1
  /\ (_check_blacklist L self = true ->
      extract L (S fuel) self ex
      = Ok (get_status self) (visited_add (checksum self) ex))
  /\ (forall (ex2 : Extractor) (path : string) (dep fuel2 : nat),
        visited ex1 ⊆ visited ex2 ->
        extract L (S fuel2) (new_item L ex2 path (data self) dep) ex2
        = Ok (get_status (new_item L ex2 path (data self) dep)) ex2)
  /\ (forall (it : ExtractionItem) (fuel2 : nat) (ex2 : Extractor),
        visited ex2 ⊆ visited (final (extract L fuel2 it ex2)))
  /\ (visited_consistent ex -> visited_consistent ex1)
  /\ (forall (input : string) (n : option fsnode) (outdir : option string)
             (rootfs kernel : bool) (kfile : option (list byte))
             (rfile : option string),
        NoDup (visits (trace (final (Extractor_extract L fuel input n
                 (Extractor_init outdir rootfs kernel kfile rfile)))))).
Proof.
  intros Hsum Hst Hd Hnew ex1.
  assert (extract L (S fuel) self ex
          = if _check_blacklist L self
            then Ok (get_status self) (visited_add (checksum self) ex)
            else cascade (analyses L (extract L fuel))
                   (set_temp (Some (mkdtemp L (visited_add (checksum self) ex)).1) self)
                   (log (EvScratch (mkdtemp L (visited_add (checksum self) ex)).1
                                   (depth self))
                        (mkdtemp L (visited_add (checksum self) ex)).2)) as Heq.
  { cbn [extract]. unfold extract_body. rewrite Hst.
    apply Nat.ltb_ge in Hd. rewrite Hd.
    rewrite bool_decide_eq_false_2 by done.
    by destruct (_check_blacklist L self). }
  assert (checksum self ∈ visited ex1) as Hin.
  { unfold ex1. rewrite Heq. destruct (_check_blacklist L self).
    - cbn. set_solver.
    - eapply (reach_visited (depth self)).
      + apply (cascade_reach (analyses L (extract L fuel)) (set_temp _ self));
          [apply analyses_ok; apply extract_reach|done].
      + cbn. set_solver. }
  split; [done|]. split.
  { intros Hb. by rewrite Heq, Hb. }
  split.
  { intros ex2 path dep fuel2 Hsub. apply extract_visited.
    cbn [new_item update_status set_status checksum]. rewrite <- Hsum. set_solver. }
  split.
  { intros it fuel2 ex2. apply extract_visited_mono. }
  split.
  { apply extract_consistent. }
  intros input n outdir rootfs kernel kfile rfile.
  apply (job_consistent L fuel (input_list input n)
           (Extractor_init outdir rootfs kernel kfile rfile)).
  split; [constructor|]. intros c Hc. by apply elem_of_nil in Hc.
Qed.

Lemma visited_before_blacklist_witness :
  "FW" ∈ visited job_after_disk_image
  /\ _check_blacklist demo_libs
       (new_item demo_libs job_after_disk_image "/in/fw.bin" (bytes "FW") 0) = false
  /\ extract demo_libs 1
       (new_item demo_libs job_after_disk_image "/in/fw.bin" (bytes "FW") 0)
       job_after_disk_image
     = Ok false job_after_disk_image.
Proof.
  destruct (visited_before_blacklist demo_libs 0 disk_image fresh_job)
    as (H1 & _ & H3 & _).
  - reflexivity.
  - reflexivity.
  - vm_compute. lia.
  - vm_compute. set_solver.
  - split; [exact H1|]. split; [reflexivity|].
    apply (H3 job_after_disk_image "/in/fw.bin" 0 0). done.
Defined.

(** ** Enough fuel: [extract] terminates *)

Lemma steady_const {A} (r : result A) : steady (fun _ => r).
Proof. by intros rec rec' _ _. Qed.

Lemma steady_call (it : ExtractionItem) (ex : Extractor) :
  steady (fun rec => rec it ex).
Proof. intros rec rec' Href Hret. by apply Href. Qed.

Lemma rbind_steady {A B}
    (g : (ExtractionItem -> Extractor -> result bool) -> result A)
    (k : (ExtractionItem -> Extractor -> result bool) ->
         A -> Extractor -> result B) :
  steady g -> (forall a ex, steady (fun rec => k rec a ex)) ->
  steady (fun rec => rbind (g rec) (k rec)).
Proof.
  intros Hg Hk rec rec' Href Hret.
  rewrite (Hg rec rec' Href); [|by destruct (g rec)].
  destruct (g rec) as [a ex|ex|ex]; cbn [rbind] in *; [|done..].
  by apply Hk.
Qed.

Section Steady.
Variable L : Libraries.

Lemma carve_steady (self : ExtractionItem) (ex : Extractor) (off size : Z) :
  steady (fun rec => carve L rec self ex off size).
Proof.
  unfold carve, mkstemp.
  destruct (io_dd (data self) off size); [apply steady_call|apply steady_const].
Qed.

Lemma firmware_entry_steady (self : ExtractionItem) (ex : Extractor) (e : Entry) :
  steady (fun rec => firmware_entry L rec self ex e).
Proof.
  unfold firmware_entry. cbv zeta.
  repeat match goal with
         | |- steady (fun rec => if ?b then _ else _) => destruct b
         | |- steady (fun rec => match ?o with Some _ => _ | None => _ end) =>
             destruct o
         | |- steady (fun rec => Ok _ _) => apply steady_const
         | |- steady (fun rec => Exn _) => apply steady_const
         end.
  - apply (rbind_steady (fun rec => carve L rec self ex _ _)
             (fun rec b ex' => Ok (Some b, self) ex'));
      [apply carve_steady|intros; apply steady_const].
  - apply (rbind_steady (fun rec => carve L rec self ex _ _)
             (fun rec _ ex1 => rbind (carve L rec self ex1 _ _) _));
      [apply carve_steady|]. intros _ ex1.
    apply (rbind_steady (fun rec => carve L rec self ex1 _ _)
             (fun rec _ ex2 => Ok _ ex2));
      [apply carve_steady|intros; apply steady_const].
Qed.

Lemma firmware_entries_steady (es : list Entry) (self : ExtractionItem)
    (ex : Extractor) :
  steady (fun rec => firmware_entries L rec self ex es).
Proof.
  revert self ex. induction es as [|e es IH]; intros self ex;
    cbn [firmware_entries]; [apply steady_const|].
  apply (rbind_steady (fun rec => firmware_entry L rec self ex e)
           (fun rec r ex' => match r.1 with
                             | Some b => Ok (Some b, r.2) ex'
                             | None => firmware_entries L rec r.2 ex' es
                             end)); [apply firmware_entry_steady|].
  intros r ex'. destruct r.1; [apply steady_const|apply IH].
Qed.

Lemma firmware_modules_steady (ms : list ScanModule) (self : ExtractionItem)
    (ex : Extractor) :
  steady (fun rec => firmware_modules L rec self ex ms).
Proof.
  revert self ex. induction ms as [|m ms IH]; intros self ex;
    cbn [firmware_modules]; [apply steady_const|].
  apply (rbind_steady (fun rec => firmware_entries L rec self ex (results m))
           (fun rec r ex' => match r.1 with
                             | Some b => Ok (Some b, r.2) ex'
                             | None => firmware_modules L rec r.2 ex' ms
                             end)); [apply firmware_entries_steady|].
  intros r ex'. destruct r.1; [apply steady_const|apply IH].
Qed.

Lemma _check_firmware_steady (self : ExtractionItem) (ex : Extractor) :
  steady (fun rec => _check_firmware L rec self ex).
Proof.
  unfold _check_firmware.
  apply (rbind_steady (fun rec => firmware_modules L rec self ex _)
           (fun rec r ex' => Ok (default false r.1, r.2) ex'));
    [apply firmware_modules_steady|intros; apply steady_const].
Qed.

Lemma walk_files_steady (root : string) (fdata : list (string * list byte))
    (files : list string) (self : ExtractionItem) (ex : Extractor) (count : nat) :
  steady (fun rec => walk_files L rec self ex root fdata files count).
Proof.
  revert self ex count. induction files as [|filename files IH];
    intros self ex count; cbn [walk_files]; [apply steady_const|].
  destruct (RECURSION_BREADTH <? count)%nat; [apply steady_const|].
  destruct (read_file fdata filename) as [d|]; [|apply steady_const].
  apply (rbind_steady (fun rec => rec _ _)
           (fun rec (done : bool) ex' =>
              if done then
                if get_status (update_status ex' self)
                then Ok (Some true, count, update_status ex' self) ex'
                else walk_files L rec (update_status ex' self) ex' root fdata files
                       (S count)
              else walk_files L rec self ex' root fdata files (S count)));
    [apply steady_call|].
  intros done ex'. destruct done; [|apply IH].
  destruct (get_status _); [apply steady_const|apply IH].
Qed.

Lemma walk_dirs_steady (desc : option string)
    (dirs : list (string * list (string * list byte)))
    (self : ExtractionItem) (ex : Extractor) (count : nat) :
  steady (fun rec => walk_dirs L rec self ex desc dirs count).
Proof.
  revert self ex count. induction dirs as [|[root fdata] dirs IH];
    intros self ex count; cbn [walk_dirs]; [apply steady_const|].
  destruct (order_files desc (map fst fdata)) as [files|]; [|apply steady_const].
  apply (rbind_steady (fun rec => walk_files L rec self ex root fdata files count)
           (fun rec r ex' => match r.1.1 with
                             | Some b => Ok r ex'
                             | None => walk_dirs L rec r.2 ex' desc dirs r.1.2
                             end)); [apply walk_files_steady|].
  intros r ex'. destruct r.1.1; [apply steady_const|apply IH].
Qed.

Lemma recursive_modules_steady (ms : list ScanModule) (desc : option string)
    (self : ExtractionItem) (ex : Extractor) :
  steady (fun rec => recursive_modules L rec self ex desc ms).
Proof.
  revert desc self ex. induction ms as [|m ms IH]; intros desc self ex;
    cbn [recursive_modules]; [apply steady_const|].
  destruct (directory m) as [[dir tree]|]; [|apply IH].
  destruct (io_find_rootfs dir tree true).1; [apply steady_const|].
  apply (rbind_steady (fun rec => walk_dirs L rec self ex _ _ 0)
           (fun rec r ex' => match r.1.1 with
                             | Some b => Ok (b, r.2) ex'
                             | None => recursive_modules L rec r.2 ex' _ ms
                             end)); [apply walk_dirs_steady|].
  intros r ex'. destruct r.1.1; [apply steady_const|apply IH].
Qed.

Lemma analyses_of_eq (rec : ExtractionItem -> Extractor -> result bool) :
  analyses L rec = map (fun p => p rec) (analyses_of L).
Proof. reflexivity. Qed.

Lemma analyses_of_steady :
  Forall (fun p => forall self ex, steady (fun rec => p rec self ex)) (analyses_of L).
Proof.
  unfold analyses_of.
  repeat (apply List.Forall_cons; [intros s e|]); [..|apply List.Forall_nil].
  - apply recursive_modules_steady.
  - apply steady_const.
  - apply _check_firmware_steady.
  - apply steady_const.
  - apply steady_const.
  - apply recursive_modules_steady.
Qed.

Lemma cascade_steady
    (phs : list ((ExtractionItem -> Extractor -> result bool) ->
                 ExtractionItem -> Extractor -> result (bool * ExtractionItem)))
    (self : ExtractionItem) (ex : Extractor) :
  Forall (fun p => forall self ex, steady (fun rec => p rec self ex)) phs ->
  steady (fun rec => cascade (map (fun p => p rec) phs) self ex).
Proof.
  intros Hall. revert self ex.
  induction Hall as [|p phs Hp _ IH]; intros self ex; cbn [map cascade];
    [apply steady_const|].
  intros rec rec' Href Hret.
  rewrite (Hp self ex rec rec' Href); [|by destruct (p rec self ex) as [[[] ?] ?| |]].
  destruct (p rec self ex) as [[b s] e|e|e]; [|done..].
  destruct b; [|by apply IH].
  destruct (get_status (update_status e s)); [done|by apply IH].
Qed.

Lemma extract_body_steady (self : ExtractionItem) (ex : Extractor) :
  steady (fun rec => extract_body L rec self ex).
Proof.
  unfold extract_body.
  destruct (get_status self); [apply steady_const|].
  destruct (RECURSION_DEPTH <? depth self)%nat; [apply steady_const|].
  destruct (bool_decide _); [apply steady_const|].
  destruct (_check_blacklist L self); [apply steady_const|].
  unfold mkdtemp.
  apply (cascade_steady (analyses_of L)), analyses_of_steady.
Qed.

(** More fuel does not change a result. *)
Lemma extract_refines (fuel fuel' : nat) :
  fuel <= fuel' -> refines (extract L fuel) (extract L fuel').
Proof.
  revert fuel'. induction fuel as [|fuel IH]; intros fuel' Hle it ex Hret;
    [done|].
  destruct fuel' as [|fuel']; [lia|]. cbn [extract] in *.
  apply (extract_body_steady it ex (extract L fuel) (extract L fuel'));
    [|done]. apply IH. lia.
Qed.

End Steady.

Lemma halts_returned {A} (L : Libraries) (r : result A) :
  returned r -> halts L (fun _ => r).
Proof. intros Hr. by exists 0. Qed.

Lemma rbind_halts {A B} (L : Libraries)
    (g : (ExtractionItem -> Extractor -> result bool) -> result A)
    (k : (ExtractionItem -> Extractor -> result bool) ->
         A -> Extractor -> result B) :
  steady g -> (forall a ex, steady (fun rec => k rec a ex)) ->
  halts L g ->
  (forall fuel a ex, g (extract L fuel) = Ok a ex -> halts L (fun rec => k rec a ex)) ->
  halts L (fun rec => rbind (g rec) (k rec)).
Proof.
  intros Hg Hk [f1 H1] Hnext.
  destruct (g (extract L f1)) as [a ex|ex|ex] eqn:Hg1; [| |done].
  - destruct (Hnext f1 a ex Hg1) as [f2 H2]. exists (f1 `max` f2).
    rewrite (Hg (extract L f1) (extract L (f1 `max` f2)));
      [|apply extract_refines; lia|by rewrite Hg1].
    rewrite Hg1. cbn [rbind].
    rewrite (Hk a ex (extract L f2) (extract L (f1 `max` f2)));
      [done|apply extract_refines; lia|done].
  - exists f1. by rewrite Hg1.
Qed.

(** [io_dd] yields fewer bytes than the file holds, or the file itself. *)
Lemma io_dd_smaller (d bs : list byte) (off size : Z) :
  io_dd d off size = Some bs -> length bs < length d \/ bs = d.
Proof.
  unfold io_dd. intros H.
  assert (forall n, length (drop n d) < length d \/ drop n d = d) as Hdrop.
  { intros n. destruct n as [|n]; [by right|].
    destruct d as [|x d]; [by right|]. left.
    rewrite length_drop. cbn. lia. }
  destruct (size =? 0)%Z.
  { inversion H; subst. destruct d; [by right|left; cbn; lia]. }
  destruct (off <? 0)%Z; [done|]. destruct (size <? -1)%Z; [done|].
  destruct (size =? -1)%Z; [inversion H; subst; apply Hdrop|].
  inversion H; subst. clear H.
  destruct (Hdrop (Z.to_nat off)) as [Hlt|Heq].
  - left. rewrite length_take. lia.
  - rewrite Heq.
    destruct (decide (length d <= Z.to_nat size)) as [Hge|Hlt].
    + right. by apply take_ge.
    + left. rewrite length_take. lia.
Qed.

Lemma under_analysis_reach (self0 s s' : ExtractionItem) (ex ex' : Extractor)
    (d : nat) :
  under_analysis self0 s ex -> same_file s s' -> reach d ex ex' ->
  under_analysis self0 s' ex'.
Proof.
  intros [Hs Hv] Hs' Hr. split; [by eapply same_file_trans|].
  apply reach_visited in Hr. set_solver.
Qed.

Lemma under_analysis_ok {B} (self0 s s' : ExtractionItem) (ex ex' : Extractor)
    (b : B) :
  under_analysis self0 s ex -> phase_ok s ex (Ok (b, s') ex') ->
  under_analysis self0 s' ex'.
Proof. intros Hu [Hr Hs]. by eapply under_analysis_reach. Qed.

Section Halting.
Variable L : Libraries.
Variable self0 : ExtractionItem.
Hypothesis self0_depth : depth self0 <= RECURSION_DEPTH.
Hypothesis self0_sum : checksum self0 = md5 L (data self0).
Hypothesis walked_halts :
  forall it ex, depth it = S (depth self0) -> checksum it = md5 L (data it) ->
                halts L (fun rec => rec it ex).
Hypothesis carved_halts :
  forall it ex, depth it = depth self0 -> checksum it = md5 L (data it) ->
                length (data it) < length (data self0) ->
                halts L (fun rec => rec it ex).

Lemma under_analysis_depth (s : ExtractionItem) (ex : Extractor) :
  under_analysis self0 s ex -> depth s <= RECURSION_DEPTH.
Proof. intros [(Hd & _) _]. lia. Qed.

Lemma carve_halts (s : ExtractionItem) (ex : Extractor) (off size : Z) :
  under_analysis self0 s ex ->
  halts L (fun rec => carve L rec s ex off size).
Proof.
  intros [(Hdep & _ & Hdata & _) Hv]. unfold carve, mkstemp.
  destruct (io_dd (data s) off size) as [bs|] eqn:Hdd;
    [|by apply halts_returned].
  apply io_dd_smaller in Hdd as [Hlt | ->].
  - apply carved_halts; [done|done|]. cbn. by rewrite <- Hdata.
  - exists 1. rewrite extract_visited; [done|].
    cbn. rewrite Hdata, <- self0_sum. done.
Qed.

Lemma firmware_entry_halts (s : ExtractionItem) (ex : Extractor) (e : Entry) :
  under_analysis self0 s ex ->
  halts L (fun rec => firmware_entry L rec s ex e).
Proof.
  intros Hu. unfold firmware_entry. cbv zeta.
  repeat match goal with
         | |- halts _ (fun rec => if ?b then _ else _) => destruct b
         | |- halts _ (fun rec => match ?o with Some _ => _ | None => _ end) =>
             destruct o
         | |- halts _ (fun rec => Ok _ _) => by apply halts_returned
         | |- halts _ (fun rec => Exn _) => by apply halts_returned
         end.
  - apply (rbind_halts L (fun rec => carve L rec s ex _ _)
             (fun rec b ex' => Ok (Some b, s) ex'));
      [apply carve_steady|intros; apply steady_const|by apply carve_halts|].
    intros. by apply halts_returned.
  - apply (rbind_halts L (fun rec => carve L rec s ex _ _)
             (fun rec _ ex1 => rbind (carve L rec s ex1 _ _) _));
      [apply carve_steady| |by apply carve_halts|].
    { intros _ ex1.
      apply (rbind_steady (fun rec => carve L rec s ex1 _ _)
               (fun rec _ ex2 => Ok _ ex2));
        [apply carve_steady|intros; apply steady_const]. }
    intros fuel b ex1 Hc.
    apply (rbind_halts L (fun rec => carve L rec s ex1 _ _)
             (fun rec _ ex2 => Ok _ ex2));
      [apply carve_steady|intros; apply steady_const| |].
    + apply carve_halts.
      eapply (under_analysis_reach self0 s s ex ex1 (depth s));
        [done|apply same_file_refl|].
      pose proof (carve_reach L (extract L fuel) (extract_reach L fuel) s ex
                    (kernel_offset (trx_sizes (getsize s) t))
                    (kernel_size (trx_sizes (getsize s) t))
                    (under_analysis_depth s ex Hu)) as Hr.
      by rewrite Hc in Hr.
    + intros. by apply halts_returned.
Qed.

Lemma firmware_entries_halts (es : list Entry) (s : ExtractionItem)
    (ex : Extractor) :
  under_analysis self0 s ex ->
  halts L (fun rec => firmware_entries L rec s ex es).
Proof.
  revert s ex. induction es as [|e es IH]; intros s ex Hu;
    cbn [firmware_entries]; [by apply halts_returned|].
  apply (rbind_halts L (fun rec => firmware_entry L rec s ex e)
           (fun rec r ex' => match r.1 with
                             | Some b => Ok (Some b, r.2) ex'
                             | None => firmware_entries L rec r.2 ex' es
                             end));
    [apply firmware_entry_steady| |by apply firmware_entry_halts|].
  { intros r ex'. destruct r.1; [apply steady_const|apply firmware_entries_steady]. }
  intros fuel [r s'] ex' Heq. cbn [fst snd].
  destruct r; [by apply halts_returned|]. apply IH.
  apply (under_analysis_ok self0 s s' ex ex' (@None bool) Hu). rewrite <- Heq.
  apply firmware_entry_ok; [apply extract_reach|by eapply under_analysis_depth].
Qed.

Lemma firmware_modules_halts (ms : list ScanModule) (s : ExtractionItem)
    (ex : Extractor) :
  under_analysis self0 s ex ->
  halts L (fun rec => firmware_modules L rec s ex ms).
Proof.
  revert s ex. induction ms as [|m ms IH]; intros s ex Hu;
    cbn [firmware_modules]; [by apply halts_returned|].
  apply (rbind_halts L (fun rec => firmware_entries L rec s ex (results m))
           (fun rec r ex' => match r.1 with
                             | Some b => Ok (Some b, r.2) ex'
                             | None => firmware_modules L rec r.2 ex' ms
                             end));
    [apply firmware_entries_steady| |by apply firmware_entries_halts|].
  { intros r ex'. destruct r.1; [apply steady_const|apply firmware_modules_steady]. }
  intros fuel [r s'] ex' Heq. cbn [fst snd].
  destruct r; [by apply halts_returned|]. apply IH.
  apply (under_analysis_ok self0 s s' ex ex' (@None bool) Hu). rewrite <- Heq.
  apply firmware_entries_ok; [apply extract_reach|by eapply under_analysis_depth].
Qed.

Lemma _check_firmware_halts (s : ExtractionItem) (ex : Extractor) :
  under_analysis self0 s ex ->
  halts L (fun rec => _check_firmware L rec s ex).
Proof.
  intros Hu. unfold _check_firmware.
  apply (rbind_halts L (fun rec => firmware_modules L rec s ex _)
           (fun rec r ex' => Ok (default false r.1, r.2) ex'));
    [apply firmware_modules_steady|intros; apply steady_const
    |by apply firmware_modules_halts|].
  intros. by apply halts_returned.
Qed.

Lemma walk_files_halts (root : string) (fdata : list (string * list byte))
    (files : list string) (s : ExtractionItem) (ex : Extractor) (count : nat) :
  under_analysis self0 s ex ->
  halts L (fun rec => walk_files L rec s ex root fdata files count).
Proof.
  revert s ex count. induction files as [|filename files IH];
    intros s ex count Hu; cbn [walk_files]; [by apply halts_returned|].
  destruct (RECURSION_BREADTH <? count)%nat; [by apply halts_returned|].
  destruct (read_file fdata filename) as [d|]; [|by apply halts_returned].
  pose proof (under_analysis_depth s ex Hu) as Hd.
  apply (rbind_halts L
           (fun rec => rec (new_item L ex (Py.path_join root filename) d (S (depth s)))
                           (log (EvNew Walked (Py.path_join root filename)
                                   (S (depth s))) ex))
           (fun rec (done : bool) ex' =>
              if done then
                if get_status (update_status ex' s)
                then Ok (Some true, count, update_status ex' s) ex'
                else walk_files L rec (update_status ex' s) ex' root fdata files
                       (S count)
              else walk_files L rec s ex' root fdata files (S count)));
    [apply steady_call| | |].
  - intros done ex'. destruct done; [|apply walk_files_steady].
    destruct (get_status _); [apply steady_const|apply walk_files_steady].
  - apply walked_halts; [|done]. destruct Hu as [(Hdep & _) _]. cbn. by rewrite Hdep.
  - intros fuel done ex' Heq.
    pose proof (walked_child_reach L (extract L fuel) (extract_reach L fuel) s ex
                  (Py.path_join root filename) d Hd) as Hr.
    rewrite Heq in Hr. cbn [final] in Hr.
    destruct done.
    + destruct (get_status _); [by apply halts_returned|]. apply IH.
      eapply under_analysis_reach; [exact Hu|apply same_file_status|exact Hr].
    + apply IH.
      eapply under_analysis_reach; [exact Hu|apply same_file_refl|exact Hr].
Qed.

Lemma walk_dirs_halts (desc : option string)
    (dirs : list (string * list (string * list byte)))
    (s : ExtractionItem) (ex : Extractor) (count : nat) :
  under_analysis self0 s ex ->
  halts L (fun rec => walk_dirs L rec s ex desc dirs count).
Proof.
  revert s ex count. induction dirs as [|[root fdata] dirs IH];
    intros s ex count Hu; cbn [walk_dirs]; [by apply halts_returned|].
  destruct (order_files desc (map fst fdata)) as [files|];
    [|by apply halts_returned].
  apply (rbind_halts L (fun rec => walk_files L rec s ex root fdata files count)
           (fun rec r ex' => match r.1.1 with
                             | Some b => Ok r ex'
                             | None => walk_dirs L rec r.2 ex' desc dirs r.1.2
                             end));
    [apply walk_files_steady| |by apply walk_files_halts|].
  { intros r ex'. destruct r.1.1; [apply steady_const|apply walk_dirs_steady]. }
  intros fuel [[r c] s'] ex' Heq. cbn [fst snd].
  destruct r; [by apply halts_returned|]. apply IH.
  apply (under_analysis_ok self0 s s' ex ex' (@None bool, c) Hu). rewrite <- Heq.
  apply walk_files_ok; [apply extract_reach|by eapply under_analysis_depth].
Qed.

Lemma recursive_modules_halts (ms : list ScanModule) (desc : option string)
    (s : ExtractionItem) (ex : Extractor) :
  under_analysis self0 s ex ->
  halts L (fun rec => recursive_modules L rec s ex desc ms).
Proof.
  revert desc s ex. induction ms as [|m ms IH]; intros desc s ex Hu;
    cbn [recursive_modules]; [by apply halts_returned|].
  destruct (directory m) as [[dir tree]|]; [|by apply IH].
  destruct (io_find_rootfs dir tree true).1; [by apply halts_returned|].
  apply (rbind_halts L (fun rec => walk_dirs L rec s ex _ _ 0)
           (fun rec r ex' => match r.1.1 with
                             | Some b => Ok (b, r.2) ex'
                             | None => recursive_modules L rec r.2 ex' _ ms
                             end));
    [apply walk_dirs_steady| |by apply walk_dirs_halts|].
  { intros r ex'. destruct r.1.1; [apply steady_const|apply recursive_modules_steady]. }
  intros fuel [[r c] s'] ex' Heq. cbn [fst snd].
  destruct r; [by apply halts_returned|]. apply IH.
  apply (under_analysis_ok self0 s s' ex ex' (@None bool, c) Hu). rewrite <- Heq.
  apply walk_dirs_ok; [apply extract_reach|by eapply under_analysis_depth].
Qed.

Lemma analyses_of_halts :
  Forall (fun p => forall s ex, under_analysis self0 s ex ->
                                halts L (fun rec => p rec s ex))
         (analyses_of L).
Proof.
  unfold analyses_of.
  repeat (apply List.Forall_cons; [intros s e Hu|]); [..|apply List.Forall_nil].
  - by apply recursive_modules_halts.
  - apply halts_returned. unfold _check_encryption. by destruct (bytes_eqb _ _).
  - by apply _check_firmware_halts.
  - apply halts_returned. unfold _check_kernel.
    destruct (negb _); [|done].
    destruct (binwalk_scan L _ _ _ Kernel) as [|m ms]; [done|].
    induction (results m) as [|x xs IH]; cbn [kernel_entries]; [done|].
    destruct (Py.contains "kernel version" _); [|done].
    destruct (Py.contains "Linux" _); [|done]. by destruct (get_kernel_path e).
  - apply halts_returned. unfold _check_rootfs.
    destruct (negb _); [|done].
    induction (binwalk_scan L _ _ _ Filesystem) as [|m ms IH];
      cbn [rootfs_modules]; [done|].
    destruct (directory m) as [[dir tree]|]; [|done]. by destruct (negb _).
  - by apply recursive_modules_halts.
Qed.

Lemma analyses_of_ok :
  Forall (fun p => forall fuel s ex, depth s <= RECURSION_DEPTH ->
                                     phase_ok s ex (p (extract L fuel) s ex))
         (analyses_of L).
Proof.
  unfold analyses_of.
  repeat (apply List.Forall_cons; [intros fuel s e Hd|]); [..|apply List.Forall_nil].
  - apply recursive_modules_ok; [apply extract_reach|done].
  - apply _check_encryption_ok.
  - apply _check_firmware_ok; [apply extract_reach|done].
  - by apply _check_kernel_ok.
  - by apply _check_rootfs_ok.
  - apply recursive_modules_ok; [apply extract_reach|done].
Qed.

Lemma cascade_halts
    (phs : list ((ExtractionItem -> Extractor -> result bool) ->
                 ExtractionItem -> Extractor -> result (bool * ExtractionItem))) :
  Forall (fun p => forall self ex, steady (fun rec => p rec self ex)) phs ->
  Forall (fun p => forall s ex, under_analysis self0 s ex ->
                                halts L (fun rec => p rec s ex)) phs ->
  Forall (fun p => forall fuel s ex, depth s <= RECURSION_DEPTH ->
                                     phase_ok s ex (p (extract L fuel) s ex)) phs ->
  forall s ex, under_analysis self0 s ex ->
               halts L (fun rec => cascade (map (fun p => p rec) phs) s ex).
Proof.
  induction phs as [|p phs IH]; intros H1 H2 H3 s ex Hu; cbn [map cascade];
    [by apply halts_returned|].
  apply Forall_cons in H1 as [Hp1 H1]. apply Forall_cons in H2 as [Hp2 H2].
  apply Forall_cons in H3 as [Hp3 H3]. specialize (IH H1 H2 H3).
  destruct (Hp2 s ex Hu) as [f1 Hf1].
  pose proof (Hp3 f1 s ex (under_analysis_depth s ex Hu)) as Hok.
  destruct (p (extract L f1) s ex) as [[b s'] ex'|ex'|ex'] eqn:Hp; [| |done].
  - pose proof (under_analysis_ok self0 s s' ex ex' b Hu Hok) as Hu'.
    assert (forall s'', same_file s' s'' ->
              exists f2, returned (cascade (map (fun p => p (extract L f2)) phs) s'' ex'))
      as Hrest.
    { intros s'' Hs. apply (IH s'' ex'). destruct Hu' as [Hs' Hv].
      split; [by eapply same_file_trans|done]. }
    assert (forall s'' f2,
              returned (cascade (map (fun p => p (extract L f2)) phs) s'' ex') ->
              cascade (map (fun p => p (extract L (f1 `max` f2))) phs) s'' ex'
              = cascade (map (fun p => p (extract L f2)) phs) s'' ex') as Hsame.
    { intros s'' f2 Hret.
      apply (cascade_steady phs s'' ex' H1 (extract L f2)); [|done].
      apply extract_refines. lia. }
    assert (forall f2, p (extract L (f1 `max` f2)) s ex = Ok (b, s') ex') as Hfirst.
    { intros f2. rewrite <- Hp.
      apply (Hp1 s ex (extract L f1)); [apply extract_refines; lia|by rewrite Hp]. }
    destruct b.
    + destruct (get_status (update_status ex' s')) eqn:Hg.
      * exists f1. cbv beta. by rewrite Hp, Hg.
      * destruct (Hrest (update_status ex' s') (same_file_status ex' s')) as [f2 Hf2].
        exists (f1 `max` f2). cbv beta. rewrite Hfirst, Hg. by rewrite Hsame.
    + destruct (Hrest s' (same_file_refl s')) as [f2 Hf2].
      exists (f1 `max` f2). cbv beta. rewrite Hfirst. by rewrite Hsame.
  - exists f1. cbv beta. by rewrite Hp.
Qed.

Lemma cascade_analyses_halts (s : ExtractionItem) (ex : Extractor) :
  under_analysis self0 s ex ->
  halts L (fun rec => cascade (analyses L rec) s ex).
Proof.
  apply (cascade_halts (analyses_of L));
    [apply analyses_of_steady|apply analyses_of_halts|apply analyses_of_ok].
Qed.

End Halting.

Lemma cascade_not_exn
    (phases : list (ExtractionItem -> Extractor -> result (bool * ExtractionItem)))
    (self : ExtractionItem) (ex ex' : Extractor) :
  cascade phases self ex <> Exn ex'.
Proof.
  revert self ex. induction phases as [|analysis phases IH]; intros self ex;
    cbn [cascade]; [done|].
  destruct (analysis self ex) as [[[] s] e|e|e]; try done.
  destruct (get_status _); [done|apply IH].
Qed.

(** [extract] catches every exception of its phases. *)
Lemma extract_not_exn (L : Libraries) (fuel : nat) (self : ExtractionItem)
    (ex ex' : Extractor) :
  extract L fuel self ex <> Exn ex'.
Proof.
  destruct fuel as [|fuel]; [done|]. cbn [extract]. unfold extract_body.
  destruct (get_status self); [done|].
  destruct (RECURSION_DEPTH <? depth self)%nat; [done|].
  destruct (bool_decide _); [done|].
  destruct (_check_blacklist L self); [done|].
  unfold mkdtemp. apply cascade_not_exn.
Qed.

(** One level of the recursion: an item halts if its walked children do,
    and its carved children with fewer bytes. *)
Lemma extract_halts_step (L : Libraries) (it : ExtractionItem) (ex : Extractor) :
  checksum it = md5 L (data it) ->
  (forall c ex, depth c = S (depth it) -> checksum c = md5 L (data c) ->
                halts L (fun rec => rec c ex)) ->
  (forall c ex, depth c = depth it -> checksum c = md5 L (data c) ->
                length (data c) < length (data it) ->
                halts L (fun rec => rec c ex)) ->
  halts L (fun rec => rec it ex).
Proof.
  intros Hsum Hwalk Hcarve.
  assert (halts L (fun rec => extract_body L rec it ex)) as [f Hf];
    [|by exists (S f)].
  unfold extract_body.
  destruct (get_status it); [by apply halts_returned|].
  destruct (RECURSION_DEPTH <? depth it)%nat eqn:Hd; [by apply halts_returned|].
  apply Nat.ltb_ge in Hd.
  destruct (bool_decide _); [by apply halts_returned|].
  destruct (_check_blacklist L it); [by apply halts_returned|].
  unfold mkdtemp.
  apply (cascade_analyses_halts L
           (set_temp (Some (Py.path_join gettempdir
                              (tmpname L (tmp_count (visited_add (checksum it) ex)))))
                     it)); try done.
  split; [apply same_file_refl|]. cbn. set_solver.
Qed.

(** With enough fuel [extract] returns, and more fuel returns the same. *)
Theorem extract_terminates (L : Libraries) (it : ExtractionItem) (ex : Extractor) :
  checksum it = md5 L (data it) ->
  exists fuel b ex', forall fuel', fuel <= fuel' -> extract L fuel' it ex = Ok b ex'.
Proof.
  intros Hsum.
  assert (forall k n it ex,
            S RECURSION_DEPTH - depth it <= k -> length (data it) <= n ->
            checksum it = md5 L (data it) ->
            halts L (fun rec => rec it ex)) as Hhalts.
  { clear it ex Hsum. induction k as [|k IHk].
    - intros n it ex Hk _ Hsum. apply extract_halts_step; [done|..].
      + intros c e Hc _. exists 1. cbn. unfold extract_body.
        destruct (get_status c); [done|].
        assert ((RECURSION_DEPTH <? depth c)%nat = true) as ->; [|done].
        apply Nat.ltb_lt. lia.
      + intros c e Hc _ _. exists 1. cbn. unfold extract_body.
        destruct (get_status c); [done|].
        assert ((RECURSION_DEPTH <? depth c)%nat = true) as ->; [|done].
        apply Nat.ltb_lt. lia.
    - induction n as [|n IHn]; intros it ex Hk Hn Hsum;
        (apply extract_halts_step; [done|..]).
      + intros c e Hc Hcs. apply (IHk (length (data c))); [lia|done|done].
      + intros c e Hc Hcs Hlen. lia.
      + intros c e Hc Hcs. apply (IHk (length (data c))); [lia|done|done].
      + intros c e Hc Hcs Hlen. apply IHn; [lia|lia|done]. }
  destruct (Hhalts (S RECURSION_DEPTH) (length (data it)) it ex) as [fuel Hret];
    [lia|done|done|]. cbv beta in Hret.
  destruct (extract L fuel it ex) as [b ex'|ex'|ex'] eqn:Heq; [| |done].
  - exists fuel, b, ex'. intros fuel' Hle. rewrite <- Heq.
    apply extract_refines; [done|by rewrite Heq].
  - by apply extract_not_exn in Heq.
Qed.

(** X3. Every job returns.  For every input, whatever the libraries
    answer and whatever the job state, [Extractor.extract] comes to its end
    and its result is not an exception: the recursion of [extract]
    through carved and walked children is finite, by the depth limit and
    the visited set.  In the model: some fuel suffices, and every larger
    fuel gives the same final job state. *)
Theorem job_terminates (L : Libraries) (input : string) (n : option fsnode)
    (ex : Extractor) :
  exists fuel ex', forall fuel', fuel <= fuel' ->
    Extractor_extract L fuel' input n ex = Ok tt ex'.
Proof.
  unfold Extractor_extract. generalize (input_list input n). intros seeds.
  revert ex. induction seeds as [|[path d] seeds IH]; intros ex.
  - by exists 0, ex.
  - destruct (extract_terminates L (new_item L ex path d 0) (log (EvNew Seed path 0) ex))
      as (f1 & b & ex1 & H1); [done|].
    destruct (IH ex1) as (f2 & ex2 & H2).
    exists (f1 `max` f2), ex2. intros fuel' Hle. cbn [extract_items].
    rewrite H1 by lia. cbn [rbind]. apply H2. lia.
Qed.

(** * Further properties of the code *)

(** ** [io_dd] *)



(** ** [io_md5] *)

Lemma io_md5_loop_all (blocksize : nat) (rest hashed : list byte) (fuel : nat) :
  0 < blocksize -> length rest < fuel ->
  io_md5_loop fuel blocksize rest hashed = Some (hashed ++ rest)%list.
Proof.
  intros Hb. revert rest hashed.
  induction fuel as [|fuel IH]; intros rest hashed Hlen; [lia|].
  cbn [io_md5_loop].
  destruct (take blocksize rest) as [|b buf] eqn:Htake.
  - destruct rest as [|x rest]; [by rewrite app_nil_r|].
    destruct blocksize; [lia|discriminate Htake].
  - rewrite IH.
    + by rewrite <- Htake, <- app_assoc, take_drop.
    + rewrite length_drop.
      assert (0 < length rest); [|lia].
      destruct rest; [by rewrite take_nil in Htake|cbn; lia].
Qed.

(** X2. Hashing a file in blocks of 64 KiB gives the digest of the whole
    file: [io_md5] always returns, and what it returns is [md5] of the
    content, whatever its length. *)
Theorem io_md5_whole_file (L : Libraries) (d : list byte) :
  io_md5 L d = Some (md5 L d)
  /\ forall ex path dep, io_md5 L d = Some (checksum (new_item L ex path d dep)).
Proof.
  assert (io_md5 L d = Some (md5 L d)) as H; [|by split].
  unfold io_md5.
  rewrite io_md5_loop_all; [done|unfold MD5_BLOCKSIZE; lia|lia].
Qed.

(** ** [str.split] *)

Lemma split_cons (sep : ascii) (s : string) :
  exists h t, Py.split sep s = h :: t.
Proof.
  destruct s as [|c s]; cbn [Py.split]; [by eexists _, _|].
  destruct (Ascii.eqb c sep); [by eexists _, _|].
  destruct (Py.split sep s); by eexists _, _.
Qed.

Lemma split_length (sep : ascii) (s : string) :
  length (Py.split sep s) = S (length (filter (fun c => c = sep) (chars s))).
Proof.
  induction s as [|c s IH]; [done|].
  cbn [Py.split chars]. rewrite filter_cons.
  destruct (Ascii.eqb_spec c sep) as [->|Hne].
  - rewrite decide_True by done. cbn. by rewrite IH.
  - rewrite decide_False by done.
    destruct (Py.split sep s) as [|h t] eqn:Hs; [done|]. by rewrite <- IH.
Qed.

(** Splitting at a separator loses nothing: joining the fields with the
    separator gives the string back, there is one field more than there are
    separators, and no field holds the separator -- so a value that itself
    contains a comma is always cut when a description is split at commas. *)
Lemma split_join (sep : ascii) (s : string) :
  py_join (String sep EmptyString) (Py.split sep s) = s
  /\ Forall (fun field => sep ∉ chars field) (Py.split sep s)
  /\ length (Py.split sep s) = S (length (filter (fun c => c = sep) (chars s))).
Proof.
  split; [|split; [|apply split_length]].
  - induction s as [|c s IH]; [done|]. cbn [Py.split].
    destruct (split_cons sep s) as (h & t & Hs). rewrite Hs in *.
    destruct (Ascii.eqb_spec c sep) as [->|Hne].
    + cbn. by rewrite <- IH.
    + rewrite <- IH. destruct t; reflexivity.
  - induction s as [|c s IH].
    + repeat constructor. apply not_elem_of_nil.
    + cbn [Py.split]. destruct (split_cons sep s) as (h & t & Hs).
      rewrite Hs in *. destruct (Ascii.eqb_spec c sep) as [->|Hne].
      * constructor; [apply not_elem_of_nil|done].
      * apply Forall_cons in IH as [Hh Ht]. constructor; [|done].
        cbn. intros Hin. apply elem_of_cons in Hin as [?|?]; [by subst|done].
Qed.

(** ** [io_find_rootfs], when it says yes *)

Lemma first_rootfs_some (self : string -> fsnode -> bool * string)
    (path : string) (es : list (string * fsnode)) (res : bool * string) :
  first_rootfs self path es = Some res ->
  res.1 = true /\
  exists name child, (name, child) ∈ es /\ isdir child = true
                     /\ res = self (Py.path_join path name) child.
Proof.
  induction es as [|[name child] es IH]; cbn [first_rootfs]; [done|].
  destruct (isdir child) eqn:Hd.
  - destruct (self (Py.path_join path name) child).1 eqn:Hres.
    + intros [= <-]. split; [done|]. exists name, child. split; [left|done].
    + intros H. destruct (IH H) as (? & n & c & Hin & ? & ?).
      split; [done|]. exists n, c. split; [by right|done].
  - intros H. destruct (IH H) as (? & n & c & Hin & ? & ?).
    split; [done|]. exists n, c. split; [by right|done].
Qed.

Lemma io_find_rootfs_flat (start : string) (n : fsnode) :
  io_find_rootfs start n false
  = if (UNIX_THRESHOLD <=? length (unix_subdirs (listdir (single_chain start n).2)))%nat
    then (true, (single_chain start n).1) else (false, start).
Proof.
  unfold io_find_rootfs, io_find_rootfs_body.
  destruct (single_chain start n) as [path d]. cbn [fst snd].
  by rewrite count_unix_dirs_length.
Qed.

(** X4. The root detector is sound and looks one branching level deep, no
    further.  When it answers no, the path it returns is the one it was
    given.  When it answers yes, the path is that of a UNIX root: either the
    directory reached from the start by following single-entry chains, or,
    under [recurse=True], the directory reached in that way from one of its
    immediate subdirectories. *)
Theorem io_find_rootfs_sound (start : string) (n : fsnode) (recurse : bool)
    (p : string) :
  ((io_find_rootfs start n recurse).1 = false ->
   (io_find_rootfs start n recurse).2 = start)
  /\ (io_find_rootfs start n recurse = (true, p) ->
      (p = (single_chain start n).1
       /\ unix_root (listdir (single_chain start n).2))
      \/ (recurse = true
          /\ ~ unix_root (listdir (single_chain start n).2)
          /\ exists name child,
               (name, child) ∈ listdir (single_chain start n).2
               /\ isdir child = true
               /\ p = (single_chain
                         (Py.path_join (single_chain start n).1 name) child).1
               /\ unix_root
                    (listdir (single_chain
                                (Py.path_join (single_chain start n).1 name)
                                child).2))).
Proof.
  rewrite io_find_rootfs_eq. unfold io_find_rootfs_body.
  destruct (single_chain start n) as [path d]. cbn [fst snd].
  rewrite count_unix_dirs_length. unfold unix_root.
  destruct (UNIX_THRESHOLD <=? length (unix_subdirs (listdir d)))%nat eqn:Hc.
  { apply Nat.leb_le in Hc. split; [done|]. intros [= <-]. by left. }
  apply Nat.leb_gt in Hc.
  destruct recurse; [|by split].
  destruct (first_rootfs _ path (listdir d)) as [res|] eqn:Hfirst; [|by split].
  apply first_rootfs_some in Hfirst as (Hres & name & child & Hin & Hdir & Heq).
  split; [by rewrite Hres|]. intros ->. right.
  split; [done|]. split; [lia|]. exists name, child.
  rewrite io_find_rootfs_flat in Heq.
  destruct (UNIX_THRESHOLD <=? _)%nat eqn:Hsub; [|done].
  apply Nat.leb_le in Hsub. inversion Heq; subst. done.
Qed.

Lemma io_find_rootfs_sound_witness :
  io_find_rootfs "/D"
    (Dir [("x", File []);
          ("fs", Dir [("bin", Dir []); ("etc", Dir []); ("lib", Dir []);
                      ("usr", Dir [])])]) true
  = (true, "/D/fs")
  /\ unix_root [("bin", Dir []); ("etc", Dir []); ("lib", Dir []); ("usr", Dir [])].
Proof.
  pose (tree := Dir [("x", File []);
                     ("fs", Dir [("bin", Dir []); ("etc", Dir []); ("lib", Dir []);
                                 ("usr", Dir [])])]).
  destruct (io_find_rootfs_sound "/D" tree true "/D/fs") as [_ H].
  split; [reflexivity|].
  destruct (H eq_refl) as [[_ Hroot]|(_ & _ & name & child & Hin & _ & Hp & Hroot)].
  - exfalso. vm_compute in Hroot. lia.
  - vm_compute. lia.
Defined.

(** ** The child queue never loses a file *)

Lemma index_split_none (sep : ascii) (s : string) :
  Py.index (Py.split sep s) 1 = None <-> sep ∉ chars s.
Proof.
  unfold Py.index. rewrite nth_error_None, split_length.
  split.
  - intros Hlen Hin.
    assert (sep ∈ filter (fun c => c = sep) (chars s)) as Hf.
    { by apply list_elem_of_filter. }
    destruct (filter (fun c => c = sep) (chars s)); [by apply elem_of_nil in Hf|].
    cbn in Hlen. lia.
  - intros Hnot.
    destruct (filter (fun c => c = sep) (chars s)) as [|c l] eqn:Hf; [cbn; lia|].
    exfalso. apply Hnot.
    assert (c ∈ filter (fun c => c = sep) (chars s)) as Hc; [rewrite Hf; left|].
    apply list_elem_of_filter in Hc as [-> Hc]. done.
Qed.

Lemma original_name_none (stmts : list string) (orig : option string) :
  original_name stmts orig = None <-> Exists unquoted_name_field stmts.
Proof.
  revert orig. induction stmts as [|stmt stmts IH]; intros orig;
    cbn [original_name].
  - split; [done|]. intros H. inversion H.
  - rewrite Exists_cons. unfold unquoted_name_field at 1.
    rewrite <- index_split_none.
    destruct (Py.contains ORIGINAL_NAME stmt).
    + destruct (Py.index (Py.split "034" stmt) 1) as [x|].
      * rewrite IH. split; [by right|]. intros [[_ ?]|?]; done.
      * split; [by left|done].
    + rewrite IH. split; [by right|]. intros [[? _]|?]; done.
Qed.

(** X5. The child queue is a rearrangement of the files of the directory:
    no file is dropped or queued twice, restored name or not.  Building it
    raises ([IndexError]) exactly when the description has the marker
    [original file name:] and one of its comma-separated fields has the
    marker and no double quote. *)
Theorem order_files_rearranges (desc : option string) (files : list string) :
  (forall queue, order_files desc files = Some queue -> Permutation queue files)
  /\ (order_files desc files = None <->
      exists d, desc = Some d /\ Py.contains ORIGINAL_NAME d = true
                /\ Exists unquoted_name_field (Py.split "," d)).
Proof.
  assert (Permutation (sort_by len_le (sort_by str_le files)) files) as Hperm.
  { by rewrite !sort_by_perm. }
  unfold order_files.
  destruct desc as [d|]; [|split; [by intros q [= <-]|by split; [|intros (? & ? & _)]]].
  destruct (Py.contains ORIGINAL_NAME d) eqn:Hd.
  - assert (String.eqb d EmptyString = false) as ->.
    { destruct d; [discriminate Hd|done]. }
    cbn [negb andb].
    pose proof (original_name_none (Py.split "," d) None) as Hnone.
    destruct (original_name (Py.split "," d) None) as [orig|];
      cbn [mbind option_bind].
    + split.
      * intros q. destruct orig as [o|]; [|by intros [= <-]].
        destruct (negb (String.eqb o EmptyString)); cbn [andb]; [|by intros [= <-]].
        destruct (Py.mem o _) eqn:Hmem; intros [= <-]; [|done].
        apply mem_true in Hmem. by rewrite remove_perm.
      * split.
        -- by destruct orig as [o|]; [destruct (negb _ && _)|].
        -- intros (d' & [= <-] & _ & Hex). apply Hnone in Hex. done.
    + split; [done|]. split; [|done]. intros _. exists d.
      split; [done|]. split; [done|]. by apply Hnone.
  - rewrite andb_false_r. split; [by intros q [= <-]|].
    split; [done|]. intros (d' & [= <-] & Hd' & _). congruence.
Qed.

Lemma order_files_rearranges_witness :
  order_files (Some "gzip compressed data, has original file name: fw.bin")
    ["b"; "a"] = None.
Proof.
  destruct (order_files_rearranges
              (Some "gzip compressed data, has original file name: fw.bin")
              ["b"; "a"]) as [_ Hnone].
  apply Hnone. eexists. split; [reflexivity|]. split; [vm_compute; reflexivity|].
  change (Py.split "," "gzip compressed data, has original file name: fw.bin")
    with ["gzip compressed data"; " has original file name: fw.bin"].
  apply Exists_cons. right. apply Exists_cons. left.
  split; [vm_compute; reflexivity|].
  intros H. vm_compute in H.
  repeat (apply elem_of_cons in H as [H|H]; [discriminate H|]).
  by apply elem_of_nil in H.
Defined.

(** ** The work list of a job *)

Lemma fsnode_nested_ind (P : fsnode -> Prop) :
  (forall d, P (File d)) ->
  (forall es, Forall (fun e => P e.2) es -> P (Dir es)) ->
  forall n, P n.
Proof.
  intros Hfile Hdir. fix IH 1. intros [d|es]; [apply Hfile|].
  apply Hdir. revert es. fix IHes 1.
  intros [|[name child] es]; constructor; [apply IH|apply IHes].
Qed.

Lemma walk_data_app (a b : list (string * list (string * list byte))) :
  walk_data (a ++ b) = (walk_data a ++ walk_data b)%list.
Proof. unfold walk_data. apply flat_map_app. Qed.

Lemma os_walk_leaves (n : fsnode) (root : string) :
  Permutation (walk_data (os_walk root n))
              (match n with File _ => [] | Dir _ => leaves n end).
Proof.
  revert root. induction n as [d|es IH] using fsnode_nested_ind; intros root;
    [done|].
  induction IH as [|[name child] es Hchild _ IHes].
  - done.
  - change (os_walk root (Dir ((name, child) :: es)))
      with ((root, files_of ((name, child) :: es))
              :: (os_walk (Py.path_join root name) child
                  ++ tail (os_walk root (Dir es))))%list.
    change (leaves (Dir ((name, child) :: es)))
      with (leaves child ++ leaves (Dir es))%list.
    change (os_walk root (Dir es))
      with ((root, files_of es) :: tail (os_walk root (Dir es))) in IHes.
    unfold walk_data in *. cbn [flat_map fst snd] in *.
    fold (walk_data (os_walk (Py.path_join root name) child
                     ++ tail (os_walk root (Dir es)))).
    fold (walk_data (tail (os_walk root (Dir es)))) in IHes.
    rewrite walk_data_app. cbn [snd] in Hchild. specialize (Hchild (Py.path_join root name)).
    destruct child as [d|sub].
    + cbn [files_of map os_walk leaves walk_data flat_map app].
      constructor. exact IHes.
    + cbn [files_of]. rewrite Hchild.
      rewrite Permutation_app_swap_app. by apply Permutation_app_head.
Qed.

Lemma input_list_data (input : string) (es : list (string * fsnode)) :
  map snd (input_list input (Some (Dir es))) = walk_data (os_walk input (Dir es)).
Proof.
  unfold input_list, walk_data.
  induction (os_walk input (Dir es)) as [|[root fs] w IH]; [done|].
  cbn [flat_map]. rewrite map_app, IH. f_equal.
  cbn [fst snd]. induction fs as [|[f d] fs IHfs]; [done|]. cbn. by rewrite IHfs.
Qed.

Lemma extract_no_seed (L : Libraries) (fuel : nat) (it : ExtractionItem)
    (ex : Extractor) :
  exists new, trace (final (extract L fuel it ex)) = (new ++ trace ex)%list
              /\ filter (fun e => is_seed e) new = [].
Proof.
  destruct (extract_trace L fuel it ex) as (new & Heq & Hall).
  exists new. split; [done|]. clear Heq.
  induction Hall as [|e new He _ IH]; [done|].
  rewrite filter_cons. case_decide as Hs; [|done].
  destruct e as [[] p k|c|p k]; cbn in He, Hs; done.
Qed.

(** X6. The work list of a job holds every regular file below the input
    directory once (or the input file itself), and nothing for an input
    that cannot be read, in which case the job does nothing.  A job that
    returns has built one seed item per file. *)
Theorem work_list_covers_input (L : Libraries) (fuel : nat) (input : string)
    (n : fsnode) (ex ex' : Extractor) :
  Permutation (map snd (input_list input (Some n))) (leaves n)
  /\ (forall d, input_list input (Some (File d)) = [(input, d)])
  /\ Extractor_extract L fuel input None ex = Ok tt ex
  /\ (Extractor_extract L fuel input (Some n) ex = Ok tt ex' ->
      exists new, trace ex' = (new ++ trace ex)%list
                  /\ length (filter (fun e => is_seed e) new) = length (leaves n)).
Proof.
  assert (Permutation (map snd (input_list input (Some n))) (leaves n)) as Hperm.
  { destruct n as [d|es]; [done|].
    rewrite input_list_data. apply (os_walk_leaves (Dir es)). }
  split; [done|]. split; [done|]. split; [done|].
  rewrite <- (Permutation_length Hperm), length_map.
  unfold Extractor_extract. generalize (input_list input (Some n)). intros seeds.
  revert ex. induction seeds as [|[path d] seeds IH]; intros ex;
    cbn [extract_items].
  - intros [= <-]. by exists [].
  - destruct (extract_no_seed L fuel (new_item L ex path d 0)
                (log (EvNew Seed path 0) ex)) as (new1 & Heq1 & Hno1).
    destruct (extract L fuel (new_item L ex path d 0) (log (EvNew Seed path 0) ex))
      as [b ex1|ex1|ex1]; cbn [rbind final] in *; [|done..].
    intros Hrest. destruct (IH ex1 Hrest) as (new2 & Heq2 & Hlen2).
    exists (new2 ++ new1 ++ [EvNew Seed path 0])%list. split.
    + rewrite Heq2, Heq1. cbn. by rewrite <- !app_assoc.
    + rewrite !filter_app, !length_app, Hno1, Hlen2. cbn.
      destruct (decide True); [cbn; lia|done].
Qed.

Lemma work_list_covers_input_witness :
  exists new,
    trace (final (Extractor_extract demo_libs 2 "/in"
                    (Some (Dir [("a", File (bytes "A"));
                                ("sub", Dir [("b", File (bytes "B"))])]))
                    fresh_job))
    = (new ++ trace fresh_job)%list
    /\ length (filter (fun e => is_seed e) new) = 2.
Proof.
  destruct (work_list_covers_input demo_libs 2 "/in"
              (Dir [("a", File (bytes "A")); ("sub", Dir [("b", File (bytes "B"))])])
              fresh_job
              (final (Extractor_extract demo_libs 2 "/in"
                        (Some (Dir [("a", File (bytes "A"));
                                    ("sub", Dir [("b", File (bytes "B"))])]))
                        fresh_job))) as (_ & _ & _ & H).
  apply H. vm_compute. reflexivity.
Defined.

(** ** Completion only grows *)

Lemma never_undone_refl (a : Extractor) : never_undone a a.
Proof. by repeat split. Qed.

Lemma never_undone_trans (a b c : Extractor) :
  never_undone a b -> never_undone b c -> never_undone a c.
Proof.
  intros (H1 & H2 & H3 & H4 & H5 & H6 & H7) (G1 & G2 & G3 & G4 & G5 & G6 & G7).
  unfold never_undone. split; [congruence|]. do 4 (split; [auto|]).
  split; intros it it' H.
  - apply (G6 it it'), (H6 it it), H.
  - apply (G7 it it'), (H7 it it), H.
Qed.

Lemma prim_never_undone (d : nat) (a b : Extractor) :
  prim d a b -> never_undone a b.
Proof.
  intros [c ex Hc|ex|p ex|p ex|p ex|bs ex|ex|root ex];
    destruct ex as [[o|] [] [] v [k|] [r|] t tr];
    unfold never_undone, archive_rootfs, get_kernel_status, get_rootfs_status,
      update_status, output;
    cbn; repeat split; done.
Qed.

Lemma reach_never_undone (d : nat) (a b : Extractor) :
  reach d a b -> never_undone a b.
Proof.
  induction 1 as [x|x y z (k & _ & _ & Hp) _ IH]; [apply never_undone_refl|].
  eapply never_undone_trans; [|exact IH]. by eapply prim_never_undone.
Qed.

(** X7. Completion is monotone.  Whatever [extract] or a whole job does, for
    every fuel and however it ends: the output directory is not changed, a
    cleared flag is not set again, an output file that exists is not
    removed, and a kernel or root filesystem status that was done is still
    done when recomputed. *)
Theorem completion_never_undone (L : Libraries) (fuel : nat)
    (self : ExtractionItem) (ex : Extractor) (input : string) (n : option fsnode) :
  never_undone ex (final (extract L fuel self ex))
  /\ never_undone ex (final (Extractor_extract L fuel input n ex)).
Proof.
  split.
  - eapply reach_never_undone, extract_reach.
  - unfold Extractor_extract.
    apply (extract_items_final L fuel (input_list input n) ex never_undone).
    + apply never_undone_refl.
    + apply never_undone_trans.
    + intros a p. by repeat split.
    + intros a b. apply reach_never_undone.
Qed.

(** ** What [True] means *)

Lemma breadth_reached_later (self : ExtractionItem) (ex e1 ex' : Extractor) :
  breadth_reached self ex e1 ->
  (exists new, trace ex' = (new ++ trace e1)%list) ->
  breadth_reached self ex ex'.
Proof.
  intros (new1 & Heq1 & Hb) (new2 & Heq2).
  exists (new2 ++ new1)%list. split; [by rewrite Heq2, Heq1, app_assoc|].
  rewrite children_walked_app. lia.
Qed.

Lemma breadth_reached_earlier (self s : ExtractionItem) (ex e1 ex' : Extractor) :
  depth s = depth self ->
  (exists new, trace e1 = (new ++ trace ex)%list) ->
  breadth_reached s e1 ex' ->
  breadth_reached self ex ex'.
Proof.
  intros Hd (new1 & Heq1) (new2 & Heq2 & Hb). rewrite Hd in Hb.
  exists (new2 ++ new1)%list. split; [by rewrite Heq2, Heq1, app_assoc|].
  rewrite children_walked_app. lia.
Qed.

Lemma reach_extends (d : nat) (a b : Extractor) :
  reach d a b -> exists new, trace b = (new ++ trace a)%list.
Proof. intros (new & Heq & _)%reach_trace. by exists new. Qed.

Section Flag.
Variable L : Libraries.
Variable rec : ExtractionItem -> Extractor -> result bool.
Hypothesis rec_reach :
  forall it ex, reach (depth it) ex (final (rec it ex)).

Lemma rec_trace (it : ExtractionItem) (ex : Extractor) :
  exists new,
    trace (final (rec it ex)) = (new ++ trace ex)%list
    /\ Forall (event_below (depth it)) new.
Proof. apply reach_trace, rec_reach. Qed.

Lemma firmware_entry_flag (self : ExtractionItem) (ex : Extractor) (e : Entry) :
  match firmware_entry L rec self ex e with
  | Ok (_, self') _ => terminate self' = terminate self
  | _ => True
  end.
Proof.
  unfold firmware_entry.
  repeat match goal with
         | |- context [if ?b then _ else _] => destruct b
         | |- context [match ?o with Some _ => _ | None => _ end] => destruct o
         | |- context [rbind ?r _] => destruct r; cbn [rbind]
         end; done.
Qed.

Lemma firmware_entries_flag (es : list Entry) (self : ExtractionItem)
    (ex : Extractor) :
  match firmware_entries L rec self ex es with
  | Ok (_, self') _ => terminate self' = terminate self
  | _ => True
  end.
Proof.
  revert self ex. induction es as [|e es IH]; intros self ex;
    cbn [firmware_entries]; [done|].
  pose proof (firmware_entry_flag self ex e) as He.
  destruct (firmware_entry L rec self ex e) as [[[b|] s] ex'|ex'|ex'];
    cbn [rbind fst snd]; try done.
  specialize (IH s ex'). destruct (firmware_entries L rec s ex' es) as [[r s'] e'|e'|e'];
    [congruence|done|done].
Qed.

Lemma firmware_modules_flag (ms : list ScanModule) (self : ExtractionItem)
    (ex : Extractor) :
  match firmware_modules L rec self ex ms with
  | Ok (_, self') _ => terminate self' = terminate self
  | _ => True
  end.
Proof.
  revert self ex. induction ms as [|m ms IH]; intros self ex;
    cbn [firmware_modules]; [done|].
  pose proof (firmware_entries_flag (results m) self ex) as He.
  destruct (firmware_entries L rec self ex (results m)) as [[[b|] s] ex'|ex'|ex'];
    cbn [rbind fst snd]; try done.
  specialize (IH s ex'). destruct (firmware_modules L rec s ex' ms) as [[r s'] e'|e'|e'];
    [congruence|done|done].
Qed.

Lemma recursive_modules_flag (ms : list ScanModule) (desc : option string)
    (self : ExtractionItem) (ex : Extractor) :
  flag_kept self ex (recursive_modules L rec self ex desc ms).
Proof.
  revert desc self ex.
  induction ms as [|m ms IH]; intros desc self ex; cbn [recursive_modules];
    [by left|].
  destruct (directory m) as [[dir tree]|]; [|apply IH].
  destruct (io_find_rootfs dir tree true).1; [by left|].
  destruct (walk_dirs_exact L rec rec_trace (first_description desc (results m))
              (os_walk dir tree) self ex 0) as (new1 & Heq1 & Hres).
  destruct (walk_dirs L rec self ex _ _ 0)
    as [[[[b|] c] s] ex'|ex'|ex']; cbn [rbind final fst snd flag_kept] in *;
    [| |done..].
  - destruct Hres as [_ [Ht|Ht]]; [by left|right]. by exists new1.
  - destruct Hres as (_ & Hd & Ht).
    specialize (IH (first_description desc (results m)) s ex').
    destruct (recursive_modules L rec s ex' _ ms) as [[r s'] e'|e'|e'];
      cbn [flag_kept] in *; [|done..].
    destruct IH as [IH|IH]; [left; congruence|right].
    apply (breadth_reached_earlier self s ex ex'); [done|by exists new1|done].
Qed.

Lemma analyses_flag :
  Forall (fun analysis => forall self ex, flag_kept self ex (analysis self ex))
         (analyses L rec).
Proof.
  unfold analyses.
  repeat (apply List.Forall_cons; [intros s e|]); [..|apply List.Forall_nil].
  - apply recursive_modules_flag.
  - unfold _check_encryption. destruct (bytes_eqb _ _); by left.
  - unfold _check_firmware.
    pose proof (firmware_modules_flag
                  (binwalk_scan L (default EmptyString (temp s)) (item s) (data s) Header)
                  s e) as Hm.
    destruct (firmware_modules L rec s e _) as [[r s'] e'|e'|e'];
      cbn [rbind flag_kept fst snd]; [by left|done|done].
  - unfold _check_kernel. destruct (negb _); [|by left].
    destruct (binwalk_scan L _ _ _ Kernel) as [|m ms]; [by left|].
    induction (results m) as [|x es IH]; cbn [kernel_entries]; [by left|].
    destruct (Py.contains "kernel version" _); [|done].
    destruct (Py.contains "Linux" _); [|by left].
    destruct (get_kernel_path e); by left.
  - unfold _check_rootfs. destruct (negb _); [|by left].
    induction (binwalk_scan L _ _ _ Filesystem) as [|m ms IH];
      cbn [rootfs_modules]; [by left|].
    destruct (directory m) as [[dir tree]|]; [|done].
    destruct (negb _); by left.
  - apply recursive_modules_flag.
Qed.

End Flag.

Lemma cascade_true
    (phases : list (ExtractionItem -> Extractor -> result (bool * ExtractionItem)))
    (self : ExtractionItem) (ex ex' : Extractor) :
  Forall (fun analysis => forall self ex, depth self <= RECURSION_DEPTH ->
            phase_ok self ex (analysis self ex)) phases ->
  Forall (fun analysis => forall self ex, flag_kept self ex (analysis self ex))
         phases ->
  depth self <= RECURSION_DEPTH ->
  cascade phases self ex = Ok true ex' ->
  terminate self = true
  \/ breadth_reached self ex ex'
  \/ (get_kernel_status (update_status ex' self) = true
      /\ get_rootfs_status (update_status ex' self) = true).
Proof.
  intros Hall Hflag. revert self ex.
  induction Hall as [|analysis phases Ha Hall IH]; intros self ex Hd;
    cbn [cascade]; [done|].
  apply Forall_cons in Hflag as [Hf Hflag]. specialize (IH Hflag).
  destruct (Ha self ex Hd) as [Hr Hs]. specialize (Hf self ex).
  destruct (analysis self ex) as [[b s] e1|e1|e1]; [|done..].
  cbn [final flag_kept] in *. destruct Hs as (Hds & _).
  apply reach_extends in Hr.
  assert (forall s2, depth s2 = depth s -> terminate s2 = terminate s ->
            cascade phases s2 e1 = Ok true ex' ->
            terminate self = true
            \/ breadth_reached self ex ex'
            \/ (get_kernel_status (update_status ex' self) = true
                /\ get_rootfs_status (update_status ex' self) = true)) as Hrest.
  { intros s2 Hd2 Ht2 Hc.
    assert (depth s2 <= RECURSION_DEPTH) as Hd2' by lia.
    pose proof (cascade_reach phases s2 e1 Hall Hd2') as Hr2.
    rewrite Hc in Hr2. cbn [final] in Hr2. apply reach_extends in Hr2.
    destruct (IH s2 e1 Hd2' Hc) as [Ht|[Hb|Hdone]].
    - destruct Hf as [Hf|Hf]; [left; congruence|].
      right; left. by apply (breadth_reached_later self ex e1).
    - right; left. apply (breadth_reached_earlier self s2 ex e1); [lia|done|done].
    - by right; right. }
  destruct b.
  - destruct (get_status (update_status e1 s)) eqn:Hg.
    + intros [= <-]. unfold get_status in Hg.
      cbn [terminate update_status set_status] in Hg.
      apply orb_true_iff in Hg as [Ht|Hdone].
      * destruct Hf as [Hf|Hf]; [left; congruence|by right; left].
      * right; right. by apply andb_true_iff in Hdone.
    + by apply Hrest.
  - by apply Hrest.
Qed.

(** X8. [extract] returns [True] only for an item that was complete when
    it was called, or when both outputs are done in the job state the call
    leaves, or after a container walk of the item was cut by the breadth
    limit, at least six files having been built as its children. *)
Theorem extract_true_is_complete (L : Libraries) (fuel : nat)
    (self : ExtractionItem) (ex ex' : Extractor) :
  extract L fuel self ex = Ok true ex' ->
  get_status self = true
  \/ (get_kernel_status (update_status ex' self) = true
      /\ get_rootfs_status (update_status ex' self) = true)
  \/ (exists new,
        trace ex' = (new ++ trace ex)%list
        /\ RECURSION_BREADTH < children_walked (depth self) new).
Proof.
  destruct fuel as [|fuel]; [done|]. cbn [extract]. unfold extract_body.
  destruct (get_status self) eqn:Hst; [by left|].
  destruct (RECURSION_DEPTH <? depth self)%nat eqn:Hd; [done|].
  apply Nat.ltb_ge in Hd.
  destruct (bool_decide _); [done|].
  destruct (_check_blacklist L self); [done|].
  unfold mkdtemp. intros H.
  apply cascade_true in H as [Ht|[Hb|Hdone]];
    [| | |apply analyses_ok, extract_reach|apply analyses_flag, extract_reach|done].
  - left. unfold get_status in Hst. cbn [terminate set_temp] in Ht.
    rewrite Ht in Hst. done.
  - right; right.
    apply (breadth_reached_earlier self _ ex) in Hb; [done|done|].
    by exists [EvScratch (Py.path_join gettempdir
                           (tmpname L (tmp_count (visited_add (checksum self) ex))))
                         (depth self); EvVisit (checksum self)].
  - right; left. done.
Qed.

Lemma extract_true_is_complete_witness :
  get_status tar_firmware = true
  \/ (get_kernel_status
        (update_status (final (extract tar_libs 2 tar_firmware fresh_job)) tar_firmware)
      = true
      /\ get_rootfs_status
           (update_status (final (extract tar_libs 2 tar_firmware fresh_job))
              tar_firmware)
         = true)
  \/ (exists new,
        trace (final (extract tar_libs 2 tar_firmware fresh_job))
        = (new ++ trace fresh_job)%list
        /\ RECURSION_BREADTH < children_walked (depth tar_firmware) new).
Proof.
  apply (extract_true_is_complete tar_libs 2 tar_firmware fresh_job).
  vm_compute. reflexivity.
Defined.

(** ** The TP-Link/TRX branch *)




(** ** The root filesystem phase and the root case of the containers *)

Lemma rootfs_modules_skip (self : ExtractionItem) (ex : Extractor)
    (before ms : list ScanModule) :
  Forall (fun m => directory m = None) before ->
  rootfs_modules self ex (before ++ ms) = rootfs_modules self ex ms.
Proof.
  induction 1 as [|m before Hm _ IH]; [done|].
  cbn [app rootfs_modules]. by rewrite Hm.
Qed.

(** X10. The root filesystem phase does nothing when the status of the item
    says the root filesystem is done.  Otherwise it is decided by the first
    module that extracted a directory: if the detector rejects that
    directory the phase reports no change and leaves the job alone, whatever
    later modules extracted; if the detector accepts it, the root found is
    archived to [O/1.tar.gz] when the job has an output directory, and
    [do_rootfs] is cleared when it has none, and the phase reports a
    change.  Without any extracted directory it reports no change. *)
Theorem rootfs_first_directory (L : Libraries) (self : ExtractionItem)
    (ex : Extractor) (before after : list ScanModule) (m : ScanModule)
    (dir : string) (tree : fsnode) :
  (get_rootfs_status self = true -> _check_rootfs L self ex = Ok (false, self) ex)
  /\ (get_rootfs_status self = false ->
      Forall (fun m => directory m = None)
        (binwalk_scan L (default EmptyString (temp self)) (item self) (data self)
           Filesystem) ->
      _check_rootfs L self ex = Ok (false, self) ex)
  /\ (get_rootfs_status self = false ->
      binwalk_scan L (default EmptyString (temp self)) (item self) (data self)
        Filesystem = (before ++ m :: after)%list ->
      Forall (fun m => directory m = None) before ->
      directory m = Some (dir, tree) ->
      ((io_find_rootfs dir tree true).1 = false ->
       _check_rootfs L self ex = Ok (false, self) ex)
      /\ ((io_find_rootfs dir tree true).1 = true ->
          (forall out, output_dir ex = Some out ->
             _check_rootfs L self ex
             = Ok (true, self) (write_rootfs (io_find_rootfs dir tree true).2 ex)
             /\ get_rootfs_path ex = Some (Py.path_join out "1" ++ ".tar.gz"))
          /\ (output_dir ex = None ->
              _check_rootfs L self ex = Ok (true, self) (set_do_rootfs false ex)))).
Proof.
  unfold _check_rootfs. split; [by intros ->|]. split.
  - intros -> Hnone. cbn [negb].
    induction Hnone as [|m' ms Hm _ IH]; cbn [rootfs_modules]; [done|].
    by rewrite Hm.
  - intros -> Hscan Hbefore Hdir. cbn [negb]. rewrite Hscan.
    rewrite rootfs_modules_skip by done. cbn [rootfs_modules]. rewrite Hdir.
    split.
    + by intros ->.
    + intros ->. cbn [negb]. unfold archive_rootfs, get_rootfs_path, output.
      split.
      * intros out ->. done.
      * by intros ->.
Qed.

Lemma rootfs_first_directory_witness :
  _check_rootfs (octet_libs (root_scan Filesystem)) squashfs fresh_job
  = Ok (true, squashfs) (write_rootfs "/tmp/tmp0/_fw.extracted" fresh_job)
  /\ _check_rootfs (octet_libs (root_scan Filesystem)) squashfs job_without_output
     = Ok (true, squashfs) (set_do_rootfs false job_without_output).
Proof.
  pose proof (rootfs_first_directory (octet_libs (root_scan Filesystem)) squashfs
              fresh_job [{| results := []; directory := None |}] []
              {| results := [{| description := "Squashfs filesystem"; offset := 0 |}];
                 directory := Some ("/tmp/tmp0/_fw.extracted", rootfs_tree) |}
              "/tmp/tmp0/_fw.extracted" rootfs_tree) as (_ & _ & H).
  destruct H as [_ Hyes].
  { vm_compute; reflexivity. }
  { vm_compute; reflexivity. }
  { apply Forall_singleton. reflexivity. }
  { reflexivity. }
  destruct Hyes as [Hout _]; [vm_compute; reflexivity|].
  destruct (Hout "/out") as [H1 _]; [vm_compute; reflexivity|].
  pose proof (rootfs_first_directory (octet_libs (root_scan Filesystem)) squashfs
              job_without_output [{| results := []; directory := None |}] []
              {| results := [{| description := "Squashfs filesystem"; offset := 0 |}];
                 directory := Some ("/tmp/tmp0/_fw.extracted", rootfs_tree) |}
              "/tmp/tmp0/_fw.extracted" rootfs_tree) as (_ & _ & H').
  destruct H' as [_ Hyes'].
  { vm_compute; reflexivity. }
  { vm_compute; reflexivity. }
  { apply Forall_singleton. reflexivity. }
  { reflexivity. }
  destruct Hyes' as [_ Hnone]; [vm_compute; reflexivity|].
  split.
  - rewrite H1. vm_compute. reflexivity.
  - rewrite Hnone; [reflexivity|vm_compute; reflexivity].
Defined.

Lemma recursive_modules_skip (L : Libraries)
    (rec : ExtractionItem -> Extractor -> result bool)
    (self : ExtractionItem) (ex : Extractor) (desc : option string)
    (before ms : list ScanModule) :
  Forall (fun m => directory m = None) before ->
  exists desc',
    recursive_modules L rec self ex desc (before ++ ms)
    = recursive_modules L rec self ex desc' ms.
Proof.
  intros H. revert desc. induction H as [|m before Hm _ IH]; intros desc.
  - by exists desc.
  - cbn [app recursive_modules]. rewrite Hm. apply IH.
Qed.

(** X11. In the archive and the compressed phase, when the first directory
    a module extracted is accepted by the root detector, the root found is
    archived (or [do_rootfs] cleared, without an output directory) and the
    phase reports a change; no file of the directory is turned into an item.
    The status and the [do_rootfs] flag are not consulted: this happens
    also when the root filesystem is already done or was not asked for. *)
Theorem container_is_rootfs (L : Libraries)
    (rec : ExtractionItem -> Extractor -> result bool) (fmt : category)
    (self : ExtractionItem) (ex : Extractor) (before after : list ScanModule)
    (m : ScanModule) (dir : string) (tree : fsnode) :
  binwalk_scan L (default EmptyString (temp self)) (item self) (data self) fmt
  = (before ++ m :: after)%list ->
  Forall (fun m => directory m = None) before ->
  directory m = Some (dir, tree) ->
  (io_find_rootfs dir tree true).1 = true ->
  _check_recursive L rec fmt self ex
  = Ok (true, self) (archive_rootfs (io_find_rootfs dir tree true).2 ex)
  /\ trace (archive_rootfs (io_find_rootfs dir tree true).2 ex) = trace ex
  /\ (forall out, output_dir ex = Some out ->
        rootfs_file (archive_rootfs (io_find_rootfs dir tree true).2 ex)
        = Some (io_find_rootfs dir tree true).2)
  /\ (output_dir ex = None ->
      do_rootfs (archive_rootfs (io_find_rootfs dir tree true).2 ex) = false).
Proof.
  intros Hscan Hbefore Hdir Hroot. split; [|split; [|split]].
  - unfold _check_recursive. rewrite Hscan.
    destruct (recursive_modules_skip L rec self ex None before (m :: after) Hbefore)
      as [desc' ->].
    cbn [recursive_modules]. by rewrite Hdir, Hroot.
  - apply trace_archive_rootfs.
  - intros out Hout. unfold archive_rootfs, output. by rewrite Hout.
  - intros Hout. unfold archive_rootfs, output. by rewrite Hout.
Qed.

Lemma container_is_rootfs_witness :
  _check_archive (octet_libs (root_scan Archive)) (fun _ ex => Ok false ex)
    squashfs (set_do_rootfs false fresh_job)
  = Ok (true, squashfs)
       (write_rootfs "/tmp/tmp0/_fw.extracted" (set_do_rootfs false fresh_job)).
Proof.
  pose proof (container_is_rootfs (octet_libs (root_scan Archive))
              (fun _ ex => Ok false ex) Archive squashfs
              (set_do_rootfs false fresh_job)
              [{| results := []; directory := None |}] []
              {| results := [{| description := "Squashfs filesystem"; offset := 0 |}];
                 directory := Some ("/tmp/tmp0/_fw.extracted", rootfs_tree) |}
              "/tmp/tmp0/_fw.extracted" rootfs_tree) as H.
  destruct H as [H _].
  { vm_compute; reflexivity. }
  { apply Forall_singleton. reflexivity. }
  { reflexivity. }
  { vm_compute; reflexivity. }
  unfold _check_archive. rewrite H. vm_compute. reflexivity.
Defined.

(** ** A size field without digits *)

Lemma isdigit_hexval (c : ascii) :
  Py.isdigit c = true ->
  Ascii.eqb c "_"%char = false
  /\ exists d, Py.hexval c = Some d /\ (d <? 10)%Z = true.
Proof.
  destruct c as [[] [] [] [] [] [] [] []]; intros H; try discriminate H;
    (split; [reflexivity|eexists; split; reflexivity]).
Qed.

Lemma digits_keep_digits (s : string) (seen : bool) (acc : Z) :
  Py.digits 10 (Py.keep_digits s) false seen acc = None
  <-> Py.keep_digits s = EmptyString /\ seen = false.
Proof.
  revert seen acc. induction s as [|c s IH]; intros seen acc; cbn [Py.keep_digits].
  - cbn. destruct seen; cbn; split; [done|by intros [_ ?]|done|done].
  - destruct (Py.isdigit c) eqn:Hc; [|apply IH].
    destruct (isdigit_hexval c Hc) as (Hu & d & Hd & Hlt).
    cbn [Py.digits]. rewrite Hu, Hd, Hlt. rewrite IH.
    split; [by intros [_ ?]|by intros [? _]].
Qed.

Lemma uimage_size_none (stmts : list string) (k : Z) :
  uimage_size stmts k = None <-> Exists sizeless_field stmts.
Proof.
  revert k. induction stmts as [|stmt stmts IH]; intros k; cbn [uimage_size].
  - split; [done|by intros ?%Exists_nil].
  - rewrite Exists_cons. unfold sizeless_field at 1.
    destruct (Py.contains "image size:" stmt).
    + unfold Py.int10_of_digits.
      pose proof (digits_keep_digits stmt false 0) as Hdig.
      destruct (Py.digits 10 (Py.keep_digits stmt) false false 0) as [n|].
      * rewrite IH. split; [by right|]. intros [[_ Hk]|?]; [|done].
        assert (@None Z = None) as Hnone by done.
        destruct Hdig as [_ Hdig]. by specialize (Hdig (conj Hk eq_refl)).
      * split; [|done]. intros _. left. split; [done|]. by apply Hdig.
    + rewrite IH. split; [by right|]. by intros [[? _]|?].
Qed.

(** X12. A uImage finding with [OS Kernel Image] that the loop reaches
    with the kernel not done, and whose description has a field with
    [image size:] and no digit, makes [int] raise: the firmware phase ends
    with the exception and the job untouched, no child is built, and in the
    cascade the exception is swallowed, the phases after it are not run and
    [False] is returned. *)
Theorem sizeless_uimage_fails (L : Libraries)
    (rec : ExtractionItem -> Extractor -> result bool)
    (self : ExtractionItem) (ex : Extractor) (e : Entry)
    (before after : list ScanModule) (pre post : list Entry)
    (dir : option (string * fsnode))
    (rest : list (ExtractionItem -> Extractor -> result (bool * ExtractionItem))) :
  Py.contains "uImage header" (description e) = true ->
  Py.contains "OS Kernel Image" (description e) = true ->
  get_kernel_status self = false ->
  Exists sizeless_field (Py.split "," (description e)) ->
  binwalk_scan L (default EmptyString (temp self)) (item self) (data self) Header
  = (before ++ {| results := pre ++ e :: post; directory := dir |} :: after)%list ->
  Forall (fun m => Forall (fun e' => firmware_entry L rec self ex e'
                                     = Ok (None, self) ex) (results m)) before ->
  Forall (fun e' => firmware_entry L rec self ex e' = Ok (None, self) ex) pre ->
  firmware_entry L rec self ex e = Exn ex
  /\ _check_firmware L rec self ex = Exn ex
  /\ cascade (_check_firmware L rec :: rest) self ex = Ok false ex.
Proof.
  intros Hu Hos Hk Hsize Hscan Hbefore Hpre.
  assert (firmware_entry L rec self ex e = Exn ex) as He.
  { unfold firmware_entry. rewrite Hu, Hos, Hk. cbn [negb andb].
    apply (uimage_size_none _ 0) in Hsize. by rewrite Hsize. }
  assert (_check_firmware L rec self ex = Exn ex) as Hphase.
  { unfold _check_firmware. rewrite Hscan.
    rewrite firmware_modules_skip by done. cbn [firmware_modules results].
    rewrite firmware_entries_skip by done. cbn [firmware_entries].
    by rewrite He. }
  split; [done|]. split; [done|]. cbn [cascade]. by rewrite Hphase.
Qed.

Lemma sizeless_uimage_fails_witness :
  cascade [_check_firmware sizeless_libs (fun _ ex => Ok true ex);
           _check_kernel sizeless_libs; _check_rootfs sizeless_libs]
    empty_uimage fresh_job
  = Ok false fresh_job.
Proof.
  apply (sizeless_uimage_fails sizeless_libs (fun _ ex => Ok true ex) empty_uimage
           fresh_job (uimage_entry "unknown") [] [] [lzma_data] [] None
           [_check_kernel sizeless_libs; _check_rootfs sizeless_libs]).
  - vm_compute; reflexivity.
  - vm_compute; reflexivity.
  - vm_compute; reflexivity.
  - change (Py.split "," (description (uimage_entry "unknown")))
      with ["uImage header"; " header size: 64 bytes";
            " image size: unknown bytes"; " OS: Linux";
            " image type: OS Kernel Image"].
    do 2 (apply Exists_cons; right). apply Exists_cons; left.
    split; vm_compute; reflexivity.
  - vm_compute; reflexivity.
  - apply Forall_nil_2.
  - apply Forall_singleton. vm_compute; reflexivity.
Defined.

(** ** A job with nothing left to do *)

Lemma seed_of_done_job (L : Libraries) (fuel : nat) (path : string)
    (d : list byte) (ex : Extractor) :
  (forall it, get_kernel_status (update_status ex it) = true
              /\ get_rootfs_status (update_status ex it) = true) ->
  extract L (S fuel) (new_item L ex path d 0) (log (EvNew Seed path 0) ex)
  = Ok true (log (EvNew Seed path 0) ex).
Proof.
  intros Hdone. cbn [extract]. unfold extract_body.
  assert (get_status (new_item L ex path d 0) = true) as ->; [|done].
  unfold get_status, new_item.
  destruct (Hdone {| temp := None; depth := 0; item := path; data := d;
                     checksum := md5 L d; terminate := false;
                     status := (false, false) |}) as [-> ->].
  apply orb_true_r.
Qed.

(** X13. When both outputs are done for the job (disabled, or present in
    the output directory), a job analyses nothing: every file of the work
    list is turned into an item that is complete at once, no digest
    enters the visited set, no scratch directory is made and no output is
    written; the job only builds its seed items. *)
Theorem finished_job_is_idle (L : Libraries) (fuel : nat) (input : string)
    (n : option fsnode) (ex : Extractor) :
  (forall it, get_kernel_status (update_status ex it) = true
              /\ get_rootfs_status (update_status ex it) = true) ->
  Extractor_extract L (S fuel) input n ex
  = Ok tt (seeds_logged (input_list input n) ex)
  /\ visited (seeds_logged (input_list input n) ex) = visited ex
  /\ kernel_file (seeds_logged (input_list input n) ex) = kernel_file ex
  /\ rootfs_file (seeds_logged (input_list input n) ex) = rootfs_file ex
  /\ scratches (trace (seeds_logged (input_list input n) ex)) = scratches (trace ex).
Proof.
  unfold Extractor_extract. generalize (input_list input n). intros seeds.
  revert ex. induction seeds as [|[path d] seeds IH]; intros ex Hdone.
  - by cbn.
  - cbn [extract_items seeds_logged fold_left fst].
    rewrite seed_of_done_job by done. cbn [rbind].
    destruct (IH (log (EvNew Seed path 0) ex)) as (H1 & H2 & H3 & H4 & H5).
    { intros it. apply (Hdone it). }
    unfold seeds_logged in *. by rewrite H1, H2, H3, H4, H5.
Qed.

Lemma finished_job_is_idle_witness :
  Extractor_extract demo_libs 1 "/in"
    (Some (Dir [("a", File (bytes "A")); ("b", File (bytes "B"))])) finished_job
  = Ok tt (log (EvNew Seed "/in/b" 0) (log (EvNew Seed "/in/a" 0) finished_job)).
Proof.
  destruct (finished_job_is_idle demo_libs 0 "/in"
              (Some (Dir [("a", File (bytes "A")); ("b", File (bytes "B"))]))
              finished_job) as [H _].
  - intros it. split; reflexivity.
  - rewrite H. vm_compute. reflexivity.
Defined.

(** ** The same content twice *)

Lemma extract_inserts_digest (L : Libraries) (fuel : nat)
    (it : ExtractionItem) (ex : Extractor) :
  get_status it = false -> depth it <= RECURSION_DEPTH ->
  checksum it ∈ visited (final (extract L (S fuel) it ex)).
Proof.
  intros Hst Hd. cbn [extract]. unfold extract_body. rewrite Hst.
  destruct (RECURSION_DEPTH <? depth it)%nat eqn:Hlt.
  { apply Nat.ltb_lt in Hlt. lia. }
  destruct (bool_decide (checksum it ∈ visited ex)) eqn:Hv.
  { by apply bool_decide_eq_true in Hv. }
  assert (checksum it ∈ visited (visited_add (checksum it) ex)) as Hin.
  { cbn. apply elem_of_union_l. by apply elem_of_singleton. }
  destruct (_check_blacklist L it); [done|].
  unfold mkdtemp.
  eapply (reach_visited (depth it)); [|exact Hin].
  eapply reach_trans;
    [|apply (cascade_reach (analyses L (extract L fuel)) (set_temp _ it));
      [apply analyses_ok, extract_reach|done]].
  eapply reach_trans; [apply reach_prim; [done|apply prim_tmp]|].
  apply reach_prim; [done|apply prim_scratch].
Qed.

(** X14. A content is analysed once.  After [extract] ran on an item
    within the depth limit, built as the code builds it, an item with the
    same content built in any later job state (visited set not smaller,
    nothing undone) is not analysed, whatever its path and depth: its
    [extract] returns its completion status at once and leaves the job as
    it was. *)
Theorem same_content_is_skipped (L : Libraries) (fuel fuel' : nat)
    (o1 o2 : origin) (p1 p2 : string) (d : list byte) (dep1 dep2 : nat)
    (ex ex2 : Extractor) :
  dep1 <= RECURSION_DEPTH ->
  visited (final (extract L (S fuel) (new_item L ex p1 d dep1)
                    (log (EvNew o1 p1 dep1) ex))) ⊆ visited ex2 ->
  never_undone (final (extract L (S fuel) (new_item L ex p1 d dep1)
                         (log (EvNew o1 p1 dep1) ex))) ex2 ->
  extract L (S fuel') (new_item L ex2 p2 d dep2) (log (EvNew o2 p2 dep2) ex2)
  = Ok (get_status (new_item L ex2 p2 d dep2)) (log (EvNew o2 p2 dep2) ex2).
Proof.
  intros Hd Hvis Hkeep.
  cbn [extract]. unfold extract_body.
  destruct (get_status (new_item L ex2 p2 d dep2)) eqn:Hst2; [done|].
  destruct (RECURSION_DEPTH <? dep2)%nat eqn:Hlt; cbn [depth new_item update_status set_status];
    rewrite Hlt; [done|].
  assert (checksum (new_item L ex2 p2 d dep2) ∈ visited (log (EvNew o2 p2 dep2) ex2))
    as Hin; [|by rewrite bool_decide_eq_true_2].
  cbn [visited log]. apply Hvis.
  destruct (get_status (new_item L ex p1 d dep1)) eqn:Hst1.
  - exfalso.
    pose proof (reach_never_undone _ _ _
                  (extract_reach L (S fuel) (new_item L ex p1 d dep1)
                     (log (EvNew o1 p1 dep1) ex))) as Hfirst.
    destruct (never_undone_trans _ _ _ Hfirst Hkeep) as (_ & _ & _ & _ & _ & K & R).
    unfold get_status in Hst1, Hst2. cbn [terminate new_item update_status set_status orb] in Hst1, Hst2.
    apply andb_true_iff in Hst1 as [Hk1 Hr1].
    specialize (K {| temp := None; depth := dep1; item := p1; data := d;
                     checksum := md5 L d; terminate := false;
                     status := (false, false) |}
                  {| temp := None; depth := dep2; item := p2; data := d;
                     checksum := md5 L d; terminate := false;
                     status := (false, false) |} Hk1).
    specialize (R {| temp := None; depth := dep1; item := p1; data := d;
                     checksum := md5 L d; terminate := false;
                     status := (false, false) |}
                  {| temp := None; depth := dep2; item := p2; data := d;
                     checksum := md5 L d; terminate := false;
                     status := (false, false) |} Hr1).
    unfold new_item in Hst2. rewrite K, R in Hst2. done.
  - apply (extract_inserts_digest L fuel (new_item L ex p1 d dep1)); done.
Qed.

Lemma same_content_is_skipped_witness :
  extract demo_libs 1 (new_item demo_libs job_after_first "/in/b" (bytes "FW") 0)
    (log (EvNew Seed "/in/b" 0) job_after_first)
  = Ok (get_status (new_item demo_libs job_after_first "/in/b" (bytes "FW") 0))
       (log (EvNew Seed "/in/b" 0) job_after_first).
Proof.
  apply (same_content_is_skipped demo_libs 0 0 Seed Seed "/in/a" "/in/b"
           (bytes "FW") 0 0 fresh_job job_after_first).
  - unfold RECURSION_DEPTH. lia.
  - reflexivity.
  - apply never_undone_refl.
Defined.

(** ** Every run is a sequence of conditioned effects *)

Lemma run_once (L : Libraries) (a b : Extractor) : effect L a b -> run L a b.
Proof. apply rtc_once. Qed.

Lemma rbind_run {A B} (L : Libraries) (ex : Extractor) (r : result A)
    (k : A -> Extractor -> result B) :
  run L ex (final r) ->
  (forall a ex', run L ex' (final (k a ex'))) ->
  run L ex (final (rbind r k)).
Proof.
  intros Hr Hk. destruct r as [a ex'|ex'|ex']; cbn [rbind final] in *; [|done..].
  eapply rtc_trans; [exact Hr|apply Hk].
Qed.

Lemma archive_rootfs_run (L : Libraries) (root : string) (ex : Extractor) :
  extracted_root L root -> run L ex (archive_rootfs root ex).
Proof.
  intros Hroot. unfold archive_rootfs, output.
  destruct (output_dir ex) as [o|] eqn:Ho; cbn [fmap option_fmap option_map].
  - apply run_once, effect_rootfs; [by rewrite Ho|done].
  - by apply run_once, effect_no_rootfs.
Qed.

Section Run.
Variable L : Libraries.
Variable rec : ExtractionItem -> Extractor -> result bool.
Hypothesis rec_run : forall it ex, run L ex (final (rec it ex)).

Lemma carve_run (self : ExtractionItem) (ex : Extractor) (off size : Z) :
  run L ex (final (carve L rec self ex off size)).
Proof.
  unfold carve, mkstemp.
  eapply rtc_l; [apply effect_tmp|].
  destruct (io_dd (data self) off size) as [bs|]; [|apply rtc_refl].
  eapply rtc_l; [apply effect_new|]. apply rec_run.
Qed.

Lemma firmware_entry_run (self : ExtractionItem) (ex : Extractor) (e : Entry) :
  run L ex (final (firmware_entry L rec self ex e)).
Proof.
  unfold firmware_entry.
  repeat match goal with
         | |- run _ _ (final (if ?b then _ else _)) => destruct b
         | |- run _ _ (final (match ?o with Some _ => _ | None => _ end)) =>
             destruct o
         | |- run _ _ (final (Ok _ _)) => apply rtc_refl
         | |- run _ _ (final (Exn _)) => apply rtc_refl
         end.
  - apply rbind_run; [apply carve_run|]. intros b ex'. apply rtc_refl.
  - apply rbind_run; [apply carve_run|]. intros _ ex1.
    apply rbind_run; [apply carve_run|]. intros _ ex2. apply rtc_refl.
Qed.

Lemma firmware_entries_run (es : list Entry) (self : ExtractionItem)
    (ex : Extractor) :
  run L ex (final (firmware_entries L rec self ex es)).
Proof.
  revert self ex. induction es as [|e es IH]; intros self ex;
    cbn [firmware_entries]; [apply rtc_refl|].
  apply rbind_run; [apply firmware_entry_run|].
  intros [[b|] s] ex'; cbn [fst snd]; [apply rtc_refl|apply IH].
Qed.

Lemma firmware_modules_run (ms : list ScanModule) (self : ExtractionItem)
    (ex : Extractor) :
  run L ex (final (firmware_modules L rec self ex ms)).
Proof.
  revert self ex. induction ms as [|m ms IH]; intros self ex;
    cbn [firmware_modules]; [apply rtc_refl|].
  apply rbind_run; [apply firmware_entries_run|].
  intros [[b|] s] ex'; cbn [fst snd]; [apply rtc_refl|apply IH].
Qed.

Lemma _check_firmware_run (self : ExtractionItem) (ex : Extractor) :
  run L ex (final (_check_firmware L rec self ex)).
Proof.
  unfold _check_firmware. apply rbind_run; [apply firmware_modules_run|].
  intros r ex'. apply rtc_refl.
Qed.

Lemma kernel_entries_run (self : ExtractionItem) (ex : Extractor)
    (m : ScanModule) (ms : list ScanModule) (es : list Entry) :
  get_kernel_status self = false ->
  binwalk_scan L (default EmptyString (temp self)) (item self) (data self) Kernel
  = m :: ms ->
  (forall e, e ∈ es -> e ∈ results m) ->
  run L ex (final (kernel_entries self ex es)).
Proof.
  intros Hk Hscan. induction es as [|e es IH]; intros Hsub;
    cbn [kernel_entries]; [apply rtc_refl|].
  destruct (Py.contains "kernel version" _) eqn:Hv.
  - destruct (Py.contains "Linux" _) eqn:Hl; [|apply rtc_refl].
    unfold get_kernel_path, output.
    destruct (output_dir ex) as [o|] eqn:Ho; cbn [fmap option_fmap option_map final].
    + apply run_once, effect_kernel; [by rewrite Ho|].
      split; [done|]. exists m, ms, e. repeat split; try done.
      apply Hsub. by left.
    + by apply run_once, effect_no_kernel.
  - apply IH. intros e' He'. apply Hsub. by right.
Qed.

Lemma _check_kernel_run (self : ExtractionItem) (ex : Extractor) :
  run L ex (final (_check_kernel L self ex)).
Proof.
  unfold _check_kernel.
  destruct (get_kernel_status self) eqn:Hk; cbn [negb]; [apply rtc_refl|].
  destruct (binwalk_scan L _ _ _ Kernel) as [|m ms] eqn:Hscan; [apply rtc_refl|].
  by eapply kernel_entries_run.
Qed.

Lemma rootfs_modules_run (self s : ExtractionItem) (ex : Extractor)
    (ms : list ScanModule) :
  (forall m, m ∈ ms ->
     m ∈ binwalk_scan L (default EmptyString (temp s)) (item s) (data s)
           Filesystem) ->
  run L ex (final (rootfs_modules self ex ms)).
Proof.
  induction ms as [|m ms IH]; intros Hsub; cbn [rootfs_modules];
    [apply rtc_refl|].
  destruct (directory m) as [[dir tree]|] eqn:Hdir.
  - destruct (io_find_rootfs dir tree true) as [[] root] eqn:Hroot;
      cbn [negb fst snd final]; [|apply rtc_refl].
    apply archive_rootfs_run. exists s, Filesystem, m, dir, tree.
    repeat split; try done. apply Hsub. by left.
  - apply IH. intros m' Hm'. apply Hsub. by right.
Qed.

Lemma _check_rootfs_run (self : ExtractionItem) (ex : Extractor) :
  run L ex (final (_check_rootfs L self ex)).
Proof.
  unfold _check_rootfs. destruct (negb _); [|apply rtc_refl].
  by apply (rootfs_modules_run self self).
Qed.

Lemma walk_files_run (root : string) (fdata : list (string * list byte))
    (files : list string) (self : ExtractionItem) (ex : Extractor)
    (count : nat) :
  run L ex (final (walk_files L rec self ex root fdata files count)).
Proof.
  revert self ex count.
  induction files as [|filename files IH]; intros self ex count;
    cbn [walk_files]; [apply rtc_refl|].
  destruct (RECURSION_BREADTH <? count)%nat; [apply rtc_refl|].
  destruct (read_file fdata filename) as [d|]; [|apply rtc_refl].
  apply rbind_run.
  { eapply rtc_l; [apply effect_new|]. apply rec_run. }
  intros done ex'. destruct done; [|apply IH].
  destruct (get_status (update_status ex' self)); [apply rtc_refl|apply IH].
Qed.

Lemma walk_dirs_run (desc : option string)
    (dirs : list (string * list (string * list byte)))
    (self : ExtractionItem) (ex : Extractor) (count : nat) :
  run L ex (final (walk_dirs L rec self ex desc dirs count)).
Proof.
  revert self ex count.
  induction dirs as [|[root fdata] dirs IH]; intros self ex count;
    cbn [walk_dirs]; [apply rtc_refl|].
  destruct (order_files desc (map fst fdata)) as [files|]; [|apply rtc_refl].
  apply rbind_run; [apply walk_files_run|].
  intros [[[b|] c] s] ex'; cbn [fst snd]; [apply rtc_refl|apply IH].
Qed.

Lemma recursive_modules_run (fmt : category) (s : ExtractionItem)
    (ms : list ScanModule) (desc : option string) (self : ExtractionItem)
    (ex : Extractor) :
  (forall m, m ∈ ms ->
     m ∈ binwalk_scan L (default EmptyString (temp s)) (item s) (data s) fmt) ->
  run L ex (final (recursive_modules L rec self ex desc ms)).
Proof.
  revert desc self ex.
  induction ms as [|m ms IH]; intros desc self ex Hsub;
    cbn [recursive_modules]; [apply rtc_refl|].
  assert (forall m', m' ∈ ms ->
            m' ∈ binwalk_scan L (default EmptyString (temp s)) (item s) (data s) fmt)
    as Hsub' by (intros m' Hm'; apply Hsub; by right).
  destruct (directory m) as [[dir tree]|] eqn:Hdir; [|by apply IH].
  destruct (io_find_rootfs dir tree true) as [[] root] eqn:Hroot; cbn [fst snd].
  - cbn [final]. apply archive_rootfs_run. exists s, fmt, m, dir, tree.
    repeat split; try done. apply Hsub. by left.
  - apply rbind_run; [apply walk_dirs_run|].
    intros [[[b|] c] s'] ex'; cbn [fst snd]; [apply rtc_refl|by apply IH].
Qed.

Lemma analyses_run :
  Forall (fun analysis => forall self ex, run L ex (final (analysis self ex)))
         (analyses L rec).
Proof.
  unfold analyses.
  repeat (apply List.Forall_cons; [intros s e|]); [..|apply List.Forall_nil].
  - by apply (recursive_modules_run Archive s).
  - unfold _check_encryption. destruct (bytes_eqb _ _); apply rtc_refl.
  - apply _check_firmware_run.
  - apply _check_kernel_run.
  - apply _check_rootfs_run.
  - by apply (recursive_modules_run Compressed s).
Qed.

Lemma cascade_run
    (phases : list (ExtractionItem -> Extractor -> result (bool * ExtractionItem)))
    (self : ExtractionItem) (ex : Extractor) :
  Forall (fun analysis => forall self ex, run L ex (final (analysis self ex)))
         phases ->
  run L ex (final (cascade phases self ex)).
Proof.
  intros Hall. revert self ex.
  induction Hall as [|analysis phases Ha _ IH]; intros self ex;
    cbn [cascade]; [apply rtc_refl|].
  pose proof (Ha self ex) as Hr.
  destruct (analysis self ex) as [[b self'] ex'|ex'|ex']; cbn [final] in *;
    [|done..].
  destruct b.
  - destruct (get_status (update_status ex' self')); [done|].
    eapply rtc_trans; [exact Hr|apply IH].
  - eapply rtc_trans; [exact Hr|apply IH].
Qed.

Lemma extract_body_run (self : ExtractionItem) (ex : Extractor) :
  run L ex (final (extract_body L rec self ex)).
Proof.
  unfold extract_body.
  destruct (get_status self); [apply rtc_refl|].
  destruct (RECURSION_DEPTH <? depth self)%nat; [apply rtc_refl|].
  destruct (bool_decide (checksum self ∈ visited ex)) eqn:Hv; [apply rtc_refl|].
  apply bool_decide_eq_false in Hv.
  destruct (_check_blacklist L self).
  - by apply run_once, effect_skip.
  - unfold mkdtemp. eapply rtc_l; [by apply effect_open|].
    apply cascade_run, analyses_run.
Qed.

End Run.

Lemma extract_run (L : Libraries) (fuel : nat) (self : ExtractionItem)
    (ex : Extractor) :
  run L ex (final (extract L fuel self ex)).
Proof.
  revert self ex. induction fuel as [|fuel IH]; intros self ex; cbn [extract].
  - apply rtc_refl.
  - by apply extract_body_run.
Qed.

Lemma job_run (L : Libraries) (fuel : nat) (input : string)
    (n : option fsnode) (ex : Extractor) :
  run L ex (final (Extractor_extract L fuel input n ex)).
Proof.
  unfold Extractor_extract. generalize (input_list input n). intros seeds.
  revert ex. induction seeds as [|[path d] seeds IH]; intros ex;
    cbn [extract_items]; [apply rtc_refl|].
  eapply rtc_l; [apply (effect_new L Seed path 0)|].
  apply rbind_run; [apply extract_run|]. intros _ ex'. apply IH.
Qed.

(** *** What the effects preserve *)

Lemma run_outputs_follow_dir (L : Libraries) (a b : Extractor) :
  run L a b -> outputs_follow_dir a b.
Proof.
  induction 1 as [x|x y z Hxy _ IH]; [by repeat split|].
  destruct IH as (I1 & I2 & I3).
  assert (outputs_follow_dir x y) as (J1 & J2 & J3).
  { destruct Hxy as [c ex Hc|c p d ex Hc|ex|o p d ex|self ex Ho Hk|ex Ho
                     |root ex Ho Hr|ex Ho];
      unfold outputs_follow_dir; cbn; (split; [done|]); split; intros Hn;
      try done;
      first [rewrite Hn in Ho; cbn in Ho; done|rewrite Ho in Hn; cbn in Hn; done]. }
  split; [congruence|]. split.
  - intros Hx. destruct (J2 Hx) as [K1 K2].
    destruct I2 as [K3 K4]; [congruence|]. split; congruence.
  - intros Hx. destruct (J3 Hx) as [K1 K2].
    destruct I3 as [K3 K4]; [congruence|]. split; congruence.
Qed.

Lemma run_kernel_origin (L : Libraries) (a b : Extractor) :
  run L a b -> kernel_origin L a b.
Proof.
  induction 1 as [x|x y z Hxy _ IH]; [by left|].
  destruct IH as [IH|IH]; [|by right].
  unfold kernel_origin. rewrite IH.
  destruct Hxy as [c ex Hc|c p d ex Hc|ex|o p d ex|self ex Ho Hk|ex Ho
                   |root ex Ho Hr|ex Ho]; cbn; try (by left).
  right. by exists self.
Qed.

Lemma run_rootfs_origin (L : Libraries) (a b : Extractor) :
  run L a b -> rootfs_origin L a b.
Proof.
  induction 1 as [x|x y z Hxy _ IH]; [by left|].
  destruct IH as [IH|IH]; [|by right].
  unfold rootfs_origin. rewrite IH.
  destruct Hxy as [c ex Hc|c p d ex Hc|ex|o p d ex|self ex Ho Hk|ex Ho
                   |root ex Ho Hr|ex Ho]; cbn; try (by left).
  right. by exists root.
Qed.

Lemma visits_app (a b : list event) :
  visits (a ++ b) = (visits a ++ visits b)%list.
Proof.
  induction a as [|[o p d|c|p d] a IH]; cbn; [done| |by f_equal|]; done.
Qed.

Lemma scratches_app (a b : list event) :
  scratches (a ++ b) = scratches a + scratches b.
Proof.
  induction a as [|[o p d|c|p d] a IH]; cbn; [done|done|done|by f_equal].
Qed.

Lemma once_per_digest_quiet (new : list event) (a b : Extractor) :
  trace b = (new ++ trace a)%list -> visits new = [] -> scratches new = 0 ->
  visited b = visited a -> once_per_digest a b.
Proof.
  intros Ht Hv Hs Hvis. exists new. rewrite Hv, Hs, Hvis. cbn.
  split; [done|]. split; [apply NoDup_nil_2|].
  split; [by intros c Hc%elem_of_nil|]. split; [|done].
  by rewrite union_empty_l_L.
Qed.

Lemma once_per_digest_visit (new : list event) (c : string) (a b : Extractor) :
  trace b = (new ++ trace a)%list -> visits new = [c] -> scratches new <= 1 ->
  visited b = {[ c ]} ∪ visited a -> c ∉ visited a -> once_per_digest a b.
Proof.
  intros Ht Hv Hs Hvis Hc. exists new. rewrite Hv, Hvis. cbn.
  split; [done|]. split; [apply NoDup_singleton|].
  split; [by intros c' ->%list_elem_of_singleton|]. split; [|done].
  by rewrite union_empty_r_L.
Qed.

Lemma effect_once_per_digest (L : Libraries) (a b : Extractor) :
  effect L a b -> once_per_digest a b.
Proof.
  intros [c ex Hc|c p d ex Hc|ex|o p d ex|self ex Ho Hk|ex Ho|root ex Ho Hr|ex Ho].
  - by apply (once_per_digest_visit [EvVisit c] c); cbn; try lia.
  - by apply (once_per_digest_visit [EvScratch p d; EvVisit c] c); cbn; try lia.
  - by apply (once_per_digest_quiet []).
  - by apply (once_per_digest_quiet [EvNew o p d]).
  - by apply (once_per_digest_quiet []).
  - by apply (once_per_digest_quiet []).
  - by apply (once_per_digest_quiet []).
  - by apply (once_per_digest_quiet []).
Qed.

Lemma run_once_per_digest (L : Libraries) (a b : Extractor) :
  run L a b -> once_per_digest a b.
Proof.
  induction 1 as [x|x y z Hxy _ IH].
  - by apply (once_per_digest_quiet []).
  - apply effect_once_per_digest in Hxy as (n1 & T1 & N1 & F1 & V1 & S1).
    destruct IH as (n2 & T2 & N2 & F2 & V2 & S2).
    exists (n2 ++ n1)%list. rewrite visits_app, scratches_app, length_app.
    repeat split.
    + rewrite T2, T1. by rewrite app_assoc.
    + apply NoDup_app. repeat split; [done| |done].
      intros c Hc2 Hc1. apply (F2 c Hc2). rewrite V1.
      by apply elem_of_union_l, elem_of_list_to_set.
    + intros c [Hc|Hc]%elem_of_app; [|by apply F1].
      intros Hx. apply (F2 c Hc). rewrite V1. by apply elem_of_union_r.
    + rewrite V2, V1. by rewrite list_to_set_app_L, (assoc_L (∪)).
    + lia.
Qed.

(** X15. The outputs follow the output directory.  Whatever [extract] or a
    whole job does, for every fuel and however it ends: the output
    directory is not changed; in a job without an output directory no
    kernel is copied and no root filesystem is archived; in a job with one
    neither [do_kernel] nor [do_rootfs] is changed. *)
Theorem outputs_follow_output_dir (L : Libraries) (fuel : nat)
    (self : ExtractionItem) (ex : Extractor) (input : string) (n : option fsnode) :
  outputs_follow_dir ex (final (extract L fuel self ex))
  /\ outputs_follow_dir ex (final (Extractor_extract L fuel input n ex)).
Proof.
  split.
  - eapply run_outputs_follow_dir, extract_run.
  - eapply run_outputs_follow_dir, job_run.
Qed.

(** X16. The kernel file a job leaves is the one it found or the file of
    an item that the kernel phase accepted: an item whose kernel status was
    not done and whose kernel scan has, in its first module, a finding with
    [kernel version] and [Linux].  The same holds for one [extract]. *)
Theorem kernel_provenance (L : Libraries) (fuel : nat)
    (self : ExtractionItem) (ex : Extractor) (input : string) (n : option fsnode) :
  kernel_origin L ex (final (extract L fuel self ex))
  /\ kernel_origin L ex (final (Extractor_extract L fuel input n ex)).
Proof.
  split.
  - eapply run_kernel_origin, extract_run.
  - eapply run_kernel_origin, job_run.
Qed.

(** X17. The root filesystem a job archives is the one it found archived
    or a directory that [io_find_rootfs] returned, with [True], for a
    directory some scan of an item extracted.  The same holds for one
    [extract]. *)
Theorem rootfs_provenance (L : Libraries) (fuel : nat)
    (self : ExtractionItem) (ex : Extractor) (input : string) (n : option fsnode) :
  rootfs_origin L ex (final (extract L fuel self ex))
  /\ rootfs_origin L ex (final (Extractor_extract L fuel input n ex)).
Proof.
  split.
  - eapply run_rootfs_origin, extract_run.
  - eapply run_rootfs_origin, job_run.
Qed.

(** X18. A job analyses a content at most once: the digests inserted into
    the visited set are pairwise distinct and were not in it before, the
    set grows by exactly them, and at most one scratch directory is made
    per inserted digest.  The same holds for one [extract]. *)
Theorem one_cascade_per_digest (L : Libraries) (fuel : nat)
    (self : ExtractionItem) (ex : Extractor) (input : string) (n : option fsnode) :
  once_per_digest ex (final (extract L fuel self ex))
  /\ once_per_digest ex (final (Extractor_extract L fuel input n ex)).
Proof.
  split.
  - eapply run_once_per_digest, extract_run.
  - eapply run_once_per_digest, job_run.
Qed.
